(** * Fourious: the real-time spectral visualisation pipeline

    A shallow embedding of the frame pipeline of the Fourious audio
    visualiser: magnitude processing, the bounded frame history, the
    per-bin peak hold, the heat-map colour functions, the three renderers
    and the pause/resume timer of the simulated source.

    Numbers.  JavaScript numbers are modelled without rounding error,
    with one exception.  The renderers use only [+ - * /], comparison
    and [Math.floor]; they are modelled over the exact rationals [Q] and
    stay executable.  The magnitude stage uses [Math.log10] and
    [Math.sqrt] and is modelled over the real numbers [R].  The
    exception is the heat map [getColor]: its ramps divide by the
    constant 0.2, which is not a double, and floor the result, so the
    rounding of each operation decides the integer that is printed; the
    ramps are computed in IEEE 754 binary64, with the primitive floats
    of Rocq.  Where the code guards a divisor (a
    maximum floored to a positive constant, a bin count behind the
    empty-frame check) the division is that of [Q]; a division whose
    divisor can be zero yields [None], which stands for the non-finite
    values ([Infinity], [-Infinity], [NaN]) that it produces in
    JavaScript.  The same convention is used for a read past the end of
    an array, whose [undefined] turns every arithmetic result into
    [NaN].

    Canvas.  A 2D context is modelled by its display list: the drawing
    calls issued since the whole surface was last cleared. *)

From Stdlib Require Import List Arith ZArith QArith Qround Qminmax Qabs Qpower.
From Stdlib Require Import Bool Lia Reals.
From Stdlib.Strings Require Import Byte.
From Stdlib Require Lra Lqa.
From Stdlib Require PrimFloat SpecFloat FloatOps.
Import ListNotations.

(** The decimal constants of the code are read as the nearest
    doubles. *)
Set Warnings "-inexact-float".

(** ** Numeric helpers *)

Module Num.

(** Strict comparison [a < b] of two JavaScript numbers. *)
Definition ltb (a b : Q) : bool :=
  match a ?= b with Lt => true | _ => false end.

(** [a / b] where the denominator may be zero: [None] is the non-finite
    result. *)
Definition div (a b : Q) : option Q :=
  if Qeq_bool b 0 then None else Some (a / b).

(** [k * v] for a finite [k] and a possibly non-finite [v]; a finite
    number times [Infinity] or [NaN] is never finite. *)
Definition scale (k : Q) (v : option Q) : option Q :=
  option_map (Qmult k) v.

Definition ofNat (n : nat) : Q := inject_Z (Z.of_nat n).

(** [Math.max(...xs, floor)]. *)
Definition maxWith (floor : Q) (xs : list Q) : Q := fold_right Qmax floor xs.

(** [let m = init; for (const x of xs) m = Math.max(m, x);]. *)
Definition maxLoop (init : Q) (xs : list Q) : Q :=
  fold_left (fun m x => Qmax m x) xs init.

End Num.

(** ** The bounded frame history

    [fftHistory.push([...magnitudes]);
     if (fftHistory.length > MAX_HISTORY) fftHistory.shift();]
    (AudioAnalyzer.vue [processAudioData], main.ts, and [processFFTData]
    of the simulated source). *)

Module History.

Definition MAX_HISTORY : nat := 200.

(** [Array.prototype.push] and [Array.prototype.shift]. *)
Definition push {A : Type} (a : list A) (x : A) : list A := a ++ [x].
Definition shift {A : Type} (a : list A) : list A := tl a.

Definition record {A : Type} (cap : nat) (fftHistory : list A) (magnitudes : A)
  : list A :=
  let h := push fftHistory magnitudes in
  if cap <? length h then shift h else h.

(** The history after a run of ticks, starting from the empty array. *)
Definition recordAll {A : Type} (cap : nat) (frames : list A) : list A :=
  fold_left (record cap) frames [].

End History.

(** ** Magnitude processing (over the reals) *)

Module Magnitude.

Definition log10 (x : R) : R := (ln x / ln 10)%R.

Definition byteValue (b : byte) : R := IZR (Z.of_N (Byte.to_N b)).

(** The loop body of [processAudioData]; [frequencyData] is a
    [Uint8Array]. *)
Definition audioMagnitude (logScale : bool) (frequencyData : list byte) (i : nat)
  : R :=
  let magnitude := byteValue (nth i frequencyData x00) in
  if logScale && (if Rlt_dec 0 magnitude then true else false)
  then (log10 (magnitude + 1) * 50)%R
  else magnitude.

Definition processAudioData (logScale : bool) (frequencyData : list byte)
  : list R :=
  let maxFrequencies := Nat.min 256 (length frequencyData) in
  map (audioMagnitude logScale frequencyData) (seq 0 maxFrequencies).

(** [FFT_CONFIG.size]. *)
Definition FFT_size : nat := 1024.

(** The loop body of [processFFTData]: [fftOutput] interleaves real and
    imaginary parts.  [None] is the [NaN] that results when either part
    is read past the end of the array. *)
Definition fftMagnitude (logScale : bool) (fftOutput : list R) (i : nat)
  : option R :=
  match nth_error fftOutput (i * 2), nth_error fftOutput (i * 2 + 1) with
  | Some real, Some imag =>
      let magnitude := sqrt (real * real + imag * imag) in
      let magnitude :=
        if logScale && (if Rlt_dec 0 magnitude then true else false)
        then (log10 magnitude * 10)%R
        else magnitude in
      Some (Rmax 0 magnitude)
  | _, _ => None
  end.

Definition processFFTData (logScale : bool) (fftOutput : list R)
  : list (option R) :=
  let maxFrequencies := Nat.min 256 (FFT_size / 2) in
  map (fftMagnitude logScale fftOutput) (seq 0 maxFrequencies).

End Magnitude.

(** ** The canvas display list *)

Module Canvas.

(** CSS colours as the code writes them, and the linear gradients it
    builds from colour stops. *)
Inductive color : Type :=
| Hsl (h s l : Q)
| Rgb (r g b : Z)
| Rgba (r g b : Z) (a : Q)
| White.

Inductive style : Type :=
| Solid (c : color)
| LinearGradient (x0 y0 x1 y1 : Q) (stops : list (Q * color)).

Inductive cmd : Type :=
| fillRect (x y w h : Q) (fillStyle : style)
| beginPath
| moveTo (x : option Q) (y : Q)
| lineTo (x : option Q) (y : Q)
| stroke (strokeStyle : style) (lineWidth : Q)
| closePath
| fill (fillStyle : style).

Record canvas : Type := { width : Q; height : Q }.

(** Two display lists paint the same picture when they issue the same
    calls with numerically equal arguments. *)
Definition num_eqb (a b : option Q) : bool :=
  match a, b with
  | Some x, Some y => Qeq_bool x y
  | None, None => true
  | _, _ => false
  end.

Definition color_eqb (a b : color) : bool :=
  match a, b with
  | Hsl h s l, Hsl h' s' l' => Qeq_bool h h' && Qeq_bool s s' && Qeq_bool l l'
  | Rgb r g b, Rgb r' g' b' => Z.eqb r r' && Z.eqb g g' && Z.eqb b b'
  | Rgba r g b a, Rgba r' g' b' a' =>
      Z.eqb r r' && Z.eqb g g' && Z.eqb b b' && Qeq_bool a a'
  | White, White => true
  | _, _ => false
  end.

Fixpoint stops_eqb (a b : list (Q * color)) : bool :=
  match a, b with
  | [], [] => true
  | (o, c) :: a', (o', c') :: b' =>
      Qeq_bool o o' && color_eqb c c' && stops_eqb a' b'
  | _, _ => false
  end.

Definition style_eqb (a b : style) : bool :=
  match a, b with
  | Solid c, Solid c' => color_eqb c c'
  | LinearGradient x0 y0 x1 y1 st, LinearGradient x0' y0' x1' y1' st' =>
      Qeq_bool x0 x0' && Qeq_bool y0 y0' && Qeq_bool x1 x1' && Qeq_bool y1 y1'
      && stops_eqb st st'
  | _, _ => false
  end.

Definition cmd_eqb (a b : cmd) : bool :=
  match a, b with
  | fillRect x y w h s, fillRect x' y' w' h' s' =>
      Qeq_bool x x' && Qeq_bool y y' && Qeq_bool w w' && Qeq_bool h h'
      && style_eqb s s'
  | beginPath, beginPath => true
  | moveTo x y, moveTo x' y' => num_eqb x x' && Qeq_bool y y'
  | lineTo x y, lineTo x' y' => num_eqb x x' && Qeq_bool y y'
  | stroke s w, stroke s' w' => style_eqb s s' && Qeq_bool w w'
  | closePath, closePath => true
  | fill s, fill s' => style_eqb s s'
  | _, _ => false
  end.

Fixpoint sameScreen (a b : list cmd) : bool :=
  match a, b with
  | [], [] => true
  | c :: a', c' :: b' => cmd_eqb c c' && sameScreen a' b'
  | _, _ => false
  end.

(** The heights of the rectangles a display list fills with [hsl] or
    [rgb] colours: the bars of the bar renderers. *)
Definition barHeights (screen : list cmd) : list Q :=
  flat_map (fun c =>
    match c with
    | fillRect _ _ _ h (Solid (Hsl _ _ _)) => [h]
    | fillRect _ _ _ h (Solid (Rgb _ _ _)) => [h]
    | _ => []
    end) screen.

End Canvas.

(** ** Component properties shared by the three Vue visualisers *)

Record Options : Type := { logScale : bool; showPeaks : bool }.

Record Props : Type :=
  { fftData : list Q; fftHistory : list (list Q); options : Options }.

(** ** Peak hold (the code shared verbatim by SpectrumBars.vue and
    SpectrumLine.vue) *)

Module PeakTracker.

Definition PEAK_HOLD_TIME : nat := 30.
Definition PEAK_FALL_SPEED : Q := 0.8.

(** [if (peakValues.length !== dataLength) { ...fill(0) }]. *)
Definition initPeaks (dataLength : nat) (peakValues : list Q)
  (peakHoldFrames : list nat) : list Q * list nat :=
  if Nat.eqb (length peakValues) dataLength
  then (peakValues, peakHoldFrames)
  else (repeat 0%Q dataLength, repeat 0%nat dataLength).

(** The update of [peakValues[i]] and [peakHoldFrames[i]]. *)
Definition updatePeak (barHeight peak : Q) (hold : nat) : Q * nat :=
  if Num.ltb peak barHeight then (barHeight, PEAK_HOLD_TIME)
  else match hold with
       | S hold' => (peak, hold')
       | O => (peak * PEAK_FALL_SPEED, O)
       end.

(** What the [if (props.options.showPeaks)] block does to one bin. *)
Definition track (showPeaks : bool) (barHeight peak : Q) (hold : nat)
  : Q * nat :=
  if showPeaks then updatePeak barHeight peak hold else (peak, hold).

(** One bin over a run of frames: the heights [barHeight] of successive
    draws are fed to [updatePeak]. *)
Definition feed (bin : Q * nat) (barHeight : Q) : Q * nat :=
  updatePeak barHeight (fst bin) (snd bin).

Definition feedAll (bin : Q * nat) (heights : list Q) : Q * nat :=
  fold_left feed heights bin.

End PeakTracker.

(** ** SpectrumBars.vue *)

Module SpectrumBars.
Import Canvas PeakTracker.

Record State : Type :=
  { peakValues : list Q; peakHoldFrames : list nat; screen : list cmd }.

Section Loop.
Variable cv : canvas.
Variable peaksShown : bool.
Variables (dataLength : nat) (barWidth barSpacing actualBarWidth maxValue : Q).

(** One iteration of the bar loop: the calls it issues. *)
Definition drawBar (i : nat) (value peak' : Q) : list cmd :=
  let normalizedValue := value / maxValue in
  let barHeight := normalizedValue * height cv in
  let x := Num.ofNat i * barWidth in
  let y := height cv - barHeight in
  let hue := (Num.ofNat i / Num.ofNat dataLength) * 240 in
  fillRect (x + barSpacing / 2) y actualBarWidth barHeight
    (Solid (Hsl hue 100 50))
  :: (if peaksShown
      then [fillRect (x + barSpacing / 2) (height cv - peak') actualBarWidth 2
              (Solid (Rgba 255 255 255 0.8))]
      else []).

(** [for (let i = 0; i < dataLength; i++)] over the three arrays.  The
    two peak arrays are only ever allocated together, with
    [dataLength] entries, so in every state the component reaches the
    three lists have the same length and the loop visits every bin. *)
Fixpoint bars (i : nat) (data peaks : list Q) (holds : list nat)
  : list Q * list nat * list cmd :=
  match data, peaks, holds with
  | value :: data', peak :: peaks', hold :: holds' =>
      let barHeight := value / maxValue * height cv in
      let '(peak', hold') := track peaksShown barHeight peak hold in
      let '(ps, hs, cmds) := bars (S i) data' peaks' holds' in
      (peak' :: ps, hold' :: hs, drawBar i value peak' ++ cmds)
  | _, _, _ => (peaks, holds, [])
  end.

End Loop.

Definition maxValue (data : list Q) : Q := Num.maxWith 1 data.

Definition draw (cv : canvas) (props : Props) (st : State) : State :=
  match fftData props with
  | [] => st
  | _ :: _ =>
      let dataLength := length (fftData props) in
      let barWidth := width cv / Num.ofNat dataLength in
      let barSpacing := Qmax 0 (barWidth * 0.1) in
      let actualBarWidth := barWidth - barSpacing in
      let '(peaks, holds) :=
        initPeaks dataLength (peakValues st) (peakHoldFrames st) in
      let '(peaks', holds', cmds) :=
        bars cv (showPeaks (options props)) dataLength barWidth barSpacing
          actualBarWidth (maxValue (fftData props)) 0 (fftData props) peaks holds in
      {| peakValues := peaks'; peakHoldFrames := holds'; screen := cmds |}
  end.

Definition initial : State :=
  {| peakValues := []; peakHoldFrames := []; screen := [] |}.

(** A run of draws, each with the canvas size and properties of its
    moment. *)
Definition drawAll (st : State) (frames : list (canvas * Props)) : State :=
  fold_left (fun st f => draw (fst f) (snd f) st) frames st.

End SpectrumBars.

(** ** SpectrumLine.vue *)

Module SpectrumLine.
Import Canvas PeakTracker.

Record State : Type :=
  { peakValues : list Q; peakHoldFrames : list nat; screen : list cmd }.

(** [if (i === 0) moveTo(x, y) else lineTo(x, y)]. *)
Definition pathTo (i : nat) (x : option Q) (y : Q) : cmd :=
  match i with O => moveTo x y | S _ => lineTo x y end.

Section Loop.
Variable cv : canvas.
Variable peaksShown : bool.
Variable pointSpacing : option Q.
Variable maxValue : Q.

(** The first loop: the spectrum path and the peak update. *)
Fixpoint line (i : nat) (data peaks : list Q) (holds : list nat)
  : list Q * list nat * list cmd :=
  match data, peaks, holds with
  | value :: data', peak :: peaks', hold :: holds' =>
      let normalizedValue := value / maxValue in
      let y := height cv - normalizedValue * height cv in
      let x := Num.scale (Num.ofNat i) pointSpacing in
      let barHeight := normalizedValue * height cv in
      let '(peak', hold') := track peaksShown barHeight peak hold in
      let '(ps, hs, cmds) := line (S i) data' peaks' holds' in
      (peak' :: ps, hold' :: hs, pathTo i x y :: cmds)
  | _, _, _ => (peaks, holds, [])
  end.

(** The second loop: the path through the held peaks. *)
Fixpoint peakPath (i : nat) (peaks : list Q) : list cmd :=
  match peaks with
  | peak :: peaks' =>
      pathTo i (Num.scale (Num.ofNat i) pointSpacing) (height cv - peak)
      :: peakPath (S i) peaks'
  | [] => []
  end.

End Loop.

Definition maxValue (data : list Q) : Q := Num.maxWith 1 data.

(** [width / (dataLength - 1)]. *)
Definition pointSpacing (cv : canvas) (dataLength : nat) : option Q :=
  Num.div (width cv) (Num.ofNat dataLength - 1).

Definition gradient (cv : canvas) : style :=
  LinearGradient 0 0 0 (height cv)
    [(0, Rgba 0 255 255 0.5); (1, Rgba 0 255 255 0)].

Definition draw (cv : canvas) (props : Props) (st : State) : State :=
  match fftData props with
  | [] => st
  | _ :: _ =>
      let dataLength := length (fftData props) in
      let spacing := pointSpacing cv dataLength in
      let '(peaks, holds) :=
        initPeaks dataLength (peakValues st) (peakHoldFrames st) in
      let '(peaks', holds', path) :=
        line cv (showPeaks (options props)) spacing (maxValue (fftData props))
          0 (fftData props) peaks holds in
      let overlay :=
        if showPeaks (options props)
        then beginPath :: peakPath cv spacing 0 peaks'
             ++ [stroke (Solid (Rgba 255 255 255 0.5)) 1]
        else [] in
      {| peakValues := peaks';
         peakHoldFrames := holds';
         screen :=
           beginPath :: path ++ [stroke (Solid (Hsl 180 100 50)) 2] ++ overlay
           ++ [lineTo (Some (width cv)) (height cv);
               lineTo (Some 0) (height cv);
               closePath;
               fill (gradient cv)] |}
  end.

Definition initial : State :=
  {| peakValues := []; peakHoldFrames := []; screen := [] |}.

Definition drawAll (st : State) (frames : list (canvas * Props)) : State :=
  fold_left (fun st f => draw (fst f) (snd f) st) frames st.

End SpectrumLine.

(** ** Spectrogram.vue *)

Module Spectrogram.

Record rgb : Type := { r : Z; g : Z; b : Z }.

Definition valueToColor (value : Q) : rgb :=
  let value := Qmin 255 (Qmax 0 value) in
  if Num.ltb value 85 then
    {| r := 0; g := Qfloor (value * 3); b := 255 |}
  else if Num.ltb value 170 then
    let value := value - 85 in
    {| r := Qfloor (value * 3); g := 255; b := 255 - Qfloor (value * 3) |}
  else
    let value := value - 170 in
    {| r := 255; g := 255 - Qfloor (value * 3); b := 0 |}.

Definition channels (c : rgb) : Z * Z * Z := (r c, g c, b c).

(** One RGBA pixel of [imageData.data]; the image is kept as its rows,
    top row first.  [resizeCanvas] allocates it with the canvas
    dimensions, so it has [height] rows of [width] pixels. *)
Definition pixel : Type := (Z * Z * Z * Z)%type.
Definition ImageData : Type := list (list pixel).

(** [Math.max(...frame, 0)]. *)
Definition frameMax (frame : list Q) : Q := Num.maxWith 0 frame.

(** [let maxValue = 1; for (const frame of history) maxValue =
    Math.max(maxValue, frameMax);]. *)
Definition maxValue (history : list (list Q)) : Q :=
  fold_left (fun maxValue frame => Qmax maxValue (frameMax frame)) history 1.

(** [shiftLeft] on one row: pixel [x] takes the value of pixel [x + 1],
    the last pixel keeps its value. *)
Definition shiftRow (row : list pixel) : list pixel :=
  match row with
  | [] => []
  | p :: rest => rest ++ [last row p]
  end.

(** The write at [rightColumnX]. *)
Definition setRight (row : list pixel) (px : pixel) : list pixel :=
  match row with
  | [] => []
  | _ :: _ => removelast row ++ [px]
  end.

(** [Math.floor((height - y - 1) * (frequencyBins / height))]. *)
Definition binOf (height frequencyBins y : nat) : Z :=
  Qfloor ((Num.ofNat height - Num.ofNat y - 1)
          * (Num.ofNat frequencyBins / Num.ofNat height)).

(** The colour written for bin [bin]. *)
Definition binPixel (maxValue : Q) (fftData : list Q) (bin : nat) : pixel :=
  let value := nth bin fftData 0 in
  let normalizedValue := (value / maxValue) * 255 in
  let color := valueToColor normalizedValue in
  (r color, g color, b color, 255%Z).

Definition paintRow (height frequencyBins : nat) (maxValue : Q)
  (fftData : list Q) (y : nat) (row : list pixel) : list pixel :=
  let bin := binOf height frequencyBins y in
  if (0 <=? bin)%Z && (bin <? Z.of_nat frequencyBins)%Z
  then setRight row (binPixel maxValue fftData (Z.to_nat bin))
  else row.

Fixpoint paintRows (height frequencyBins : nat) (maxValue : Q)
  (fftData : list Q) (y : nat) (rows : ImageData) : ImageData :=
  match rows with
  | [] => []
  | row :: rows' =>
      paintRow height frequencyBins maxValue fftData y row
      :: paintRows height frequencyBins maxValue fftData (S y) rows'
  end.

Record State : Type := { imageData : ImageData; screen : ImageData }.

Definition draw (props : Props) (st : State) : State :=
  match fftHistory props with
  | [] => st
  | frame0 :: _ =>
      let history := fftHistory props in
      let height := length (imageData st) in
      let frequencyBins := Nat.min height (length frame0) in
      let maxValue := maxValue history in
      let shifted := map shiftRow (imageData st) in
      let data :=
        paintRows height frequencyBins maxValue (fftData props) 0 shifted in
      {| imageData := data; screen := data |}
  end.

End Spectrogram.

(** ** IEEE 754 doubles *)

Module Double.
Import PrimFloat SpecFloat FloatOps.

(** The double nearest to an integer. *)
Definition ofZ (z : Z) : float :=
  SF2Prim (binary_normalize prec emax z 0 false).

(** The double of a rational number of the model: zero for zero,
    otherwise the quotient, rounded as IEEE division rounds it, of the
    numerator and the denominator.  When both are doubles (below
    [2^53] up to a power of two) this is the double nearest to the
    rational, and the rational itself when it is a double. *)
Definition ofQ (q : Q) : float :=
  match Qnum q with
  | Z0 => zero
  | n => (ofZ n / ofZ (Zpos (Qden q)))%float
  end.

(** [Math.floor] of a finite double, as the integer that a template
    string prints.  The ramps of [getColor] are finite for every ratio
    that is a number. *)
Definition floor (x : float) : Z :=
  match Prim2SF x with
  | S754_finite s m e => Z.shiftl (if s then Zneg m else Zpos m) e
  | _ => 0%Z
  end.

End Double.

(** ** The heat map of main.ts ([getColor], repeated verbatim in the
    simulated-source entry point) *)

Module HeatMap.
Import Canvas.
Import PrimFloat.

(** [Math.min(1, Math.max(0, magnitude / max))].  The callers modelled
    here pass a maximum that is floored to a positive constant; for
    [max = 0] JavaScript would produce [NaN] or an infinity, which the
    total division of [Q] does not represent.  The ratio is kept as the
    exact rational; [heat] rounds it to a double.  For magnitudes that
    are doubles this is the ratio the code computes: IEEE division
    returns the double nearest to the exact quotient, and clamping to
    the doubles 0 and 1 commutes with that rounding. *)
Definition ratioOf (magnitude max : Q) : Q :=
  Qmin 1 (Qmax 0 (magnitude / max)).

(** The five branches of [getColor] on the clamped ratio, operation by
    operation in doubles; [0.2], [0.4], [0.6] and [0.8] are the doubles
    nearest to these decimals, as in JavaScript. *)
Definition heatDouble (ratio : float) : color :=
  if (ratio <? 0.2)%float then
    Rgb 0 (Double.floor (255 * (ratio / 0.2))%float) 255
  else if (ratio <? 0.4)%float then
    Rgb 0 255 (Double.floor (255 * (1 - (ratio - 0.2) / 0.2))%float)
  else if (ratio <? 0.6)%float then
    Rgb (Double.floor (255 * ((ratio - 0.4) / 0.2))%float) 255 0
  else if (ratio <? 0.8)%float then
    Rgb 255 (Double.floor (255 * (1 - (ratio - 0.6) / 0.2))%float) 0
  else
    Rgb 255 0 (Double.floor (255 * ((ratio - 0.8) / 0.2))%float).

Definition heat (ratio : Q) : color := heatDouble (Double.ofQ ratio).

Definition getColor (magnitude max : Q) : color :=
  heat (ratioOf magnitude max).

(** The three channels of a colour string [rgb(r, g, b)]. *)
Definition channels (c : color) : Z * Z * Z :=
  match c with
  | Rgb r g b => (r, g, b)
  | Rgba r g b _ => (r, g, b)
  | _ => (0, 0, 0)%Z
  end.








End HeatMap.

(** ** The canvas renderers of the two entry points

    [drawFrequencyBars] is the same text in main.ts and in the
    simulated-source entry point except for the constant that floors
    the normalisation maximum, which is the section variable
    [minimum]. *)

Module Entry.
Import Canvas HeatMap.

Section Bars.
Variable minimum : Q.
Variable cv : canvas.
Variable showPeaksChecked : bool.

Definition barsMax (magnitudes : list Q) : Q :=
  Qmax (Num.maxLoop 0 magnitudes) minimum.

(** The body of the bar loop at index [i]. *)
Definition frequencyBar (magnitudes : list Q) (i : nat) : list cmd :=
  let barCount := length magnitudes in
  let barWidth := width cv / Num.ofNat barCount in
  let padding := barWidth * 0.1 in
  let maxMagnitude := barsMax magnitudes in
  let magnitude := nth i magnitudes 0 in
  let barHeight := (magnitude / maxMagnitude) * height cv in
  let x := Num.ofNat i * barWidth in
  let y := height cv - barHeight in
  fillRect (x + padding / 2) y (barWidth - padding) barHeight
    (Solid (getColor magnitude maxMagnitude))
  :: (if showPeaksChecked && (0 <? i)%nat && (i <? barCount - 1)%nat
         && Num.ltb (nth (i - 1) magnitudes 0) magnitude
         && Num.ltb (nth (i + 1) magnitudes 0) magnitude
      then [fillRect (x + barWidth / 2 - 1) (y - 4) 2 4 (Solid White)]
      else []).

Definition drawFrequencyBars (magnitudes : list Q) : list cmd :=
  flat_map (frequencyBar magnitudes) (seq 0 (length magnitudes)).

End Bars.

End Entry.

(** ** main.ts (microphone entry point) *)

Module MainTs.
Import Canvas HeatMap.

Definition barsMax := Entry.barsMax 1.
Definition drawFrequencyBars := Entry.drawFrequencyBars 1.

(** The nested maximum loop of [drawSpectrogram] followed by
    [Math.max(maxMagnitude, 1)]. *)
Definition spectrogramMax (fftHistory : list (list Q)) : Q :=
  Qmax (fold_left (fun m row => Num.maxLoop m row) fftHistory 0) 1.

Definition drawSpectrogram (cv : canvas) (fftHistory : list (list Q))
  : list cmd :=
  let historyCount := length fftHistory in
  let barWidth := width cv / Num.ofNat History.MAX_HISTORY in
  let barHeight := height cv / 256 in
  let maxMagnitude := spectrogramMax fftHistory in
  flat_map
    (fun h =>
       let x := width cv - (Num.ofNat historyCount - Num.ofNat h) * barWidth in
       let magnitudes := nth h fftHistory [] in
       map (fun i =>
              let y := height cv - (Num.ofNat i + 1) * barHeight in
              fillRect x y barWidth barHeight
                (Solid (getColor (nth i magnitudes 0) maxMagnitude)))
           (seq 0 (length magnitudes)))
    (seq 0 historyCount).

End MainTs.

(** ** The simulated-source entry point: bars, and the interval timer
    with pause and resume *)

Module Simulated.

Definition barsMax := Entry.barsMax 0.1.
Definition drawFrequencyBars := Entry.drawFrequencyBars 0.1.

Section Pipeline.

(** The output of [generateMockFFTData] (it reads the clock and
    [Math.random], so it is an input of the tick), the frame computed
    from it by the loop of [processFFTData], and the canvas. *)
Variables FFTOutput Frame Screen : Type.
Variable magnitudesOf : FFTOutput -> Frame.
Variable drawVisualization : list Frame -> Frame -> Screen.

Record AnalysisState : Type :=
  { _interval : option nat; _isPaused : bool }.

(** The page: the [analysisState] object, the intervals the window
    currently schedules with the handle [setInterval] hands out next,
    [fftHistory] and the canvas. *)
Record Page : Type :=
  { analysisState : AnalysisState;
    intervals : list nat;
    nextHandle : nat;
    fftHistory : list Frame;
    screen : Screen }.

Definition isRunning (a : AnalysisState) : bool :=
  match _interval a with Some _ => true | None => false end.

Definition isPaused (a : AnalysisState) : bool := _isPaused a.

Definition processFFTData (fftOutput : FFTOutput) (p : Page) : Page :=
  let magnitudes := magnitudesOf fftOutput in
  let history := History.record History.MAX_HISTORY (fftHistory p) magnitudes in
  {| analysisState := analysisState p;
     intervals := intervals p;
     nextHandle := nextHandle p;
     fftHistory := history;
     screen := drawVisualization history magnitudes |}.

(** The callback given to [setInterval]. *)
Definition onInterval (fftOutput : FFTOutput) (p : Page) : Page :=
  if negb (_isPaused (analysisState p))
  then processFFTData fftOutput p
  else p.

Definition start (p : Page) : Page :=
  if isRunning (analysisState p) then p
  else
    {| analysisState :=
         {| _interval := Some (nextHandle p); _isPaused := false |};
       intervals := nextHandle p :: intervals p;
       nextHandle := S (nextHandle p);
       fftHistory := fftHistory p;
       screen := screen p |}.

Definition stop (p : Page) : Page :=
  {| analysisState := {| _interval := None; _isPaused := false |};
     intervals :=
       match _interval (analysisState p) with
       | Some h => remove Nat.eq_dec h (intervals p)
       | None => intervals p
       end;
     nextHandle := nextHandle p;
     fftHistory := fftHistory p;
     screen := screen p |}.

Definition togglePause (p : Page) : Page :=
  {| analysisState :=
       {| _interval := _interval (analysisState p);
          _isPaused := negb (_isPaused (analysisState p)) |};
     intervals := intervals p;
     nextHandle := nextHandle p;
     fftHistory := fftHistory p;
     screen := screen p |}.

(** The window fires the interval with handle [h]: the callback runs
    when that interval is still scheduled. *)
Definition fire (h : nat) (p : Page) (fftOutput : FFTOutput) : Page :=
  if existsb (Nat.eqb h) (intervals p) then onInterval fftOutput p else p.

(** A run of firings of [h], one generated FFT output each. *)
Definition fireAll (h : nat) (p : Page) (outputs : list FFTOutput) : Page :=
  fold_left (fire h) outputs p.

End Pipeline.

Arguments analysisState {Frame Screen} _.
Arguments intervals {Frame Screen} _.
Arguments nextHandle {Frame Screen} _.
Arguments fftHistory {Frame Screen} _.
Arguments screen {Frame Screen} _.
Arguments processFFTData {FFTOutput Frame Screen} _ _ _ _.
Arguments onInterval {FFTOutput Frame Screen} _ _ _ _.
Arguments start {Frame Screen} _.
Arguments stop {Frame Screen} _.
Arguments togglePause {Frame Screen} _.
Arguments fire {FFTOutput Frame Screen} _ _ _ _ _.
Arguments fireAll {FFTOutput Frame Screen} _ _ _ _ _.

End Simulated.

(** ** Rectangles and the canvas bounds *)

Module Geometry.
Import Canvas.

(** A filled rectangle lies inside the surface; other calls are not
    constrained. *)
Definition inside (cv : canvas) (c : cmd) : Prop :=
  match c with
  | fillRect x y w h _ =>
      0 <= x /\ x + w <= width cv /\ 0 <= y /\ y + h <= height cv
  | _ => True
  end.

(** The rectangles filled with the marker colour ["white"] of the two
    entry points. *)
Definition markers (screen : list cmd) : list cmd :=
  filter (fun c =>
            match c with
            | fillRect _ _ _ _ (Solid White) => true
            | _ => false
            end) screen.

(** The vertices of the first path of a display list: the [moveTo]
    and [lineTo] calls issued before the first [stroke]. *)
Fixpoint firstPath (screen : list cmd) : list (option Q * Q) :=
  match screen with
  | [] => []
  | stroke _ _ :: _ => []
  | moveTo x y :: rest => (x, y) :: firstPath rest
  | lineTo x y :: rest => (x, y) :: firstPath rest
  | _ :: rest => firstPath rest
  end.

(** The peak arrays of a Vue renderer are in step with each other,
    every held peak is a height on a canvas of height [h], and no hold
    counter exceeds [PEAK_HOLD_TIME]. *)
Definition peaksOnCanvas (h : Q) (peaks : list Q) (holds : list nat) : Prop :=
  length holds = length peaks
  /\ Forall (fun p => 0 <= p /\ p <= h) peaks
  /\ Forall (fun k => (k <= PeakTracker.PEAK_HOLD_TIME)%nat) holds.

End Geometry.

(** ** Spectrogram.vue: [resizeCanvas] *)

Module SpectrogramResize.
Import Spectrogram.

(** [canvasCtx.createImageData(width, height)]: transparent black. *)
Definition createImageData (width height : nat) : ImageData :=
  repeat (repeat (0, 0, 0, 0)%Z width) height.

(** Setting the canvas size clears the canvas; the image buffer is
    replaced by a new one and [draw] runs. *)
Definition resizeCanvas (width height : nat) (props : Props) (st : State)
  : State :=
  let blank := createImageData width height in
  draw props {| imageData := blank; screen := blank |}.

End SpectrogramResize.

(** ** The simulated-source entry point: [drawSpectrogram]

    This copy does not floor the maximum, so [getColor] can be called
    with [max = 0].  [ratio] follows the division of JavaScript there:
    [0 / 0] is [NaN] ([None]), which every comparison and
    [Math.min]/[Math.max] hand on, a positive magnitude gives
    [Infinity], clamped to 1, and a negative one [-Infinity], clamped
    to 0.  A [NaN] ratio takes the last branch of [getColor] and yields
    the string ["rgb(255, 0, NaN)"], which is not a colour: [None]. *)

Module SimulatedSpectrogram.
Import Canvas HeatMap.

Definition ratio (magnitude max : Q) : option Q :=
  if Qeq_bool max 0 then
    match magnitude ?= 0 with
    | Eq => None
    | Gt => Some 1
    | Lt => Some 0
    end
  else Some (ratioOf magnitude max).

Definition getColor (magnitude max : Q) : option color :=
  option_map heat (ratio magnitude max).

(** The nested maximum loop, starting from 0. *)
Definition spectrogramMax (fftHistory : list (list Q)) : Q :=
  fold_left (fun m row => Num.maxLoop m row) fftHistory 0.

(** One [ctx.fillStyle = color; ctx.fillRect(x, y, barWidth,
    barHeight)]. *)
Record fillCall : Type :=
  { fillStyle : option color; x : Q; y : Q; w : Q; h : Q }.

Definition drawSpectrogram (cv : canvas) (fftHistory : list (list Q))
  : list fillCall :=
  let historyCount := length fftHistory in
  let barWidth := width cv / Num.ofNat History.MAX_HISTORY in
  let barHeight := height cv / 256 in
  let maxMagnitude := spectrogramMax fftHistory in
  flat_map
    (fun h =>
       let x := width cv - (Num.ofNat historyCount - Num.ofNat h) * barWidth in
       let magnitudes := nth h fftHistory [] in
       map (fun i =>
              let y := height cv - (Num.ofNat i + 1) * barHeight in
              {| fillStyle := getColor (nth i magnitudes 0) maxMagnitude;
                 x := x; y := y; w := barWidth; h := barHeight |})
           (seq 0 (length magnitudes)))
    (seq 0 historyCount).

End SimulatedSpectrogram.

(** ** The entry points: [drawLineGraph]

    The same text in main.ts and in the simulated-source entry point
    except for the constant that floors the maximum, the section
    variable [minimum] (1 and 0.1). *)

Module EntryLineGraph.
Import Canvas.

(** The calls [drawLineGraph] issues.  The y coordinate of a [moveTo]
    is [None] when it is [NaN]; [Arc x y radius] is the full circle
    [ctx.arc(x, y, radius, 0, Math.PI * 2)]. *)
Inductive call : Type :=
| BeginPath
| MoveTo (x : Q) (y : option Q)
| LineTo (x y : Q)
| ClosePath
| Fill (fillStyle : style)
| Stroke (strokeStyle : style) (lineWidth : Q)
| Arc (x y radius : Q).

Section Graph.
Variable minimum : Q.
Variable cv : canvas.
Variable showPeaksChecked : bool.

Definition graphMax (magnitudes : list Q) : Q :=
  Qmax (Num.maxLoop 0 magnitudes) minimum.

(** [(i / pointCount) * width] and
    [height - (magnitudes[i] / maxMagnitude) * height]. *)
Definition pointX (magnitudes : list Q) (i : nat) : Q :=
  Num.ofNat i / Num.ofNat (length magnitudes) * width cv.

Definition pointY (magnitudes : list Q) (i : nat) : Q :=
  height cv - nth i magnitudes 0 / graphMax magnitudes * height cv.

Definition gradient : style :=
  LinearGradient 0 0 0 (height cv)
    [(0, Rgba 255 64 64 0.8); (0.5, Rgba 255 128 0 0.5);
     (1, Rgba 0 64 255 0.1)].

(** The body of the marker loop at index [i]. *)
Definition marker (magnitudes : list Q) (i : nat) : list call :=
  if Num.ltb (nth (i - 1) magnitudes 0) (nth i magnitudes 0)
     && Num.ltb (nth (i + 1) magnitudes 0) (nth i magnitudes 0)
  then [BeginPath; Arc (pointX magnitudes i) (pointY magnitudes i) 3;
        Fill (Solid White)]
  else [].

Definition drawLineGraph (magnitudes : list Q) : list call :=
  let pointCount := length magnitudes in
  [BeginPath; MoveTo 0 (Some (height cv))]
  ++ map (fun i => LineTo (pointX magnitudes i) (pointY magnitudes i))
       (seq 0 pointCount)
  ++ [LineTo (width cv) (height cv); ClosePath; Fill gradient; BeginPath;
      MoveTo 0 (match magnitudes with
                | [] => None
                | _ :: _ => Some (pointY magnitudes 0)
                end)]
  ++ map (fun i => LineTo (pointX magnitudes i) (pointY magnitudes i))
       (seq 1 (pointCount - 1))
  ++ [Stroke (Solid (Rgb 255 255 255)) 2]
  ++ (if showPeaksChecked
      then flat_map (marker magnitudes) (seq 1 (pointCount - 2))
      else []).

(** The point a call names lies on the canvas. *)
Definition onCanvas (c : call) : Prop :=
  match c with
  | MoveTo x (Some y) | LineTo x y | Arc x y _ =>
      0 <= x /\ x <= width cv /\ 0 <= y /\ y <= height cv
  | MoveTo _ None => False
  | _ => True
  end.

End Graph.

End EntryLineGraph.

(** ** The simulated-source entry point: events of the page *)

Module SimulatedEvents.
Import Simulated.

Section Events.
Variables FFTOutput Frame Screen : Type.
Variable magnitudesOf : FFTOutput -> Frame.
Variable drawVisualization : list Frame -> Frame -> Screen.

(** The canvas after [ctx.clearRect(0, 0, canvas.width,
    canvas.height)]. *)
Variable cleared : Screen.

(** The click handler [startAnalysis] of the button.  [validUrl] tells
    whether the text field holds a URL from which a video id is
    extracted.  The button is disabled while the handler waits, and no
    interval is scheduled then, so the handler is one step. *)
Definition startAnalysis (validUrl : bool) (p : Page Frame Screen)
  : Page Frame Screen :=
  if negb validUrl then p
  else if isRunning (analysisState p) then togglePause p
  else
    start {| analysisState := analysisState p;
             intervals := intervals p;
             nextHandle := nextHandle p;
             fftHistory := [];
             screen := cleared |}.

(** The [change] handlers of the three controls:
    [if (fftHistory.length > 0)
       drawVisualization(fftHistory[fftHistory.length - 1])]. *)
Definition onControlChange (p : Page Frame Screen) : Page Frame Screen :=
  match rev (fftHistory p) with
  | [] => p
  | newest :: _ =>
      {| analysisState := analysisState p;
         intervals := intervals p;
         nextHandle := nextHandle p;
         fftHistory := fftHistory p;
         screen := drawVisualization (fftHistory p) newest |}
  end.

(** What can happen to the page: a click on the button, the
    [beforeunload] handler ([analysisState.stop()]), a firing of an
    interval handle, a change of one of the controls. *)
Inductive event : Type :=
| Click (validUrl : bool)
| BeforeUnload
| Fire (h : nat) (fftOutput : FFTOutput)
| ControlChange.

Definition step (p : Page Frame Screen) (e : event) : Page Frame Screen :=
  match e with
  | Click validUrl => startAnalysis validUrl p
  | BeforeUnload => stop p
  | Fire h fftOutput => fire magnitudesOf drawVisualization h p fftOutput
  | ControlChange => onControlChange p
  end.

Definition run (p : Page Frame Screen) (trace : list event)
  : Page Frame Screen :=
  fold_left step trace p.

(** The page as the script leaves it when it has loaded. *)
Definition loaded (blank : Screen) : Page Frame Screen :=
  {| analysisState := {| _interval := None; _isPaused := false |};
     intervals := [];
     nextHandle := 1;
     fftHistory := [];
     screen := blank |}.

End Events.

Arguments startAnalysis {Frame Screen} _ _ _.
Arguments onControlChange {Frame Screen} _ _.
Arguments Click {FFTOutput} _.
Arguments BeforeUnload {FFTOutput}.
Arguments Fire {FFTOutput} _ _.
Arguments ControlChange {FFTOutput}.
Arguments step {FFTOutput Frame Screen} _ _ _ _ _.
Arguments run {FFTOutput Frame Screen} _ _ _ _ _.
Arguments loaded {Frame Screen} _.

End SimulatedEvents.

(** ** AudioAnalyzer.vue: the analysis loop

    [requestAnimationFrame] hands out a handle and runs the callback
    once unless the handle is cancelled first; [scheduled] holds the
    handles still waiting.  The bytes the analyser node delivers are an
    input of every run of [processAudioData]; whether the microphone
    is granted is an input of [toggleAnalysis]. *)

Module Analyzer.

Record State : Type :=
  { isAnalyzing : bool;
    isLoading : bool;
    logScaleOption : bool;
    analyserNode : bool;
    animationFrame : option nat;
    scheduled : list nat;
    nextFrame : nat;
    fftData : list R;
    fftHistory : list (list R) }.

Definition processAudioData (frequencyData : list byte) (st : State) : State :=
  if negb (analyserNode st) then st
  else
    let magnitudes :=
      Magnitude.processAudioData (logScaleOption st) frequencyData in
    {| isAnalyzing := isAnalyzing st;
       isLoading := isLoading st;
       logScaleOption := logScaleOption st;
       analyserNode := analyserNode st;
       animationFrame := animationFrame st;
       scheduled := scheduled st;
       nextFrame := nextFrame st;
       fftData := magnitudes;
       fftHistory :=
         History.record History.MAX_HISTORY (fftHistory st) magnitudes |}.

(** The closure [loop] of [startAnalysis]. *)
Definition loop (frequencyData : list byte) (st : State) : State :=
  if negb (isAnalyzing st) then st
  else
    let st' := processAudioData frequencyData st in
    {| isAnalyzing := isAnalyzing st';
       isLoading := isLoading st';
       logScaleOption := logScaleOption st';
       analyserNode := analyserNode st';
       animationFrame := Some (nextFrame st');
       scheduled := nextFrame st' :: scheduled st';
       nextFrame := S (nextFrame st');
       fftData := fftData st';
       fftHistory := fftHistory st' |}.

Definition startAnalysis (frequencyData : list byte) (st : State) : State :=
  if isAnalyzing st then st
  else
    loop frequencyData
      {| isAnalyzing := true;
         isLoading := isLoading st;
         logScaleOption := logScaleOption st;
         analyserNode := analyserNode st;
         animationFrame := animationFrame st;
         scheduled := scheduled st;
         nextFrame := nextFrame st;
         fftData := fftData st;
         fftHistory := fftHistory st |}.

Definition stopAnalysis (st : State) : State :=
  if negb (isAnalyzing st) then st
  else
    {| isAnalyzing := false;
       isLoading := isLoading st;
       logScaleOption := logScaleOption st;
       analyserNode := analyserNode st;
       animationFrame := None;
       scheduled :=
         match animationFrame st with
         | Some h => remove Nat.eq_dec h (scheduled st)
         | None => scheduled st
         end;
       nextFrame := nextFrame st;
       fftData := fftData st;
       fftHistory := fftHistory st |}.

(** [toggleAnalysis]: stop when running; otherwise reset the data,
    ask for the microphone and, when it is granted, create the analyser
    node and start. *)
Definition toggleAnalysis (granted : bool) (frequencyData : list byte)
  (st : State) : State :=
  if isAnalyzing st then stopAnalysis st
  else if granted then
    startAnalysis frequencyData
      {| isAnalyzing := isAnalyzing st;
         isLoading := false;
         logScaleOption := logScaleOption st;
         analyserNode := true;
         animationFrame := animationFrame st;
         scheduled := scheduled st;
         nextFrame := nextFrame st;
         fftData := [];
         fftHistory := [] |}
  else
    {| isAnalyzing := isAnalyzing st;
       isLoading := false;
       logScaleOption := logScaleOption st;
       analyserNode := analyserNode st;
       animationFrame := animationFrame st;
       scheduled := scheduled st;
       nextFrame := nextFrame st;
       fftData := [];
       fftHistory := [] |}.

(** The browser runs the callback of handle [h] if it is still
    scheduled. *)
Definition onAnimationFrame (h : nat) (frequencyData : list byte) (st : State)
  : State :=
  if existsb (Nat.eqb h) (scheduled st) then
    loop frequencyData
      {| isAnalyzing := isAnalyzing st;
         isLoading := isLoading st;
         logScaleOption := logScaleOption st;
         analyserNode := analyserNode st;
         animationFrame := animationFrame st;
         scheduled := remove Nat.eq_dec h (scheduled st);
         nextFrame := nextFrame st;
         fftData := fftData st;
         fftHistory := fftHistory st |}
  else st.

(** [onUnmounted]: [stopAnalysis(); cleanupAudio();]. *)
Definition onUnmounted (st : State) : State :=
  let st' := stopAnalysis st in
  {| isAnalyzing := isAnalyzing st';
     isLoading := isLoading st';
     logScaleOption := logScaleOption st';
     analyserNode := false;
     animationFrame := animationFrame st';
     scheduled := scheduled st';
     nextFrame := nextFrame st';
     fftData := fftData st';
     fftHistory := fftHistory st' |}.

(** The [v-model] of the log-scale checkbox. *)
Definition setLogScale (b : bool) (st : State) : State :=
  {| isAnalyzing := isAnalyzing st;
     isLoading := isLoading st;
     logScaleOption := b;
     analyserNode := analyserNode st;
     animationFrame := animationFrame st;
     scheduled := scheduled st;
     nextFrame := nextFrame st;
     fftData := fftData st;
     fftHistory := fftHistory st |}.

Inductive event : Type :=
| Toggle (granted : bool) (frequencyData : list byte)
| AnimationFrame (h : nat) (frequencyData : list byte)
| LogScale (b : bool)
| Unmounted.

Definition step (st : State) (e : event) : State :=
  match e with
  | Toggle granted frequencyData => toggleAnalysis granted frequencyData st
  | AnimationFrame h frequencyData => onAnimationFrame h frequencyData st
  | LogScale b => setLogScale b st
  | Unmounted => onUnmounted st
  end.

Definition run (st : State) (trace : list event) : State :=
  fold_left step trace st.

(** The state [setup] creates. *)
Definition mounted : State :=
  {| isAnalyzing := false;
     isLoading := false;
     logScaleOption := true;
     analyserNode := false;
     animationFrame := None;
     scheduled := [];
     nextFrame := 1;
     fftData := [];
     fftHistory := [] |}.

(** The loop has exactly one callback pending while the analysis
    runs, the one [animationFrame] remembers, and none otherwise. *)
Definition oneFramePending (st : State) : Prop :=
  (isAnalyzing st = true ->
   analyserNode st = true
   /\ exists h, animationFrame st = Some h /\ scheduled st = [h]
                /\ (h < nextFrame st)%nat)
  /\ (isAnalyzing st = false -> animationFrame st = None /\ scheduled st = []).

(** The data handed to the visualisers: a bounded history of bounded
    frames of magnitudes between 0 and 255, whose newest frame is
    [fftData]. *)
Definition dataInRange (st : State) : Prop :=
  (length (fftHistory st) <= History.MAX_HISTORY)%nat
  /\ Forall (fun frame => (length frame <= 256)%nat
                          /\ Forall (fun m => (0 <= m <= 255)%R) frame)
       (fftHistory st)
  /\ fftData st = last (fftHistory st) [].

End Analyzer.
(** * Properties *)

(** ** Comparison and maxima *)

Lemma ltb_lt (a b : Q) : Num.ltb a b = true <-> a < b.
Proof.
  unfold Num.ltb. rewrite Qlt_alt.
  destruct (a ?= b); split; intro H; congruence.
Qed.

Lemma ltb_ge (a b : Q) : Num.ltb a b = false <-> b <= a.
Proof.
  rewrite <- Bool.not_true_iff_false, ltb_lt.
  split; [apply Qnot_lt_le | apply Qle_not_lt].
Qed.

(** [Math.max] returns one of its arguments. *)
Lemma Qmax_cases (a b : Q) : Qmax a b = a \/ Qmax a b = b.
Proof.
  unfold Qmax, GenericMinMax.gmax. destruct (a ?= b); auto.
Qed.

Lemma maxWith_floor (floor : Q) (xs : list Q) : floor <= Num.maxWith floor xs.
Proof.
  induction xs as [|x xs IH]; simpl.
  - apply Qle_refl.
  - eapply Qle_trans; [exact IH | apply Q.le_max_r].
Qed.

Lemma maxWith_upper (floor : Q) (xs : list Q) (x : Q) :
  In x xs -> x <= Num.maxWith floor xs.
Proof.
  induction xs as [|y xs IH]; simpl; [tauto|].
  intros [->|Hin].
  - apply Q.le_max_l.
  - eapply Qle_trans; [exact (IH Hin) | apply Q.le_max_r].
Qed.

Lemma maxWith_attained (floor : Q) (xs : list Q) :
  Num.maxWith floor xs = floor \/ In (Num.maxWith floor xs) xs.
Proof.
  induction xs as [|y xs IH]; simpl; [now left|].
  destruct (Qmax_cases y (Num.maxWith floor xs)) as [E|E]; rewrite E; tauto.
Qed.

Lemma maxLoop_init (init : Q) (xs : list Q) : init <= Num.maxLoop init xs.
Proof.
  unfold Num.maxLoop. revert init.
  induction xs as [|x xs IH]; intro init; simpl.
  - apply Qle_refl.
  - eapply Qle_trans; [apply Q.le_max_l | apply IH].
Qed.

Lemma maxLoop_upper (init : Q) (xs : list Q) (x : Q) :
  In x xs -> x <= Num.maxLoop init xs.
Proof.
  unfold Num.maxLoop. revert init.
  induction xs as [|y xs IH]; intro init; simpl; [tauto|].
  intros [->|Hin].
  - eapply Qle_trans; [apply Q.le_max_r | apply (maxLoop_init _ xs)].
  - apply IH, Hin.
Qed.

Lemma maxLoop_attained (init : Q) (xs : list Q) :
  Num.maxLoop init xs = init \/ In (Num.maxLoop init xs) xs.
Proof.
  unfold Num.maxLoop. revert init.
  induction xs as [|y xs IH]; intro init; simpl; [now left|].
  destruct (IH (Qmax init y)) as [E|Hin]; [|tauto].
  rewrite E. destruct (Qmax_cases init y) as [E'|E']; rewrite E'; tauto.
Qed.

(** The divisors of the renderers.  Every maximum that normalises a
    magnitude is at least its floor, and the floors in the code are
    positive, so the total division of [Q] is applied to a non-zero
    divisor wherever the renderers divide by a maximum. *)
Lemma normalisation_divisors (data : list Q) (history : list (list Q)) :
  1 <= SpectrumBars.maxValue data /\
  1 <= SpectrumLine.maxValue data /\
  1 <= Spectrogram.maxValue history /\
  1 <= MainTs.barsMax data /\
  1 <= MainTs.spectrogramMax history /\
  0.1 <= Simulated.barsMax data.
Proof.
  repeat split; try apply maxWith_floor; try apply Q.le_max_r.
  unfold Spectrogram.maxValue.
  assert (H : forall init,
             init <= fold_left
                       (fun m frame => Qmax m (Spectrogram.frameMax frame))
                       history init).
  { induction history as [|f history IH]; intro init; simpl.
    - apply Qle_refl.
    - eapply Qle_trans; [apply Q.le_max_l | apply IH]. }
  apply H.
Qed.

(** ** The frame history *)

Close Scope Q_scope.

Lemma tl_skipn {A : Type} (l : list A) (m : nat) :
  tl (skipn m l) = skipn (S m) l.
Proof.
  revert l; induction m as [|m IH]; intros [|x l]; simpl; auto.
Qed.

(** Recording one more frame slides the window of the last [cap]
    frames by one. *)
Lemma record_window {A : Type} (cap : nat) (l : list A) (x : A) :
  History.record cap (skipn (length l - cap) l) x
  = skipn (length (l ++ [x]) - cap) (l ++ [x]).
Proof.
  unfold History.record, History.push, History.shift.
  rewrite !length_app, length_skipn. simpl.
  destruct (Nat.ltb_spec cap (length l - (length l - cap) + 1)) as [Hlt|Hge].
  - assert (Hc : cap <= length l) by lia.
    replace (length l + 1 - cap) with (S (length l - cap)) by lia.
    rewrite skipn_app.
    replace (S (length l - cap) - length l) with (if Nat.eqb cap 0 then 1 else 0)
      by (destruct (Nat.eqb_spec cap 0); lia).
    destruct (Nat.eqb_spec cap 0) as [->|Hn].
    + rewrite Nat.sub_0_r, skipn_all, (skipn_all2 l) by lia. reflexivity.
    + rewrite <- tl_skipn. cbn [skipn].
      destruct (skipn (length l - cap) l) eqn:E; simpl; auto.
      apply (f_equal (@length A)) in E. rewrite length_skipn in E. simpl in E. lia.
  - replace (length l - cap) with 0 by lia.
    replace (length l + 1 - cap) with 0 by lia. reflexivity.
Qed.

Lemma recordAll_window {A : Type} (cap : nat) (frames : list A) :
  History.recordAll cap frames = skipn (length frames - cap) frames.
Proof.
  unfold History.recordAll.
  induction frames as [|x l IH] using rev_ind; [reflexivity|].
  rewrite fold_left_app. simpl. rewrite IH. apply record_window.
Qed.

Lemma record_bounded {A : Type} (cap : nat) (h : list A) (x : A) :
  length h <= cap -> length (History.record cap h x) <= cap.
Proof.
  intro Hle. unfold History.record, History.push, History.shift.
  destruct (Nat.ltb_spec cap (length (h ++ [x]))) as [Hlt|Hge]; [|exact Hge].
  rewrite length_app in Hlt. simpl in Hlt.
  destruct h as [|y h]; simpl in *; [lia|].
  rewrite length_app. simpl. lia.
Qed.

(** C2. The history never holds more than its capacity [C] (200 in the
    code): one recorded frame keeps a buffer within [C], so does every
    run of recorded frames from the empty buffer, and after [C + k]
    frames the buffer is exactly the last [C] of them, oldest first. *)
Theorem history_keeps_last_frames (A : Type) (C : nat) :
  (forall (h : list A) (x : A),
      length h <= C -> length (History.record C h x) <= C) /\
  (forall frames : list A, length (History.recordAll C frames) <= C) /\
  (forall (k : nat) (frames : list A),
      length frames = C + k -> History.recordAll C frames = skipn k frames).
Proof.
  split; [apply record_bounded|]. split.
  - intro frames. rewrite recordAll_window, length_skipn. lia.
  - intros k frames Hlen. rewrite recordAll_window.
    f_equal. lia.
Qed.

Lemma history_keeps_last_frames_witness :
  length [[10; 20; 30]; [40; 50; 60]; [70; 80; 90]] = 2 + 1 /\
  History.recordAll 2 [[10; 20; 30]; [40; 50; 60]; [70; 80; 90]]
  = [[40; 50; 60]; [70; 80; 90]].
Proof.
  split; [reflexivity|].
  apply (proj2 (proj2 (history_keeps_last_frames (list nat) 2)) 1).
  reflexivity.
Defined.

(** The default capacity is the constant of the source. *)
Example history_default_capacity :
  length (History.recordAll History.MAX_HISTORY (seq 0 500)) = 200
  /\ hd 0 (History.recordAll History.MAX_HISTORY (seq 0 500)) = 300.
Proof. split; reflexivity. Qed.

Open Scope Q_scope.

(** ** The peak hold of one bin *)

Section PeakHold.
Import PeakTracker.

Lemma updatePeak_raise (h peak : Q) (hold : nat) :
  peak < h -> updatePeak h peak hold = (h, PEAK_HOLD_TIME).
Proof.
  intro Hlt. unfold updatePeak.
  now rewrite (proj2 (ltb_lt peak h) Hlt).
Qed.

Lemma updatePeak_hold (h peak : Q) (hold : nat) :
  h <= peak -> updatePeak h peak (S hold) = (peak, hold).
Proof.
  intro Hle. unfold updatePeak.
  now rewrite (proj2 (ltb_ge peak h) Hle).
Qed.

Lemma updatePeak_decay (h peak : Q) :
  h <= peak -> updatePeak h peak 0 = (peak * PEAK_FALL_SPEED, 0%nat).
Proof.
  intro Hle. unfold updatePeak.
  now rewrite (proj2 (ltb_ge peak h) Hle).
Qed.

(** Without a higher input the stored peak does not grow. *)
Lemma updatePeak_no_rise (h peak : Q) (hold : nat) :
  0 <= peak -> h <= peak -> fst (updatePeak h peak hold) <= peak.
Proof.
  intros Hp Hle. destruct hold as [|hold].
  - rewrite updatePeak_decay by exact Hle. simpl.
    unfold PEAK_FALL_SPEED. Lqa.lra.
  - rewrite updatePeak_hold by exact Hle. apply Qle_refl.
Qed.

Lemma feedAll_cons (peak : Q) (hold : nat) (x : Q) (xs : list Q) :
  feedAll (peak, hold) (x :: xs) = feedAll (updatePeak x peak hold) xs.
Proof. reflexivity. Qed.

(** While no height exceeds it, a held peak only counts its hold frames
    down. *)
Lemma quiet_holds (p : Q) (heights : list Q) :
  Forall (fun h => h <= p) heights ->
  forall n, (length heights <= n)%nat ->
  feedAll (p, n) heights = (p, (n - length heights)%nat).
Proof.
  induction 1 as [|h heights Hh _ IH]; intros n Hle; cbn [length] in *.
  - now rewrite Nat.sub_0_r.
  - destruct n as [|n]; [lia|].
    rewrite feedAll_cons, updatePeak_hold by exact Hh.
    apply IH. lia.
Qed.

Lemma fall_speed_power (j : nat) :
  PEAK_FALL_SPEED ^ Z.of_nat (S j)
  == PEAK_FALL_SPEED * PEAK_FALL_SPEED ^ Z.of_nat j.
Proof.
  rewrite Nat2Z.inj_succ, <- Z.add_1_l.
  rewrite Qpower_plus by (unfold PEAK_FALL_SPEED; discriminate).
  reflexivity.
Qed.

Lemma fall_speed_power_pos (j : nat) : 0 < PEAK_FALL_SPEED ^ Z.of_nat j.
Proof.
  induction j as [|j IH]; [reflexivity|].
  rewrite fall_speed_power. unfold PEAK_FALL_SPEED in *. Lqa.nra.
Qed.

(** Once the hold frames are used up, each silent frame multiplies the
    peak by the fall speed. *)
Lemma silence_decays (heights : list Q) :
  Forall (fun h => h <= 0) heights ->
  forall p, 0 <= p ->
  fst (feedAll (p, 0%nat) heights)
  == p * PEAK_FALL_SPEED ^ Z.of_nat (length heights)
  /\ snd (feedAll (p, 0%nat) heights) = 0%nat.
Proof.
  induction 1 as [|h heights Hh _ IH]; intros p Hp.
  - simpl. split; [Lqa.lra | reflexivity].
  - rewrite feedAll_cons, updatePeak_decay by Lqa.lra.
    assert (Hp' : 0 <= p * PEAK_FALL_SPEED)
      by (unfold PEAK_FALL_SPEED; Lqa.lra).
    destruct (IH _ Hp') as [Hv Hz]. split; [|exact Hz].
    cbn [length]. rewrite Hv, fall_speed_power. ring.
Qed.

Lemma feedAll_app (bin : Q * nat) (xs ys : list Q) :
  feedAll bin (xs ++ ys) = feedAll (feedAll bin xs) ys.
Proof. apply fold_left_app. Qed.

(** C3.  A bin with fresh state sees a spike of height [s] and then
    silence: frame [t] after the spike has the height [silence t],
    which is zero.  After the spike the peak is [s] with
    [PEAK_HOLD_TIME] hold frames; each of the next [PEAK_HOLD_TIME]
    silent frames leaves the peak at [s] and uses one hold frame; from
    then on every silent frame multiplies the peak by
    [PEAK_FALL_SPEED], so the peak strictly falls; and in general the
    stored peak never grows on a frame whose height does not exceed
    it. *)
Theorem spike_held_then_decays (s : Q) (silence : nat -> Q)
  (Hs : 0 < s) (Hsilence : forall t, silence t == 0) :
  let binAfter t := feedAll (0, 0%nat) (s :: map silence (seq 0 t)) in
  (forall t, (t <= PEAK_HOLD_TIME)%nat ->
     binAfter t = (s, (PEAK_HOLD_TIME - t)%nat)) /\
  (forall j,
     fst (binAfter (PEAK_HOLD_TIME + j)%nat) == s * PEAK_FALL_SPEED ^ Z.of_nat j
     /\ snd (binAfter (PEAK_HOLD_TIME + j)%nat) = 0%nat) /\
  (forall j,
     fst (binAfter (PEAK_HOLD_TIME + S j)%nat)
     == PEAK_FALL_SPEED * fst (binAfter (PEAK_HOLD_TIME + j)%nat)
     /\ fst (binAfter (PEAK_HOLD_TIME + S j)%nat)
        < fst (binAfter (PEAK_HOLD_TIME + j)%nat)) /\
  (forall h peak hold,
     0 <= peak -> h <= peak -> fst (updatePeak h peak hold) <= peak).
Proof.
  intro binAfter.
  assert (Hs' : 0 <= s) by Lqa.lra.
  assert (Hquiet : forall a t bound,
             0 <= bound -> Forall (fun h => h <= bound) (map silence (seq a t))).
  { intros a t bound Hb. apply Forall_map, Forall_forall. intros x _.
    rewrite Hsilence. exact Hb. }
  assert (Hspike : forall t,
             binAfter t = feedAll (s, PEAK_HOLD_TIME) (map silence (seq 0 t))).
  { intro t. unfold binAfter.
    now rewrite feedAll_cons, updatePeak_raise by exact Hs. }
  assert (Hfall : forall j,
             fst (binAfter (PEAK_HOLD_TIME + j)%nat)
             == s * PEAK_FALL_SPEED ^ Z.of_nat j
             /\ snd (binAfter (PEAK_HOLD_TIME + j)%nat) = 0%nat).
  { intro j. rewrite Hspike, seq_app, map_app, feedAll_app.
    rewrite quiet_holds
      by (apply Hquiet, Hs' || (rewrite length_map, length_seq; lia)).
    rewrite length_map, length_seq, Nat.sub_diag.
    destruct (silence_decays (map silence (seq (0 + PEAK_HOLD_TIME) j))
                (Hquiet _ _ 0 (Qle_refl 0)) s Hs') as [Hv Hz].
    rewrite length_map, length_seq in Hv. split; assumption. }
  split; [|split; [exact Hfall|split]].
  - intros t Ht. rewrite Hspike.
    rewrite quiet_holds
      by (apply Hquiet, Hs' || (rewrite length_map, length_seq; lia)).
    now rewrite length_map, length_seq.
  - intro j.
    destruct (Hfall (S j)) as [HS _]. destruct (Hfall j) as [Hj _].
    pose proof (fall_speed_power_pos j) as Hpos.
    assert (E : fst (binAfter (PEAK_HOLD_TIME + S j)%nat)
                == PEAK_FALL_SPEED * fst (binAfter (PEAK_HOLD_TIME + j)%nat)).
    { rewrite HS, Hj, fall_speed_power. ring. }
    split; [exact E|].
    rewrite E, Hj. unfold PEAK_FALL_SPEED in *. Lqa.nra.
  - intros h peak hold. apply updatePeak_no_rise.
Qed.

Lemma spike_held_then_decays_witness :
  0 < 100 /\
  (let binAfter t := feedAll (0, 0%nat) (100 :: map (fun _ => 0) (seq 0 t)) in
   binAfter 30%nat = (100, 0%nat) /\ fst (binAfter 31%nat) == 80).
Proof.
  split; [reflexivity|].
  pose proof (spike_held_then_decays 100 (fun _ => 0) eq_refl
                (fun _ => Qeq_refl 0)) as [Hhold [Hfall _]].
  split.
  - apply (Hhold 30%nat). apply Nat.le_refl.
  - destruct (Hfall 1%nat) as [Hv _]. rewrite Hv. reflexivity.
Defined.

End PeakHold.

(** ** The peak arrays across draws *)

Section PeakArrays.
Import Canvas PeakTracker.

Lemma initPeaks_same (n : nat) (peaks : list Q) (holds : list nat) :
  length peaks = n -> initPeaks n peaks holds = (peaks, holds).
Proof.
  intro E. unfold initPeaks. now rewrite (proj2 (Nat.eqb_eq _ _) E).
Qed.

Lemma initPeaks_length (n : nat) (peaks : list Q) (holds : list nat) :
  length (fst (initPeaks n peaks holds)) = n.
Proof.
  unfold initPeaks. destruct (Nat.eqb_spec (length peaks) n) as [E|_]; simpl.
  - exact E.
  - apply repeat_length.
Qed.

(** A visible peak whose hold frames are not used up is unchanged by a
    second update with the same height. *)
Lemma updatePeak_settled (h peak : Q) (hold : nat) (p1 : Q) (h1 : nat) :
  updatePeak h peak hold = (p1, h1) -> (0 < h1)%nat ->
  exists h2, updatePeak h p1 h1 = (p1, h2).
Proof.
  unfold updatePeak at 1.
  destruct (Num.ltb peak h) eqn:Hcmp.
  - intros [= <- <-] _. exists (pred PEAK_HOLD_TIME).
    apply updatePeak_hold, Qle_refl.
  - destruct hold as [|hold]; intros [= <- <-] Hpos; [lia|].
    destruct hold as [|hold]; [lia|]. exists hold.
    apply updatePeak_hold, ltb_ge, Hcmp.
Qed.

(** *** SpectrumBars *)

Lemma bars_hidden cv n bw bs abw mx (data peaks : list Q) (holds : list nat) :
  forall i, exists cmds,
    SpectrumBars.bars cv false n bw bs abw mx i data peaks holds
    = (peaks, holds, cmds).
Proof.
  revert peaks holds.
  induction data as [|v data IH]; intros peaks holds i; [now eexists|].
  destruct peaks as [|p peaks]; [now eexists|].
  destruct holds as [|h holds]; [now eexists|].
  cbn [SpectrumBars.bars track].
  destruct (IH peaks holds (S i)) as [cmds ->]. now eexists.
Qed.

Lemma bars_length cv sp n bw bs abw mx (data peaks : list Q) (holds : list nat) :
  forall i ps hs cmds,
    SpectrumBars.bars cv sp n bw bs abw mx i data peaks holds = (ps, hs, cmds) ->
    length ps = length peaks.
Proof.
  revert peaks holds.
  induction data as [|v data IH]; intros peaks holds i ps hs cmds;
    [now intros [= <- _ _]|].
  destruct peaks as [|p peaks]; [now intros [= <- _ _]|].
  destruct holds as [|h holds]; [now intros [= <- _ _]|].
  cbn [SpectrumBars.bars].
  destruct (track sp _ p h) as [p' h'].
  destruct (SpectrumBars.bars cv sp n bw bs abw mx (S i) data peaks holds)
    as [[ps' hs'] cmds'] eqn:E.
  intros [= <- _ _]. simpl. f_equal. eapply IH, E.
Qed.

Lemma bars_settled cv n bw bs abw mx (data peaks : list Q) (holds : list nat) :
  forall i ps hs cmds,
    SpectrumBars.bars cv true n bw bs abw mx i data peaks holds = (ps, hs, cmds) ->
    Forall (fun h => (0 < h)%nat) hs ->
    exists hs',
      SpectrumBars.bars cv true n bw bs abw mx i data ps hs = (ps, hs', cmds).
Proof.
  revert peaks holds.
  induction data as [|v data IH]; intros peaks holds i ps hs cmds;
    [intros [= <- <- <-] _; now eexists|].
  destruct peaks as [|p peaks]; [intros [= <- <- <-] _; now eexists|].
  destruct holds as [|h holds]; [intros [= <- <- <-] _; now eexists|].
  cbn [SpectrumBars.bars track].
  destruct (updatePeak _ p h) as [p' h'] eqn:Eu.
  destruct (SpectrumBars.bars cv true n bw bs abw mx (S i) data peaks holds)
    as [[ps' hs'] cmds'] eqn:E.
  intros [= <- <- <-] Hpos. inversion Hpos as [|? ? Hh Hrest]; subst.
  destruct (updatePeak_settled _ _ _ _ _ Eu Hh) as [h2 ->].
  destruct (IH _ _ _ _ _ _ E Hrest) as [hs2 ->].
  now eexists.
Qed.

Lemma bars_draw_unfold cv props st v data :
  fftData props = v :: data ->
  SpectrumBars.draw cv props st =
  let dataLength := length (fftData props) in
  let barWidth := width cv / Num.ofNat dataLength in
  let barSpacing := Qmax 0 (barWidth * 0.1) in
  let actualBarWidth := barWidth - barSpacing in
  let '(peaks, holds) :=
    initPeaks dataLength (SpectrumBars.peakValues st)
      (SpectrumBars.peakHoldFrames st) in
  let '(peaks', holds', cmds) :=
    SpectrumBars.bars cv (showPeaks (options props)) dataLength barWidth
      barSpacing actualBarWidth (SpectrumBars.maxValue (fftData props)) 0
      (fftData props) peaks holds in
  {| SpectrumBars.peakValues := peaks';
     SpectrumBars.peakHoldFrames := holds';
     SpectrumBars.screen := cmds |}.
Proof.
  intro E. unfold SpectrumBars.draw. now rewrite E.
Qed.

Lemma bars_draw_hidden cv props st :
  showPeaks (options props) = false ->
  fftData props = [] \/
  length (fftData props) = length (SpectrumBars.peakValues st) ->
  SpectrumBars.peakValues (SpectrumBars.draw cv props st)
  = SpectrumBars.peakValues st
  /\ SpectrumBars.peakHoldFrames (SpectrumBars.draw cv props st)
     = SpectrumBars.peakHoldFrames st.
Proof.
  intros Hsp Hlen.
  destruct (fftData props) as [|v data] eqn:E.
  - unfold SpectrumBars.draw. rewrite E. tauto.
  - destruct Hlen as [Hlen|Hlen]; [discriminate|].
    rewrite (bars_draw_unfold _ _ _ _ _ E). cbv zeta.
    rewrite E, initPeaks_same, Hsp by (symmetry; exact Hlen).
    match goal with
    | |- context [SpectrumBars.bars ?c false ?n ?a ?b ?d ?m ?i ?l ?p ?h] =>
        destruct (bars_hidden c n a b d m l p h i) as [cmds ->]
    end.
    simpl. tauto.
Qed.

Lemma bars_draw_twice_hidden cv props st :
  showPeaks (options props) = false ->
  SpectrumBars.draw cv props (SpectrumBars.draw cv props st)
  = SpectrumBars.draw cv props st.
Proof.
  intro Hsp.
  destruct (fftData props) as [|v data] eqn:E.
  - unfold SpectrumBars.draw. now rewrite E.
  - rewrite !(bars_draw_unfold _ _ _ _ _ E). cbv zeta.
    rewrite Hsp.
    pose proof (initPeaks_length (length (fftData props))
                  (SpectrumBars.peakValues st)
                  (SpectrumBars.peakHoldFrames st)) as Hlen.
    destruct (initPeaks _ (SpectrumBars.peakValues st) _) as [peaks holds].
    simpl in Hlen.
    match goal with
    | |- context [SpectrumBars.bars ?c false ?n ?a ?b ?d ?m ?i ?l peaks holds] =>
        destruct (bars_hidden c n a b d m l peaks holds i) as [cmds Hb]
    end.
    rewrite Hb. cbn [SpectrumBars.peakValues SpectrumBars.peakHoldFrames].
    rewrite initPeaks_same by exact Hlen.
    now rewrite Hb.
Qed.

Lemma bars_draw_twice_held cv props st :
  showPeaks (options props) = true ->
  Forall (fun h => (0 < h)%nat)
    (SpectrumBars.peakHoldFrames (SpectrumBars.draw cv props st)) ->
  SpectrumBars.screen (SpectrumBars.draw cv props (SpectrumBars.draw cv props st))
  = SpectrumBars.screen (SpectrumBars.draw cv props st)
  /\ SpectrumBars.peakValues
       (SpectrumBars.draw cv props (SpectrumBars.draw cv props st))
     = SpectrumBars.peakValues (SpectrumBars.draw cv props st).
Proof.
  intro Hsp.
  destruct (fftData props) as [|v data] eqn:E.
  - unfold SpectrumBars.draw. rewrite E. tauto.
  - rewrite !(bars_draw_unfold _ _ _ _ _ E). cbv zeta.
    rewrite Hsp.
    pose proof (initPeaks_length (length (fftData props))
                  (SpectrumBars.peakValues st)
                  (SpectrumBars.peakHoldFrames st)) as Hlen.
    destruct (initPeaks _ (SpectrumBars.peakValues st) _) as [peaks holds].
    simpl in Hlen.
    match goal with
    | |- context [SpectrumBars.bars ?c true ?n ?a ?b ?d ?m ?i ?l peaks holds] =>
        destruct (SpectrumBars.bars c true n a b d m i l peaks holds)
          as [[ps hs] cmds] eqn:Hb
    end.
    cbn [SpectrumBars.peakValues SpectrumBars.peakHoldFrames].
    intro Hpos.
    rewrite initPeaks_same
      by (rewrite (bars_length _ _ _ _ _ _ _ _ _ _ _ _ _ _ Hb); exact Hlen).
    destruct (bars_settled _ _ _ _ _ _ _ _ _ _ _ _ _ Hb Hpos) as [hs' ->].
    simpl. tauto.
Qed.

(** *** SpectrumLine *)

Lemma line_hidden cv sp mx (data peaks : list Q) (holds : list nat) :
  forall i, exists cmds,
    SpectrumLine.line cv false sp mx i data peaks holds = (peaks, holds, cmds).
Proof.
  revert peaks holds.
  induction data as [|v data IH]; intros peaks holds i; [now eexists|].
  destruct peaks as [|p peaks]; [now eexists|].
  destruct holds as [|h holds]; [now eexists|].
  cbn [SpectrumLine.line track].
  destruct (IH peaks holds (S i)) as [cmds ->]. now eexists.
Qed.

Lemma line_length cv shown sp mx (data peaks : list Q) (holds : list nat) :
  forall i ps hs cmds,
    SpectrumLine.line cv shown sp mx i data peaks holds = (ps, hs, cmds) ->
    length ps = length peaks.
Proof.
  revert peaks holds.
  induction data as [|v data IH]; intros peaks holds i ps hs cmds;
    [now intros [= <- _ _]|].
  destruct peaks as [|p peaks]; [now intros [= <- _ _]|].
  destruct holds as [|h holds]; [now intros [= <- _ _]|].
  cbn [SpectrumLine.line].
  destruct (track shown _ p h) as [p' h'].
  destruct (SpectrumLine.line cv shown sp mx (S i) data peaks holds)
    as [[ps' hs'] cmds'] eqn:E.
  intros [= <- _ _]. simpl. f_equal. eapply IH, E.
Qed.

Lemma line_settled cv sp mx (data peaks : list Q) (holds : list nat) :
  forall i ps hs cmds,
    SpectrumLine.line cv true sp mx i data peaks holds = (ps, hs, cmds) ->
    Forall (fun h => (0 < h)%nat) hs ->
    exists hs', SpectrumLine.line cv true sp mx i data ps hs = (ps, hs', cmds).
Proof.
  revert peaks holds.
  induction data as [|v data IH]; intros peaks holds i ps hs cmds;
    [intros [= <- <- <-] _; now eexists|].
  destruct peaks as [|p peaks]; [intros [= <- <- <-] _; now eexists|].
  destruct holds as [|h holds]; [intros [= <- <- <-] _; now eexists|].
  cbn [SpectrumLine.line track].
  destruct (updatePeak _ p h) as [p' h'] eqn:Eu.
  destruct (SpectrumLine.line cv true sp mx (S i) data peaks holds)
    as [[ps' hs'] cmds'] eqn:E.
  intros [= <- <- <-] Hpos. inversion Hpos as [|? ? Hh Hrest]; subst.
  destruct (updatePeak_settled _ _ _ _ _ Eu Hh) as [h2 ->].
  destruct (IH _ _ _ _ _ _ E Hrest) as [hs2 ->].
  now eexists.
Qed.

Lemma line_draw_unfold cv props st v data :
  fftData props = v :: data ->
  SpectrumLine.draw cv props st =
  let dataLength := length (fftData props) in
  let spacing := SpectrumLine.pointSpacing cv dataLength in
  let '(peaks, holds) :=
    initPeaks dataLength (SpectrumLine.peakValues st)
      (SpectrumLine.peakHoldFrames st) in
  let '(peaks', holds', path) :=
    SpectrumLine.line cv (showPeaks (options props)) spacing
      (SpectrumLine.maxValue (fftData props)) 0 (fftData props) peaks holds in
  let overlay :=
    if showPeaks (options props)
    then beginPath :: SpectrumLine.peakPath cv spacing 0 peaks'
         ++ [stroke (Solid (Rgba 255 255 255 0.5)) 1]
    else [] in
  {| SpectrumLine.peakValues := peaks';
     SpectrumLine.peakHoldFrames := holds';
     SpectrumLine.screen :=
       beginPath :: path ++ [stroke (Solid (Hsl 180 100 50)) 2] ++ overlay
       ++ [lineTo (Some (width cv)) (height cv);
           lineTo (Some 0) (height cv);
           closePath;
           fill (SpectrumLine.gradient cv)] |}.
Proof.
  intro E. unfold SpectrumLine.draw. now rewrite E.
Qed.

Lemma line_draw_hidden cv props st :
  showPeaks (options props) = false ->
  fftData props = [] \/
  length (fftData props) = length (SpectrumLine.peakValues st) ->
  SpectrumLine.peakValues (SpectrumLine.draw cv props st)
  = SpectrumLine.peakValues st
  /\ SpectrumLine.peakHoldFrames (SpectrumLine.draw cv props st)
     = SpectrumLine.peakHoldFrames st.
Proof.
  intros Hsp Hlen.
  destruct (fftData props) as [|v data] eqn:E.
  - unfold SpectrumLine.draw. rewrite E. tauto.
  - destruct Hlen as [Hlen|Hlen]; [discriminate|].
    rewrite (line_draw_unfold _ _ _ _ _ E). cbv zeta.
    rewrite E, initPeaks_same, Hsp by (symmetry; exact Hlen).
    match goal with
    | |- context [SpectrumLine.line ?c false ?s ?m ?i ?l ?p ?h] =>
        destruct (line_hidden c s m l p h i) as [cmds ->]
    end.
    simpl. tauto.
Qed.

Lemma line_draw_twice_hidden cv props st :
  showPeaks (options props) = false ->
  SpectrumLine.draw cv props (SpectrumLine.draw cv props st)
  = SpectrumLine.draw cv props st.
Proof.
  intro Hsp.
  destruct (fftData props) as [|v data] eqn:E.
  - unfold SpectrumLine.draw. now rewrite E.
  - rewrite !(line_draw_unfold _ _ _ _ _ E). cbv zeta.
    rewrite Hsp.
    pose proof (initPeaks_length (length (fftData props))
                  (SpectrumLine.peakValues st)
                  (SpectrumLine.peakHoldFrames st)) as Hlen.
    destruct (initPeaks _ (SpectrumLine.peakValues st) _) as [peaks holds].
    simpl in Hlen.
    match goal with
    | |- context [SpectrumLine.line ?c false ?s ?m ?i ?l peaks holds] =>
        destruct (line_hidden c s m l peaks holds i) as [cmds Hb]
    end.
    rewrite Hb. cbn [SpectrumLine.peakValues SpectrumLine.peakHoldFrames].
    rewrite initPeaks_same by exact Hlen.
    now rewrite Hb.
Qed.

Lemma line_draw_twice_held cv props st :
  showPeaks (options props) = true ->
  Forall (fun h => (0 < h)%nat)
    (SpectrumLine.peakHoldFrames (SpectrumLine.draw cv props st)) ->
  SpectrumLine.screen (SpectrumLine.draw cv props (SpectrumLine.draw cv props st))
  = SpectrumLine.screen (SpectrumLine.draw cv props st)
  /\ SpectrumLine.peakValues
       (SpectrumLine.draw cv props (SpectrumLine.draw cv props st))
     = SpectrumLine.peakValues (SpectrumLine.draw cv props st).
Proof.
  intro Hsp.
  destruct (fftData props) as [|v data] eqn:E.
  - unfold SpectrumLine.draw. rewrite E. tauto.
  - rewrite !(line_draw_unfold _ _ _ _ _ E). cbv zeta.
    rewrite Hsp.
    pose proof (initPeaks_length (length (fftData props))
                  (SpectrumLine.peakValues st)
                  (SpectrumLine.peakHoldFrames st)) as Hlen.
    destruct (initPeaks _ (SpectrumLine.peakValues st) _) as [peaks holds].
    simpl in Hlen.
    match goal with
    | |- context [SpectrumLine.line ?c true ?s ?m ?i ?l peaks holds] =>
        destruct (SpectrumLine.line c true s m i l peaks holds)
          as [[ps hs] cmds] eqn:Hb
    end.
    cbn [SpectrumLine.peakValues SpectrumLine.peakHoldFrames].
    intro Hpos.
    rewrite initPeaks_same
      by (rewrite (line_length _ _ _ _ _ _ _ _ _ _ _ Hb); exact Hlen).
    destruct (line_settled _ _ _ _ _ _ _ _ _ _ Hb Hpos) as [hs' ->].
    simpl. tauto.
Qed.

(** Each bin of a draw is tracked on its own: bin [i] sees the height
    of bar [i] and nothing else. *)
Lemma bars_tracks_bins cv sp n bw bs abw mx (data peaks : list Q)
  (holds : list nat) :
  forall i ps hs cmds,
    length peaks = length data -> length holds = length data ->
    SpectrumBars.bars cv sp n bw bs abw mx i data peaks holds = (ps, hs, cmds) ->
    combine ps hs
    = map (fun b => track sp (fst b / mx * height cv) (fst (snd b)) (snd (snd b)))
        (combine data (combine peaks holds)).
Proof.
  revert peaks holds.
  induction data as [|v data IH]; intros [|p peaks] [|h holds] i ps hs cmds;
    try discriminate.
  - intros _ _ [= <- <- _]. reflexivity.
  - intros [= Hp] [= Hh]. cbn [SpectrumBars.bars].
    destruct (track sp _ p h) as [p' h'] eqn:Et.
    destruct (SpectrumBars.bars cv sp n bw bs abw mx (S i) data peaks holds)
      as [[ps' hs'] cmds'] eqn:E.
    intros [= <- <- _]. cbn [combine map fst snd].
    rewrite Et. f_equal. exact (IH _ _ _ _ _ _ Hp Hh E).
Qed.

Lemma line_tracks_bins cv shown sp mx (data peaks : list Q) (holds : list nat) :
  forall i ps hs cmds,
    length peaks = length data -> length holds = length data ->
    SpectrumLine.line cv shown sp mx i data peaks holds = (ps, hs, cmds) ->
    combine ps hs
    = map (fun b =>
             track shown (fst b / mx * height cv) (fst (snd b)) (snd (snd b)))
        (combine data (combine peaks holds)).
Proof.
  revert peaks holds.
  induction data as [|v data IH]; intros [|p peaks] [|h holds] i ps hs cmds;
    try discriminate.
  - intros _ _ [= <- <- _]. reflexivity.
  - intros [= Hp] [= Hh]. cbn [SpectrumLine.line].
    destruct (track shown _ p h) as [p' h'] eqn:Et.
    destruct (SpectrumLine.line cv shown sp mx (S i) data peaks holds)
      as [[ps' hs'] cmds'] eqn:E.
    intros [= <- <- _]. cbn [combine map fst snd].
    rewrite Et. f_equal. exact (IH _ _ _ _ _ _ Hp Hh E).
Qed.

(** The two peak arrays are allocated together and updated bin by
    bin, so they keep equal lengths. *)
Lemma initPeaks_wf (n : nat) (peaks : list Q) (holds : list nat) :
  length holds = length peaks ->
  length (snd (initPeaks n peaks holds)) = length (fst (initPeaks n peaks holds)).
Proof.
  intro Hwf. unfold initPeaks. destruct (Nat.eqb _ _); simpl; [exact Hwf|].
  now rewrite !repeat_length.
Qed.

Lemma bars_holds_length cv sp n bw bs abw mx (data peaks : list Q)
  (holds : list nat) :
  forall i ps hs cmds,
    SpectrumBars.bars cv sp n bw bs abw mx i data peaks holds = (ps, hs, cmds) ->
    length hs = length holds.
Proof.
  revert peaks holds.
  induction data as [|v data IH]; intros peaks holds i ps hs cmds;
    [now intros [= _ <- _]|].
  destruct peaks as [|p peaks]; [now intros [= _ <- _]|].
  destruct holds as [|h holds]; [now intros [= _ <- _]|].
  cbn [SpectrumBars.bars].
  destruct (track sp _ p h) as [p' h'].
  destruct (SpectrumBars.bars cv sp n bw bs abw mx (S i) data peaks holds)
    as [[ps' hs'] cmds'] eqn:E.
  intros [= _ <- _]. simpl. f_equal. eapply IH, E.
Qed.

Lemma line_holds_length cv shown sp mx (data peaks : list Q) (holds : list nat) :
  forall i ps hs cmds,
    SpectrumLine.line cv shown sp mx i data peaks holds = (ps, hs, cmds) ->
    length hs = length holds.
Proof.
  revert peaks holds.
  induction data as [|v data IH]; intros peaks holds i ps hs cmds;
    [now intros [= _ <- _]|].
  destruct peaks as [|p peaks]; [now intros [= _ <- _]|].
  destruct holds as [|h holds]; [now intros [= _ <- _]|].
  cbn [SpectrumLine.line].
  destruct (track shown _ p h) as [p' h'].
  destruct (SpectrumLine.line cv shown sp mx (S i) data peaks holds)
    as [[ps' hs'] cmds'] eqn:E.
  intros [= _ <- _]. simpl. f_equal. eapply IH, E.
Qed.

Lemma bars_draw_wf cv props st :
  length (SpectrumBars.peakHoldFrames st)
  = length (SpectrumBars.peakValues st) ->
  length (SpectrumBars.peakHoldFrames (SpectrumBars.draw cv props st))
  = length (SpectrumBars.peakValues (SpectrumBars.draw cv props st)).
Proof.
  intro Hwf.
  destruct (fftData props) as [|v data] eqn:E.
  - unfold SpectrumBars.draw. now rewrite E.
  - rewrite (bars_draw_unfold _ _ _ _ _ E). cbv zeta.
    pose proof (initPeaks_wf (length (fftData props)) _ _ Hwf) as Hi.
    destruct (initPeaks _ (SpectrumBars.peakValues st) _) as [peaks holds].
    simpl in Hi.
    match goal with
    | |- context [SpectrumBars.bars ?c ?s ?n ?a ?b ?d ?m ?i ?l peaks holds] =>
        destruct (SpectrumBars.bars c s n a b d m i l peaks holds)
          as [[ps hs] cmds] eqn:Hb
    end.
    cbn [SpectrumBars.peakValues SpectrumBars.peakHoldFrames].
    rewrite (bars_length _ _ _ _ _ _ _ _ _ _ _ _ _ _ Hb).
    now rewrite (bars_holds_length _ _ _ _ _ _ _ _ _ _ _ _ _ _ Hb).
Qed.

Lemma line_draw_wf cv props st :
  length (SpectrumLine.peakHoldFrames st)
  = length (SpectrumLine.peakValues st) ->
  length (SpectrumLine.peakHoldFrames (SpectrumLine.draw cv props st))
  = length (SpectrumLine.peakValues (SpectrumLine.draw cv props st)).
Proof.
  intro Hwf.
  destruct (fftData props) as [|v data] eqn:E.
  - unfold SpectrumLine.draw. now rewrite E.
  - rewrite (line_draw_unfold _ _ _ _ _ E). cbv zeta.
    pose proof (initPeaks_wf (length (fftData props)) _ _ Hwf) as Hi.
    destruct (initPeaks _ (SpectrumLine.peakValues st) _) as [peaks holds].
    simpl in Hi.
    match goal with
    | |- context [SpectrumLine.line ?c ?s ?sp ?m ?i ?l peaks holds] =>
        destruct (SpectrumLine.line c s sp m i l peaks holds)
          as [[ps hs] cmds] eqn:Hb
    end.
    cbn [SpectrumLine.peakValues SpectrumLine.peakHoldFrames].
    rewrite (line_length _ _ _ _ _ _ _ _ _ _ _ Hb).
    now rewrite (line_holds_length _ _ _ _ _ _ _ _ _ _ _ Hb).
Qed.

(** Numerically equal display lists: every display list equals
    itself. *)
Lemma color_eqb_refl (c : color) : color_eqb c c = true.
Proof.
  destruct c; simpl; rewrite ?Z.eqb_refl, ?Qeq_bool_refl; reflexivity.
Qed.

Lemma stops_eqb_refl (l : list (Q * color)) : stops_eqb l l = true.
Proof.
  induction l as [|[o c] l IH]; simpl; [reflexivity|].
  now rewrite Qeq_bool_refl, color_eqb_refl, IH.
Qed.

Lemma style_eqb_refl (s : style) : style_eqb s s = true.
Proof.
  destruct s; simpl;
    rewrite ?Qeq_bool_refl, ?color_eqb_refl, ?stops_eqb_refl; reflexivity.
Qed.

Lemma cmd_eqb_refl (c : cmd) : cmd_eqb c c = true.
Proof.
  destruct c as [x y w h s| |[x|] y|[x|] y|s w| |s]; simpl;
    rewrite ?Qeq_bool_refl, ?style_eqb_refl; reflexivity.
Qed.

Lemma sameScreen_refl (s : list cmd) : sameScreen s s = true.
Proof.
  induction s as [|c s IH]; simpl; [reflexivity|].
  now rewrite cmd_eqb_refl, IH.
Qed.

Lemma bars_draw_ext cv props st1 st2 :
  fftData props <> [] ->
  SpectrumBars.peakValues st1 = SpectrumBars.peakValues st2 ->
  SpectrumBars.peakHoldFrames st1 = SpectrumBars.peakHoldFrames st2 ->
  SpectrumBars.draw cv props st1 = SpectrumBars.draw cv props st2.
Proof.
  intros Hne Ep Eh. unfold SpectrumBars.draw.
  destruct (fftData props); [congruence|]. now rewrite Ep, Eh.
Qed.

Lemma line_draw_ext cv props st1 st2 :
  fftData props <> [] ->
  SpectrumLine.peakValues st1 = SpectrumLine.peakValues st2 ->
  SpectrumLine.peakHoldFrames st1 = SpectrumLine.peakHoldFrames st2 ->
  SpectrumLine.draw cv props st1 = SpectrumLine.draw cv props st2.
Proof.
  intros Hne Ep Eh. unfold SpectrumLine.draw.
  destruct (fftData props); [congruence|]. now rewrite Ep, Eh.
Qed.

(** C1 (as amended).  A draw of the bar or of the line renderer is
    determined by the canvas size, the frame, the options and the
    stored peak arrays.  With [showPeaks] off a second draw of the same
    properties changes nothing: state and display list are those of the
    first draw.  With [showPeaks] on each draw also advances the peak
    arrays, and the second draw paints the same display list provided
    no bin has used up its hold frames after the first draw. *)
Theorem repeated_draw (cv : canvas) (props : Props) :
  (fftData props <> [] ->
   (forall st st',
      SpectrumBars.peakValues st = SpectrumBars.peakValues st' ->
      SpectrumBars.peakHoldFrames st = SpectrumBars.peakHoldFrames st' ->
      SpectrumBars.draw cv props st = SpectrumBars.draw cv props st') /\
   (forall st st',
      SpectrumLine.peakValues st = SpectrumLine.peakValues st' ->
      SpectrumLine.peakHoldFrames st = SpectrumLine.peakHoldFrames st' ->
      SpectrumLine.draw cv props st = SpectrumLine.draw cv props st')) /\
  (showPeaks (options props) = false ->
   (forall st, SpectrumBars.draw cv props (SpectrumBars.draw cv props st)
               = SpectrumBars.draw cv props st) /\
   (forall st, SpectrumLine.draw cv props (SpectrumLine.draw cv props st)
               = SpectrumLine.draw cv props st)) /\
  (showPeaks (options props) = true ->
   (forall st,
      Forall (fun h => (0 < h)%nat)
        (SpectrumBars.peakHoldFrames (SpectrumBars.draw cv props st)) ->
      sameScreen
        (SpectrumBars.screen
           (SpectrumBars.draw cv props (SpectrumBars.draw cv props st)))
        (SpectrumBars.screen (SpectrumBars.draw cv props st)) = true) /\
   (forall st,
      Forall (fun h => (0 < h)%nat)
        (SpectrumLine.peakHoldFrames (SpectrumLine.draw cv props st)) ->
      sameScreen
        (SpectrumLine.screen
           (SpectrumLine.draw cv props (SpectrumLine.draw cv props st)))
        (SpectrumLine.screen (SpectrumLine.draw cv props st)) = true)).
Proof.
  split; [|split]; intro H; split.
  - intros st st'. now apply bars_draw_ext.
  - intros st st'. now apply line_draw_ext.
  - intro st. apply bars_draw_twice_hidden, H.
  - intro st. apply line_draw_twice_hidden, H.
  - intros st Hpos.
    destruct (bars_draw_twice_held cv props st H Hpos) as [-> _].
    apply sameScreen_refl.
  - intros st Hpos.
    destruct (line_draw_twice_held cv props st H Hpos) as [-> _].
    apply sameScreen_refl.
Qed.

Lemma repeated_draw_witness :
  let cv := {| width := 800; height := 500 |} in
  let props :=
    {| fftData := [3; 4]; fftHistory := [];
       options := {| logScale := false; showPeaks := true |} |} in
  showPeaks (options props) = true /\
  Forall (fun h => (0 < h)%nat)
    (SpectrumBars.peakHoldFrames
       (SpectrumBars.draw cv props SpectrumBars.initial)) /\
  sameScreen
    (SpectrumBars.screen
       (SpectrumBars.draw cv props
          (SpectrumBars.draw cv props SpectrumBars.initial)))
    (SpectrumBars.screen (SpectrumBars.draw cv props SpectrumBars.initial))
  = true.
Proof.
  intros cv props.
  assert (Hpos : Forall (fun h => (0 < h)%nat)
                   (SpectrumBars.peakHoldFrames
                      (SpectrumBars.draw cv props SpectrumBars.initial)))
    by (repeat constructor; apply Nat.lt_0_succ).
  split; [reflexivity|]. split; [exact Hpos|].
  exact (proj1 (proj2 (proj2 (repeated_draw cv props)) eq_refl)
           SpectrumBars.initial Hpos).
Defined.

(** C1 as stated fails.  A one-bin bar display is brought, by drawing a
    loud frame and thirty silent ones, to a peak of 100 whose hold
    frames are used up; a silent frame drawn twice in a row then paints
    the peak marker at height 80 and at height 64. *)
Lemma repeated_draw_moves_peak_marker :
  let cv := {| width := 100; height := 100 |} in
  let frame v :=
    (cv, {| fftData := [v]; fftHistory := [];
            options := {| logScale := true; showPeaks := true |} |}) in
  let st := SpectrumBars.drawAll SpectrumBars.initial
              (frame 1 :: repeat (frame 0) 30) in
  let once := SpectrumBars.draw cv (snd (frame 0)) st in
  let twice := SpectrumBars.draw cv (snd (frame 0)) once in
  SpectrumBars.peakValues st = [100] /\
  SpectrumBars.peakHoldFrames st = [0%nat] /\
  sameScreen (SpectrumBars.screen twice) (SpectrumBars.screen once) = false.
Proof.
  vm_compute. repeat split.
Qed.

Lemma bars_drawAll_hidden (frames : list (canvas * Props)) :
  forall st,
    Forall (fun f =>
              showPeaks (options (snd f)) = false /\
              (fftData (snd f) = [] \/
               length (fftData (snd f)) = length (SpectrumBars.peakValues st)))
           frames ->
    SpectrumBars.peakValues (SpectrumBars.drawAll st frames)
    = SpectrumBars.peakValues st
    /\ SpectrumBars.peakHoldFrames (SpectrumBars.drawAll st frames)
       = SpectrumBars.peakHoldFrames st.
Proof.
  induction frames as [|[cv props] frames IH]; intros st Hall; [tauto|].
  inversion Hall as [|? ? [Hsp Hlen] Hrest]; subst. simpl in Hsp, Hlen.
  destruct (bars_draw_hidden cv props st Hsp Hlen) as [Ep Eh].
  cbn [SpectrumBars.drawAll fold_left fst snd].
  destruct (IH (SpectrumBars.draw cv props st)) as [Ep' Eh'].
  - rewrite Ep. exact Hrest.
  - unfold SpectrumBars.drawAll in Ep', Eh'. rewrite Ep', Eh'. tauto.
Qed.

Lemma line_drawAll_hidden (frames : list (canvas * Props)) :
  forall st,
    Forall (fun f =>
              showPeaks (options (snd f)) = false /\
              (fftData (snd f) = [] \/
               length (fftData (snd f)) = length (SpectrumLine.peakValues st)))
           frames ->
    SpectrumLine.peakValues (SpectrumLine.drawAll st frames)
    = SpectrumLine.peakValues st
    /\ SpectrumLine.peakHoldFrames (SpectrumLine.drawAll st frames)
       = SpectrumLine.peakHoldFrames st.
Proof.
  induction frames as [|[cv props] frames IH]; intros st Hall; [tauto|].
  inversion Hall as [|? ? [Hsp Hlen] Hrest]; subst. simpl in Hsp, Hlen.
  destruct (line_draw_hidden cv props st Hsp Hlen) as [Ep Eh].
  cbn [SpectrumLine.drawAll fold_left fst snd].
  destruct (IH (SpectrumLine.draw cv props st)) as [Ep' Eh'].
  - rewrite Ep. exact Hrest.
  - unfold SpectrumLine.drawAll in Ep', Eh'. rewrite Ep', Eh'. tauto.
Qed.

(** C9 (as amended).  While [showPeaks] is off, drawing any run of
    frames whose bin count does not change (empty frames, which are
    not drawn, or frames with the bin count of the peak arrays) leaves
    [peakValues] and [peakHoldFrames] of the bar and of the line
    renderer as they were, so the next draw, for instance the first one
    with [showPeaks] back on, behaves exactly as it would have when
    peaks were switched off. *)
Theorem hidden_peaks_are_frozen (frames : list (canvas * Props)) :
  (forall st : SpectrumBars.State,
     Forall (fun f =>
               showPeaks (options (snd f)) = false /\
               (fftData (snd f) = [] \/
                length (fftData (snd f)) = length (SpectrumBars.peakValues st)))
            frames ->
     SpectrumBars.peakValues (SpectrumBars.drawAll st frames)
     = SpectrumBars.peakValues st /\
     SpectrumBars.peakHoldFrames (SpectrumBars.drawAll st frames)
     = SpectrumBars.peakHoldFrames st /\
     forall cv props, fftData props <> [] ->
       SpectrumBars.draw cv props (SpectrumBars.drawAll st frames)
       = SpectrumBars.draw cv props st) /\
  (forall st : SpectrumLine.State,
     Forall (fun f =>
               showPeaks (options (snd f)) = false /\
               (fftData (snd f) = [] \/
                length (fftData (snd f)) = length (SpectrumLine.peakValues st)))
            frames ->
     SpectrumLine.peakValues (SpectrumLine.drawAll st frames)
     = SpectrumLine.peakValues st /\
     SpectrumLine.peakHoldFrames (SpectrumLine.drawAll st frames)
     = SpectrumLine.peakHoldFrames st /\
     forall cv props, fftData props <> [] ->
       SpectrumLine.draw cv props (SpectrumLine.drawAll st frames)
       = SpectrumLine.draw cv props st).
Proof.
  split; intros st Hall.
  - destruct (bars_drawAll_hidden frames st Hall) as [Ep Eh].
    repeat split; try assumption.
    intros cv props Hne. now apply bars_draw_ext.
  - destruct (line_drawAll_hidden frames st Hall) as [Ep Eh].
    repeat split; try assumption.
    intros cv props Hne. now apply line_draw_ext.
Qed.

Lemma hidden_peaks_are_frozen_witness :
  let cv := {| width := 800; height := 500 |} in
  let hidden data :=
    (cv, {| fftData := data; fftHistory := [];
            options := {| logScale := true; showPeaks := false |} |}) in
  let st := {| SpectrumBars.peakValues := [70; 80];
               SpectrumBars.peakHoldFrames := [3%nat; 0%nat];
               SpectrumBars.screen := [] |} in
  SpectrumBars.peakValues
    (SpectrumBars.drawAll st [hidden [3; 4]; hidden []; hidden [0; 9]])
  = [70; 80] /\
  SpectrumBars.peakHoldFrames
    (SpectrumBars.drawAll st [hidden [3; 4]; hidden []; hidden [0; 9]])
  = [3%nat; 0%nat].
Proof.
  intros cv hidden st.
  assert (Hall : Forall (fun f =>
               showPeaks (options (snd f)) = false /\
               (fftData (snd f) = [] \/
                length (fftData (snd f)) = length (SpectrumBars.peakValues st)))
            [hidden [3; 4]; hidden []; hidden [0; 9]]).
  { repeat (apply Forall_cons || apply Forall_nil);
      (split; [reflexivity|]); (now left) || (now right). }
  destruct (proj1 (hidden_peaks_are_frozen _) st Hall) as [Ep [Eh _]].
  split; [exact Ep | exact Eh].
Defined.

(** C9 as stated fails when the bin count changes.  The bin-count
    check of [draw] runs before the loop, whether or not peaks are
    shown: with [showPeaks] off, a frame of two bins drawn on a state
    that holds one peak (70, with 3 hold frames left) zeroes both
    arrays, in the bar and in the line renderer, and the first frame
    drawn by a freshly mounted component turns its empty arrays into
    arrays of zeros. *)
Lemma hidden_draw_with_new_bin_count :
  let cv := {| width := 800; height := 500 |} in
  let bars := {| SpectrumBars.peakValues := [70];
                 SpectrumBars.peakHoldFrames := [3%nat];
                 SpectrumBars.screen := [] |} in
  let line := {| SpectrumLine.peakValues := [70];
                 SpectrumLine.peakHoldFrames := [3%nat];
                 SpectrumLine.screen := [] |} in
  let props := {| fftData := [1; 2]; fftHistory := [];
                  options := {| logScale := true; showPeaks := false |} |} in
  showPeaks (options props) = false /\
  SpectrumBars.peakValues (SpectrumBars.draw cv props bars) = [0; 0] /\
  SpectrumBars.peakHoldFrames (SpectrumBars.draw cv props bars)
  = [0%nat; 0%nat] /\
  SpectrumLine.peakValues (SpectrumLine.draw cv props line) = [0; 0] /\
  SpectrumLine.peakHoldFrames (SpectrumLine.draw cv props line)
  = [0%nat; 0%nat] /\
  SpectrumBars.peakValues (SpectrumBars.draw cv props SpectrumBars.initial)
  = [0; 0] /\
  SpectrumBars.peakValues (SpectrumBars.draw cv props bars)
  <> SpectrumBars.peakValues bars.
Proof.
  cbv zeta. repeat split; try reflexivity. discriminate.
Qed.

End PeakArrays.

(** ** The colour maps *)

Section Colours.
Import Canvas HeatMap.






Ltac ltb_facts :=
  repeat match goal with
         | H : Num.ltb _ _ = true |- _ => apply ltb_lt in H
         | H : Num.ltb _ _ = false |- _ => apply ltb_ge in H
         end.



Lemma valueToColor_table (value : Q) :
  let v := Qmin 255 (Qmax 0 value) in
  (v < 85 ->
   Spectrogram.valueToColor value
   = {| Spectrogram.r := 0; Spectrogram.g := Qfloor (v * 3);
        Spectrogram.b := 255 |}) /\
  (85 <= v -> v < 170 ->
   Spectrogram.valueToColor value
   = {| Spectrogram.r := Qfloor ((v - 85) * 3); Spectrogram.g := 255;
        Spectrogram.b := 255 - Qfloor ((v - 85) * 3) |}) /\
  (170 <= v ->
   Spectrogram.valueToColor value
   = {| Spectrogram.r := 255;
        Spectrogram.g := 255 - Qfloor ((v - 170) * 3);
        Spectrogram.b := 0 |}).
Proof.
  intro v. unfold Spectrogram.valueToColor. fold v.
  destruct (Num.ltb v 85) eqn:A; [|destruct (Num.ltb v 170) eqn:B];
    ltb_facts; repeat split; intros; try reflexivity; exfalso; Lqa.lra.
Qed.





Import PrimFloat.







(** The rounded exact ratio is the quotient the code computes. *)
Example ratio_is_double_quotient :
  Double.ofQ (ratioOf 3 1275) = (3 / 1275)%float /\
  Double.ofQ (ratioOf 5 200) = (5 / 200)%float /\
  Double.ofQ (ratioOf 1 3) = (1 / 3)%float /\
  Double.ofQ (ratioOf (1 # 8) (3 # 4)) = (0.125 / 0.75)%float /\
  Double.ofQ (ratioOf 7 2) = 1%float.
Proof. vm_compute. repeat split. Qed.




End Colours.

(** ** The spectrogram's normalisation maximum *)

Section SpectrogramMax.
Import Canvas HeatMap.

Lemma history_fold_init (history : list (list Q)) (init : Q) :
  init <= fold_left (fun m frame => Qmax m (Spectrogram.frameMax frame))
            history init.
Proof.
  revert init. induction history as [|f history IH]; intro init; simpl.
  - apply Qle_refl.
  - eapply Qle_trans; [apply Q.le_max_l | apply IH].
Qed.

Lemma history_fold_upper (history : list (list Q)) (init : Q) frame v :
  In frame history -> In v frame ->
  v <= fold_left (fun m frame => Qmax m (Spectrogram.frameMax frame))
         history init.
Proof.
  revert init. induction history as [|f history IH]; intro init; simpl;
    [tauto|].
  intros [->|Hin] Hv.
  - eapply Qle_trans; [|apply history_fold_init].
    eapply Qle_trans; [|apply Q.le_max_r].
    apply maxWith_upper, Hv.
  - now apply IH.
Qed.

Lemma history_fold_attained (history : list (list Q)) (init : Q) :
  0 < init ->
  let D := fold_left (fun m frame => Qmax m (Spectrogram.frameMax frame))
             history init in
  D = init \/ exists frame v, In frame history /\ In v frame /\ D = v.
Proof.
  revert init. induction history as [|f history IH]; intros init Hpos; simpl;
    [now left|].
  assert (Hpos' : 0 < Qmax init (Spectrogram.frameMax f)).
  { eapply Qlt_le_trans; [exact Hpos | apply Q.le_max_l]. }
  destruct (IH _ Hpos') as [E|(frame & v & Hf & Hv & E)].
  - rewrite E.
    destruct (Qmax_cases init (Spectrogram.frameMax f)) as [E'|E'];
      [now left|].
    destruct (maxWith_attained 0 f) as [Ez|Hin].
    + exfalso. rewrite E' in Hpos'. unfold Spectrogram.frameMax in Hpos'.
      rewrite Ez in Hpos'. discriminate Hpos'.
    + right. exists f, (Spectrogram.frameMax f). rewrite E'. auto.
  - right. exists frame, v. auto.
Qed.

Lemma rows_fold_init (history : list (list Q)) (init : Q) :
  init <= fold_left (fun m row => Num.maxLoop m row) history init.
Proof.
  revert init. induction history as [|f history IH]; intro init; simpl.
  - apply Qle_refl.
  - eapply Qle_trans; [apply maxLoop_init | apply IH].
Qed.

Lemma rows_fold_upper (history : list (list Q)) (init : Q) frame v :
  In frame history -> In v frame ->
  v <= fold_left (fun m row => Num.maxLoop m row) history init.
Proof.
  revert init. induction history as [|f history IH]; intro init; simpl;
    [tauto|].
  intros [->|Hin] Hv.
  - eapply Qle_trans; [|apply rows_fold_init]. apply maxLoop_upper, Hv.
  - now apply IH.
Qed.

Lemma rows_fold_attained (history : list (list Q)) (init : Q) :
  let D := fold_left (fun m row => Num.maxLoop m row) history init in
  D = init \/ exists frame v, In frame history /\ In v frame /\ D = v.
Proof.
  revert init. induction history as [|f history IH]; intro init; simpl;
    [now left|].
  destruct (IH (Num.maxLoop init f)) as [E|(frame & v & Hf & Hv & E)].
  - rewrite E. destruct (maxLoop_attained init f) as [E'|Hin]; [now left|].
    right. exists f, (Num.maxLoop init f). auto.
  - right. exists frame, v. auto.
Qed.

Lemma paintRows_nth height bins mx data (rows : Spectrogram.ImageData) :
  forall y0 y row,
    nth_error rows y = Some row ->
    nth_error (Spectrogram.paintRows height bins mx data y0 rows) y
    = Some (Spectrogram.paintRow height bins mx data (y0 + y) row).
Proof.
  induction rows as [|r rows IH]; intros y0 [|y] row; simpl; try discriminate.
  - intros [= ->]. now rewrite Nat.add_0_r.
  - intro E. rewrite (IH (S y0) y row E).
    now replace (S y0 + y)%nat with (y0 + S y)%nat by lia.
Qed.

Lemma flat_map_ext_on {A B : Type} (f g : A -> list B) (l : list A) :
  (forall a, In a l -> f a = g a) -> flat_map f l = flat_map g l.
Proof.
  intro H. rewrite !flat_map_concat_map. f_equal. now apply map_ext_in.
Qed.

(** The rectangles of [drawSpectrogram] are issued slice by slice and,
    within a slice, bin by bin: the rectangle of bin [i] of slice [h]
    comes after those of all earlier slices. *)
Lemma slices_nth {B : Type} (f : nat -> nat -> B) (l : list (list Q)) :
  forall k h i frame,
    nth_error l h = Some frame -> (i < length frame)%nat ->
    nth_error
      (flat_map (fun j => map (f j) (seq 0 (length (nth (j - k) l []))))
         (seq k (length l)))
      (length (concat (firstn h l)) + i)
    = Some (f (k + h)%nat i).
Proof.
  induction l as [|fr l IH]; intros k h i frame Hh Hi;
    [destruct h; discriminate Hh|].
  cbn [length seq flat_map]. rewrite Nat.sub_diag. cbn [nth].
  destruct h as [|h].
  - injection Hh as <-. cbn [firstn concat length Nat.add].
    rewrite nth_error_app1 by (rewrite length_map, length_seq; exact Hi).
    rewrite nth_error_map, nth_error_seq.
    destruct (Nat.ltb_spec i (length fr)) as [_|Hge]; [|lia].
    cbn [option_map Nat.add]. now rewrite Nat.add_0_r.
  - cbn [nth_error] in Hh. cbn [firstn concat]. rewrite length_app.
    rewrite nth_error_app2 by (rewrite length_map, length_seq; lia).
    rewrite length_map, length_seq.
    replace (length fr + length (concat (firstn h l)) + i - length fr)%nat
      with (length (concat (firstn h l)) + i)%nat by lia.
    rewrite (flat_map_ext_on _
               (fun j => map (f j) (seq 0 (length (nth (j - S k) l []))))).
    + rewrite (IH (S k) h i frame Hh Hi). f_equal. f_equal. lia.
    + intros j Hj. apply in_seq in Hj.
      replace (j - k)%nat with (S (j - S k)) by lia. reflexivity.
Qed.

Lemma slices_length {B : Type} (f : nat -> nat -> B) (l : list (list Q)) :
  forall k,
    length
      (flat_map (fun j => map (f j) (seq 0 (length (nth (j - k) l []))))
         (seq k (length l)))
    = length (concat l).
Proof.
  induction l as [|fr l IH]; intro k; [reflexivity|].
  cbn [length seq flat_map concat]. rewrite !length_app, length_map, length_seq.
  rewrite Nat.sub_diag. cbn [nth]. f_equal.
  rewrite <- (IH (S k)). f_equal. apply flat_map_ext_on.
  intros h Hin. apply in_seq in Hin.
  replace (h - k)%nat with (S (h - S k)) by lia. reflexivity.
Qed.

(** C5.  The spectrogram divides by a maximum taken over the whole
    retained history.  In Spectrogram.vue the divisor [maxValue] is at
    least 1, is at least every magnitude of every frame in
    [fftHistory], and is 1 or one of those magnitudes; the pixel
    written in the right column for a row is [valueToColor] of the
    current frame's bin value divided by that [maxValue], times 255.  In
    main.ts the divisor of [drawSpectrogram] has the same three
    properties; [drawSpectrogram] paints one rectangle for every
    magnitude [v] of every retained frame and nothing else, and the
    rectangle of bin [i] of frame [h], at the column of [h] and the row
    of [i], has the colour [getColor v M] for that one maximum [M]. *)
Theorem spectrogram_normalises_over_history
  (props : Props) (st : Spectrogram.State) (cv : canvas) :
  let history := fftHistory props in
  let D := Spectrogram.maxValue history in
  let M := MainTs.spectrogramMax history in
  (1 <= D /\
   (forall frame v, In frame history -> In v frame -> v <= D) /\
   (D = 1 \/ exists frame v, In frame history /\ In v frame /\ D = v)) /\
  (history <> [] ->
   forall y row,
     nth_error (Spectrogram.imageData st) y = Some row ->
     let height := length (Spectrogram.imageData st) in
     let bins := Nat.min height (length (hd [] history)) in
     let bin := Spectrogram.binOf height bins y in
     (0 <= bin < Z.of_nat bins)%Z ->
     nth_error (Spectrogram.imageData (Spectrogram.draw props st)) y
     = Some (Spectrogram.setRight (Spectrogram.shiftRow row)
               (let color :=
                  Spectrogram.valueToColor
                    (nth (Z.to_nat bin) (fftData props) 0 / D * 255) in
                (Spectrogram.r color, Spectrogram.g color,
                 Spectrogram.b color, 255%Z)))) /\
  (1 <= M /\
   (forall frame v, In frame history -> In v frame -> v <= M) /\
   (M = 1 \/ exists frame v, In frame history /\ In v frame /\ M = v)) /\
  (forall h i frame v,
     nth_error history h = Some frame -> nth_error frame i = Some v ->
     nth_error (MainTs.drawSpectrogram cv history)
       (length (concat (firstn h history)) + i)
     = Some (fillRect
               (width cv - (Num.ofNat (length history) - Num.ofNat h)
                           * (width cv / Num.ofNat History.MAX_HISTORY))
               (height cv - (Num.ofNat i + 1) * (height cv / 256))
               (width cv / Num.ofNat History.MAX_HISTORY)
               (height cv / 256)
               (Solid (getColor v M)))) /\
  length (MainTs.drawSpectrogram cv history) = length (concat history).
Proof.
  intros history D M. split; [|split; [|split; [|split]]].
  - split; [apply history_fold_init|].
    split; [intros frame v; apply history_fold_upper|].
    apply history_fold_attained. reflexivity.
  - subst history D M. unfold Spectrogram.draw.
    destruct (fftHistory props) as [|frame0 rest]; [congruence|].
    intros _ y row Hrow [Hlo Hhi].
    cbn [Spectrogram.imageData hd] in *.
    rewrite (paintRows_nth _ _ _ _ _ 0%nat y (Spectrogram.shiftRow row))
      by (rewrite nth_error_map, Hrow; reflexivity).
    f_equal. unfold Spectrogram.paintRow. cbn [Nat.add].
    apply Z.leb_le in Hlo. apply Z.ltb_lt in Hhi. rewrite Hlo, Hhi.
    reflexivity.
  - unfold M, MainTs.spectrogramMax. split; [apply Q.le_max_r|].
    split.
    + intros frame v Hf Hv.
      eapply Qle_trans; [|apply Q.le_max_l].
      eapply rows_fold_upper; eassumption.
    + destruct (Qmax_cases
                  (fold_left (fun m row => Num.maxLoop m row) history 0) 1)
        as [E|E]; [|now left].
      rewrite E.
      destruct (rows_fold_attained history 0) as [E0|Hex]; [|now right].
      exfalso. pose proof (Q.le_max_r
        (fold_left (fun m row => Num.maxLoop m row) history 0) 1) as Hle.
      rewrite E, E0 in Hle. apply Hle. reflexivity.
  - intros h i frame v Hh Hi.
    assert (Hlt : (i < length frame)%nat)
      by (apply nth_error_Some; congruence).
    unfold MainTs.drawSpectrogram. cbv zeta.
    pose proof (slices_nth
      (fun j k =>
         fillRect
           (width cv - (Num.ofNat (length history) - Num.ofNat j)
                       * (width cv / Num.ofNat History.MAX_HISTORY))
           (height cv - (Num.ofNat k + 1) * (height cv / 256))
           (width cv / Num.ofNat History.MAX_HISTORY) (height cv / 256)
           (Solid (getColor (nth k (nth j history []) 0) M)))
      history 0%nat h i frame Hh Hlt) as Hn.
    cbn [Nat.add] in Hn.
    rewrite (nth_error_nth history h [] Hh) in Hn.
    rewrite (nth_error_nth frame i 0 Hi) in Hn.
    rewrite <- Hn. f_equal. apply flat_map_ext_on.
    intros j _. now rewrite Nat.sub_0_r.
  - unfold MainTs.drawSpectrogram. cbv zeta.
    rewrite <- (slices_length
      (fun j k =>
         fillRect
           (width cv - (Num.ofNat (length history) - Num.ofNat j)
                       * (width cv / Num.ofNat History.MAX_HISTORY))
           (height cv - (Num.ofNat k + 1) * (height cv / 256))
           (width cv / Num.ofNat History.MAX_HISTORY) (height cv / 256)
           (Solid (getColor (nth k (nth j history []) 0) M)))
      history 0%nat).
    f_equal. apply flat_map_ext_on. intros j _. now rewrite Nat.sub_0_r.
Qed.

Lemma spectrogram_normalises_over_history_witness :
  let props :=
    {| fftData := [0; 5]; fftHistory := [[200; 10]; [0; 5]];
       options := {| logScale := false; showPeaks := false |} |} in
  let black := (0, 0, 0, 0)%Z in
  let st := {| Spectrogram.imageData := [[black; black]; [black; black]];
               Spectrogram.screen := [[black; black]; [black; black]] |} in
  let cv := {| width := 800; height := 512 |} in
  fftHistory props <> [] /\
  Spectrogram.maxValue (fftHistory props) = 200 /\
  nth_error (Spectrogram.imageData (Spectrogram.draw props st)) 0
  = Some [black; (0, 19, 255, 255)%Z] /\
  MainTs.spectrogramMax (fftHistory props) = 200 /\
  length (MainTs.drawSpectrogram cv (fftHistory props)) = 4%nat /\
  (exists x y w h,
     nth_error (MainTs.drawSpectrogram cv (fftHistory props)) 3
     = Some (fillRect x y w h (Solid (Rgb 0 31 255)))
     /\ x == 796 /\ y == 508 /\ w == 4 /\ h == 2) /\
  (exists x y w h,
     nth_error (MainTs.drawSpectrogram cv (fftHistory props)) 0
     = Some (fillRect x y w h (Solid (Rgb 255 0 254)))
     /\ x == 792 /\ y == 510).
Proof.
  intros props black st cv.
  assert (Hne : fftHistory props <> []) by discriminate.
  destruct (spectrogram_normalises_over_history props st cv)
    as (_ & Hpx & _ & Hrect & Hlen).
  split; [exact Hne|]. split; [reflexivity|].
  split.
  { refine (Hpx Hne 0%nat [black; black] eq_refl _).
    vm_compute. split; [intro E; discriminate E | reflexivity]. }
  split; [reflexivity|]. split; [exact Hlen|]. split.
  - do 4 eexists. split.
    + exact (Hrect 1%nat 1%nat [0; 5] 5 eq_refl eq_refl).
    + repeat split; reflexivity.
  - do 4 eexists. split.
    + exact (Hrect 0%nat 0%nat [200; 10] 200 eq_refl eq_refl).
    + repeat split; reflexivity.
Defined.

End SpectrogramMax.

(** ** Magnitude processing *)

Section Magnitudes.
Import Magnitude.
Local Open Scope R_scope.

Lemma ln10_pos : 0 < ln 10.
Proof.
  rewrite <- ln_1. apply ln_increasing; Lra.lra.
Qed.

Lemma log10_nonneg (x : R) : 1 <= x -> 0 <= log10 x.
Proof.
  intro Hx. unfold log10, Rdiv.
  apply Rmult_le_pos.
  - destruct Hx as [Hx|<-]; [|rewrite ln_1; apply Rle_refl].
    left. rewrite <- ln_1. apply ln_increasing; Lra.lra.
  - left. apply Rinv_0_lt_compat, ln10_pos.
Qed.

Lemma byteValue_nonneg (b : byte) : 0 <= byteValue b.
Proof.
  unfold byteValue. apply IZR_le, N2Z.is_nonneg.
Qed.

Lemma audioMagnitude_nonneg logScale frequencyData i :
  0 <= audioMagnitude logScale frequencyData i.
Proof.
  unfold audioMagnitude.
  pose proof (byteValue_nonneg (nth i frequencyData x00)) as Hb.
  destruct logScale; simpl; [|exact Hb].
  destruct (Rlt_dec 0 (byteValue (nth i frequencyData x00))); [|exact Hb].
  apply Rmult_le_pos; [|Lra.lra].
  apply log10_nonneg. Lra.lra.
Qed.

Lemma fftMagnitude_defined logScale fftOutput i :
  (i * 2 + 1 < length fftOutput)%nat ->
  exists v, fftMagnitude logScale fftOutput i = Some v /\ 0 <= v.
Proof.
  intro Hi. unfold fftMagnitude.
  destruct (nth_error fftOutput (i * 2)) as [real|] eqn:Er;
    [|apply nth_error_None in Er; lia].
  destruct (nth_error fftOutput (i * 2 + 1)) as [imag|] eqn:Ei;
    [|apply nth_error_None in Ei; lia].
  eexists. split; [reflexivity | apply Rmax_l].
Qed.

(** A bin whose real or imaginary part lies past the end of the array
    is [NaN]. *)
Lemma fftMagnitude_undefined logScale fftOutput i :
  (length fftOutput <= i * 2 + 1)%nat ->
  fftMagnitude logScale fftOutput i = None.
Proof.
  intro Hi. unfold fftMagnitude.
  destruct (nth_error fftOutput (i * 2)); [|reflexivity].
  now rewrite (proj2 (nth_error_None fftOutput (i * 2 + 1)) Hi).
Qed.

Lemma processFFTData_nth logScale fftOutput i :
  (i < 256)%nat ->
  nth_error (processFFTData logScale fftOutput) i
  = Some (fftMagnitude logScale fftOutput i).
Proof.
  intro Hi. unfold processFFTData.
  change (Nat.min 256 (FFT_size / 2)) with 256%nat.
  rewrite nth_error_map, nth_error_seq.
  destruct (Nat.ltb_spec i 256) as [_|Hge]; [reflexivity | lia].
Qed.

(** C6 (as amended).  The byte path yields
    [min 256 (length frequencyData)] magnitudes, all non-negative, with
    or without the logarithmic scale.  The complex path yields
    [min 256 (FFT_size / 2) = 256] entries whatever the length of
    [fftOutput] is: the entry of a bin whose two numbers lie inside the
    array is a number that is at least 0, the entry of a bin read past
    the end of the array is [NaN]; so when [fftOutput] holds the 256
    complex bins that are read, every magnitude is a number that is at
    least 0. *)
Theorem magnitudes_bounded
  (logScale : bool) (frequencyData : list byte) (fftOutput : list R) :
  (length (processAudioData logScale frequencyData)
   = Nat.min 256 (length frequencyData) /\
   (length (processAudioData logScale frequencyData) <= 256)%nat /\
   Forall (fun m => 0 <= m) (processAudioData logScale frequencyData)) /\
  (length (processFFTData logScale fftOutput) = Nat.min 256 (FFT_size / 2) /\
   length (processFFTData logScale fftOutput) = 256%nat /\
   (forall i, (i < 256)%nat ->
      ((i * 2 + 1 < length fftOutput)%nat ->
       exists v, nth_error (processFFTData logScale fftOutput) i
                 = Some (Some v) /\ 0 <= v) /\
      ((length fftOutput <= i * 2 + 1)%nat ->
       nth_error (processFFTData logScale fftOutput) i = Some None)) /\
   ((2 * 256 <= length fftOutput)%nat ->
    Forall (fun m => exists v, m = Some v /\ 0 <= v)
      (processFFTData logScale fftOutput))).
Proof.
  split.
  - unfold processAudioData. rewrite length_map, length_seq.
    split; [reflexivity|]. split; [apply Nat.le_min_l|].
    apply Forall_map, Forall_forall. intros i _.
    apply audioMagnitude_nonneg.
  - split; [|split; [|split]].
    + unfold processFFTData. now rewrite length_map, length_seq.
    + unfold processFFTData. now rewrite length_map, length_seq.
    + intros i Hi. rewrite (processFFTData_nth _ _ _ Hi). split.
      * intro Hin.
        destruct (fftMagnitude_defined logScale fftOutput i Hin)
          as (v & -> & Hv).
        now exists v.
      * intro Hout. now rewrite fftMagnitude_undefined.
    + intro Hbins. unfold processFFTData.
      apply Forall_map, Forall_forall. intros i Hi.
      apply in_seq in Hi.
      change (Nat.min 256 (FFT_size / 2)) with 256%nat in Hi.
      apply fftMagnitude_defined. lia.
Qed.

Lemma magnitudes_bounded_witness :
  (2 * 256 <= length (repeat 3 512))%nat /\
  length (processAudioData true [x00; xff; x10]) = 3%nat /\
  length (processFFTData true (repeat 3 512)) = 256%nat /\
  Forall (fun m => exists v, m = Some v /\ 0 <= v)
    (processFFTData true (repeat 3 512)) /\
  (exists v, nth_error (processFFTData false [3; 4; 0]) 0 = Some (Some v)
             /\ 0 <= v) /\
  nth_error (processFFTData false [3; 4; 0]) 1 = Some None.
Proof.
  assert (Hbins : (2 * 256 <= length (repeat 3 512))%nat)
    by (rewrite repeat_length; apply Nat.le_refl).
  destruct (magnitudes_bounded true [x00; xff; x10] (repeat 3 512))
    as [[Ha _] [_ [Hf [_ Hall]]]].
  destruct (magnitudes_bounded false [] [3; 4; 0]) as [_ [_ [_ [Hbin _]]]].
  split; [exact Hbins|]. split; [exact Ha|]. split; [exact Hf|].
  split; [exact (Hall Hbins)|]. split.
  - apply (proj1 (Hbin 0%nat ltac:(lia))). cbn. lia.
  - apply (proj2 (Hbin 1%nat ltac:(lia))). cbn. lia.
Defined.

(** C6 as stated fails on the complex path for an array shorter than
    the 512 numbers the loop reads: [fftOutput = [3; 4]] holds one
    complex bin, yet the frame has 256 entries, not 1, and the entry of
    bin 1 is [NaN], which is not a magnitude that is at least 0. *)
Lemma short_fft_output_yields_nan :
  (length [3; 4] / 2 = 1)%nat /\
  length (processFFTData false [3; 4]) = 256%nat /\
  nth_error (processFFTData false [3; 4]) 1 = Some None /\
  ~ Forall (fun m => exists v, m = Some v /\ 0 <= v)
      (processFFTData false [3; 4]).
Proof.
  assert (Hnan : nth_error (processFFTData false [3; 4]) 1 = Some None).
  { rewrite processFFTData_nth by lia.
    rewrite fftMagnitude_undefined by (cbn; lia). reflexivity. }
  split; [reflexivity|]. split.
  { unfold processFFTData. now rewrite length_map, length_seq. }
  split; [exact Hnan|].
  intro Hall. apply nth_error_In in Hnan.
  destruct (proj1 (Forall_forall _ _) Hall None Hnan) as (v & Hv & _).
  discriminate Hv.
Qed.

End Magnitudes.

(** ** Bars of a silent frame *)

Section SilentBars.
Import Canvas HeatMap PeakTracker.

Lemma maxWith_zeros (floor : Q) (n : nat) :
  0 < floor -> Num.maxWith floor (repeat 0 n) = floor.
Proof.
  intro Hpos. induction n as [|n IH]; simpl; [reflexivity|].
  rewrite IH. unfold Qmax, GenericMinMax.gmax.
  now rewrite (proj1 (Qlt_alt 0 floor) Hpos).
Qed.

Lemma maxLoop_zeros (n : nat) : Num.maxLoop 0 (repeat 0 n) = 0.
Proof.
  unfold Num.maxLoop. induction n as [|n IH]; simpl; [reflexivity|exact IH].
Qed.

Lemma barsMax_zeros (minimum : Q) (n : nat) :
  0 < minimum -> Entry.barsMax minimum (repeat 0 n) = minimum.
Proof.
  intro Hpos. unfold Entry.barsMax. rewrite maxLoop_zeros.
  unfold Qmax, GenericMinMax.gmax.
  now rewrite (proj1 (Qlt_alt 0 minimum) Hpos).
Qed.

Lemma div_defined (a b : Q) : ~ b == 0 -> Num.div a b = Some (a / b).
Proof.
  intro Hb. unfold Num.div.
  destruct (Qeq_bool b 0) eqn:E; [|reflexivity].
  apply Qeq_bool_eq in E. contradiction.
Qed.

Lemma ofNat_succ_nonzero (n : nat) : ~ Num.ofNat (S n) == 0.
Proof.
  unfold Num.ofNat, Qeq. simpl. lia.
Qed.

Lemma heat_is_rgb (ratio : Q) : exists r g b, heat ratio = Rgb r g b.
Proof.
  unfold heat, heatDouble.
  repeat destruct (PrimFloat.ltb (Double.ofQ ratio) _); now repeat eexists.
Qed.

Lemma barHeights_app (a b : list cmd) :
  barHeights (a ++ b) = barHeights a ++ barHeights b.
Proof. apply flat_map_app. Qed.

Lemma barHeights_drawBar cv sp n bw bs abw mx i value peak :
  barHeights (SpectrumBars.drawBar cv sp n bw bs abw mx i value peak)
  = [value / mx * height cv].
Proof.
  unfold SpectrumBars.drawBar. destruct sp; reflexivity.
Qed.

Lemma bars_cons cv sp n bw bs abw mx i value data peak peaks hold holds :
  SpectrumBars.bars cv sp n bw bs abw mx i (value :: data) (peak :: peaks)
    (hold :: holds)
  = (let '(peak', hold') := track sp (value / mx * height cv) peak hold in
     let '(ps, hs, cmds) :=
       SpectrumBars.bars cv sp n bw bs abw mx (S i) data peaks holds in
     (peak' :: ps, hold' :: hs,
      SpectrumBars.drawBar cv sp n bw bs abw mx i value peak' ++ cmds)).
Proof. reflexivity. Qed.

Lemma bars_silent cv sp n bw bs abw mx (m : nat) :
  forall i peaks holds ps hs cmds,
    SpectrumBars.bars cv sp n bw bs abw mx i (repeat 0 m) peaks holds
    = (ps, hs, cmds) ->
    Forall (fun h => h == 0) (barHeights cmds)
    /\ (length peaks = m -> length holds = m ->
        length (barHeights cmds) = m).
Proof.
  induction m as [|m IH]; intros i peaks holds ps hs cmds.
  - simpl. intros [= _ _ <-]. split; [constructor | reflexivity].
  - cbn [repeat].
    destruct peaks as [|p peaks];
      [intros [= _ _ <-]; split; [constructor | discriminate]|].
    destruct holds as [|h holds];
      [intros [= _ _ <-]; split; [constructor | discriminate]|].
    rewrite bars_cons.
    destruct (track sp _ p h) as [p' h'].
    destruct (SpectrumBars.bars cv sp n bw bs abw mx (S i) (repeat 0 m)
                peaks holds) as [[ps' hs'] cmds'] eqn:E.
    intro Heq. apply (f_equal snd) in Heq. cbn [snd] in Heq. subst cmds.
    destruct (IH _ _ _ _ _ _ E) as [Hall Hlen].
    rewrite barHeights_app, barHeights_drawBar. cbn [app length]. split.
    + constructor; [|exact Hall]. unfold Qdiv. ring.
    + intros [= Hp] [= Hh]. cbn [length]. f_equal. now apply Hlen.
Qed.

Lemma barHeights_frequencyBar minimum cv sp magnitudes i :
  barHeights (Entry.frequencyBar minimum cv sp magnitudes i)
  = [nth i magnitudes 0 / Entry.barsMax minimum magnitudes * height cv].
Proof.
  unfold Entry.frequencyBar, getColor.
  destruct (heat_is_rgb (ratioOf (nth i magnitudes 0)
                           (Entry.barsMax minimum magnitudes)))
    as (r & g & b & ->).
  match goal with |- context [if ?c then _ else _] => destruct c end;
    reflexivity.
Qed.

Lemma frequencyBars_silent minimum cv sp (n : nat) (ixs : list nat) :
  let zeros := repeat 0 n in
  Forall (fun h => h == 0)
    (barHeights (flat_map (Entry.frequencyBar minimum cv sp zeros) ixs))
  /\ length (barHeights (flat_map (Entry.frequencyBar minimum cv sp zeros) ixs))
     = length ixs.
Proof.
  intro zeros. induction ixs as [|i ixs [IHa IHl]]; cbn [flat_map].
  - split; [constructor | reflexivity].
  - rewrite barHeights_app, barHeights_frequencyBar. cbn [app length]. split.
    + constructor; [|exact IHa].
      unfold zeros. rewrite nth_repeat. unfold Qdiv. ring.
    + now rewrite IHl.
Qed.

(** C7 (as amended).  For a frame of [n + 1] zeros no division in a
    bar renderer has a zero denominator and every bar has height 0.
    The normalisation maximum is floored to a positive constant, which
    is 1 in SpectrumBars.vue and in main.ts and 0.1 in the
    simulated-source entry point; the bin count that divides the width
    is not zero either. *)
Theorem silent_frame_bars (n : nat) (cv : canvas) (sp : bool) :
  let zeros := repeat 0 (S n) in
  (SpectrumBars.maxValue zeros = 1 /\
   MainTs.barsMax zeros = 1 /\
   Simulated.barsMax zeros = 0.1) /\
  (forall a : Q,
     Num.div a (SpectrumBars.maxValue zeros) <> None /\
     Num.div a (MainTs.barsMax zeros) <> None /\
     Num.div a (Simulated.barsMax zeros) <> None /\
     Num.div a (Num.ofNat (length zeros)) <> None) /\
  (forall props st,
     fftData props = zeros ->
     Forall (fun h => h == 0)
       (barHeights (SpectrumBars.screen (SpectrumBars.draw cv props st))) /\
     (length (SpectrumBars.peakHoldFrames st)
      = length (SpectrumBars.peakValues st) ->
      length (barHeights (SpectrumBars.screen (SpectrumBars.draw cv props st)))
      = S n)) /\
  (Forall (fun h => h == 0) (barHeights (MainTs.drawFrequencyBars cv sp zeros)) /\
   length (barHeights (MainTs.drawFrequencyBars cv sp zeros)) = S n) /\
  (Forall (fun h => h == 0)
     (barHeights (Simulated.drawFrequencyBars cv sp zeros)) /\
   length (barHeights (Simulated.drawFrequencyBars cv sp zeros)) = S n).
Proof.
  intro zeros.
  assert (E1 : SpectrumBars.maxValue zeros = 1)
    by (apply maxWith_zeros; reflexivity).
  assert (E2 : MainTs.barsMax zeros = 1)
    by (apply barsMax_zeros; reflexivity).
  assert (E3 : Simulated.barsMax zeros = 0.1)
    by (apply barsMax_zeros; reflexivity).
  split; [now repeat split|]. split; [|split; [|split]].
  - intro a. rewrite E1, E2, E3. unfold zeros. rewrite repeat_length.
    assert (N1 : ~ 1 == 0) by (intro E; discriminate E).
    assert (N2 : ~ 0.1 == 0) by (intro E; discriminate E).
    rewrite (div_defined a 1 N1), (div_defined a 0.1 N2),
      (div_defined a _ (ofNat_succ_nonzero n)).
    repeat split; discriminate.
  - intros props st Hdata.
    rewrite (bars_draw_unfold cv props st 0 (repeat 0 n))
      by (rewrite Hdata; reflexivity).
    cbv zeta. rewrite Hdata.
    pose proof (initPeaks_length (length zeros)
                  (SpectrumBars.peakValues st)
                  (SpectrumBars.peakHoldFrames st)) as Hlen.
    assert (Hholds : length (SpectrumBars.peakHoldFrames st)
                     = length (SpectrumBars.peakValues st) ->
                     length (snd (initPeaks (length zeros)
                                    (SpectrumBars.peakValues st)
                                    (SpectrumBars.peakHoldFrames st)))
                     = length zeros).
    { unfold initPeaks.
      destruct (Nat.eqb_spec (length (SpectrumBars.peakValues st))
                  (length zeros)) as [E|_]; cbn [snd].
      - intro Hwf. now rewrite Hwf.
      - intros _. apply repeat_length. }
    destruct (initPeaks _ (SpectrumBars.peakValues st) _) as [peaks holds].
    simpl in Hlen, Hholds.
    match goal with
    | |- context [SpectrumBars.bars ?c ?s ?k ?a ?b ?d ?m ?i zeros peaks holds] =>
        destruct (SpectrumBars.bars c s k a b d m i zeros peaks holds)
          as [[ps hs] cmds] eqn:Hb
    end.
    cbn [SpectrumBars.screen].
    destruct (bars_silent _ _ _ _ _ _ _ _ _ _ _ _ _ _ Hb) as [Hall Hcount].
    split; [exact Hall|]. intro Hwf.
    unfold zeros in Hlen, Hholds. rewrite repeat_length in Hlen, Hholds.
    apply Hcount; auto.
  - unfold MainTs.drawFrequencyBars, Entry.drawFrequencyBars. subst zeros.
    destruct (frequencyBars_silent 1 cv sp (S n)
                (seq 0 (length (repeat 0 (S n)))))
      as [Ha Hl].
    split; [exact Ha|]. rewrite Hl, length_seq. apply repeat_length.
  - unfold Simulated.drawFrequencyBars, Entry.drawFrequencyBars. subst zeros.
    destruct (frequencyBars_silent 0.1 cv sp (S n)
                (seq 0 (length (repeat 0 (S n)))))
      as [Ha Hl].
    split; [exact Ha|]. rewrite Hl, length_seq. apply repeat_length.
Qed.

Lemma silent_frame_bars_witness :
  let cv := {| width := 800; height := 500 |} in
  let props :=
    {| fftData := [0; 0; 0]; fftHistory := [];
       options := {| logScale := true; showPeaks := true |} |} in
  fftData props = repeat 0 3 /\
  Forall (fun h => h == 0)
    (barHeights
       (SpectrumBars.screen (SpectrumBars.draw cv props SpectrumBars.initial)))
  /\ length
       (barHeights
          (SpectrumBars.screen
             (SpectrumBars.draw cv props SpectrumBars.initial))) = 3%nat.
Proof.
  intros cv props.
  destruct (silent_frame_bars 2 cv true) as (_ & _ & Hvue & _).
  destruct (Hvue props SpectrumBars.initial eq_refl) as [Hall Hcount].
  split; [reflexivity|]. split; [exact Hall | exact (Hcount eq_refl)].
Defined.

(** C7 as stated fails in the simulated-source entry point: for the
    frame [[0; 0; 0]] its bars are normalised by 0.1, which is below
    1. *)
Lemma simulated_bars_floor_is_not_one :
  Simulated.barsMax [0; 0; 0] == 0.1 /\ ~ 1 <= Simulated.barsMax [0; 0; 0].
Proof.
  split; [reflexivity|]. intro H. now apply H.
Qed.

End SilentBars.

(** ** Pause and resume of the simulated source *)

Section PauseResume.
Import Simulated.
Variables FFTOutput Frame Screen : Type.
Variable magnitudesOf : FFTOutput -> Frame.
Variable drawVisualization : list Frame -> Frame -> Screen.


Lemma fire_paused (h : nat) (p : Page Frame Screen) (fftOutput : FFTOutput) :
  _isPaused (analysisState p) = true -> fire magnitudesOf drawVisualization h p fftOutput = p.
Proof.
  intro Hp. unfold fire, onInterval. rewrite Hp. simpl.
  now destruct (existsb _ _).
Qed.

Lemma fireAll_paused (h : nat) (p : Page Frame Screen) (outputs : list FFTOutput) :
  _isPaused (analysisState p) = true -> fireAll magnitudesOf drawVisualization h p outputs = p.
Proof.
  intro Hp. unfold fireAll.
  induction outputs as [|o outputs IH]; simpl; [reflexivity|].
  now rewrite fire_paused.
Qed.

Lemma fire_running (h : nat) (p : Page Frame Screen) (fftOutput : FFTOutput) :
  In h (intervals p) ->
  _isPaused (analysisState p) = false ->
  fire magnitudesOf drawVisualization h p fftOutput = processFFTData magnitudesOf drawVisualization fftOutput p.
Proof.
  intros Hin Hp. unfold fire, onInterval. rewrite Hp. simpl.
  replace (existsb (Nat.eqb h) (intervals p)) with true;
    [reflexivity|].
  symmetry. apply existsb_exists. exists h. split; [exact Hin|].
  apply Nat.eqb_refl.
Qed.

Lemma togglePause_twice (p : Page Frame Screen) : togglePause (togglePause p) = p.
Proof.
  destruct p as [[interval paused] ? ? ? ?]. unfold togglePause.
  simpl. now rewrite Bool.negb_involutive.
Qed.

(** C8.  Pausing a running analysis only sets the flag: the interval
    stays scheduled under the same handle.  However often it fires
    while paused, the page (history and canvas included) stays as it was
    when pausing.  Resuming clears the flag and schedules nothing new,
    and the next firing processes a frame again. *)
Theorem paused_ticks_are_skipped (p : Page Frame Screen) (h : nat) :
  _interval (analysisState p) = Some h ->
  In h (intervals p) ->
  _isPaused (analysisState p) = false ->
  let paused := togglePause p in
  (isRunning (analysisState paused) = true /\
   isPaused (analysisState paused) = true /\
   _interval (analysisState paused) = Some h /\
   intervals paused = intervals p) /\
  (forall outputs : list FFTOutput,
     fireAll magnitudesOf drawVisualization h paused outputs = paused /\
     fftHistory (fireAll magnitudesOf drawVisualization h paused outputs)
     = fftHistory p /\
     screen (fireAll magnitudesOf drawVisualization h paused outputs) = screen p /\
     In h (intervals (fireAll magnitudesOf drawVisualization h paused outputs))) /\
  (let resumed := togglePause paused in
   resumed = p /\
   intervals resumed = intervals p /\
   nextHandle resumed = nextHandle p /\
   forall fftOutput : FFTOutput,
     fire magnitudesOf drawVisualization h resumed fftOutput = processFFTData magnitudesOf drawVisualization fftOutput resumed).
Proof.
  intros Hint Hin Hrun paused.
  assert (Hp : _isPaused (analysisState paused) = true)
    by (unfold paused; simpl; now rewrite Hrun).
  split; [|split].
  - unfold isRunning, isPaused. unfold paused at 1 3 4. simpl.
    rewrite Hint. auto.
  - intro outputs. rewrite (fireAll_paused h paused outputs Hp).
    unfold paused. simpl. auto.
  - intro resumed. unfold resumed, paused. rewrite togglePause_twice.
    repeat split. intro fftOutput. now apply fire_running.
Qed.

End PauseResume.

Lemma paused_ticks_are_skipped_witness :
  let draw (history : list (list Q)) (magnitudes : list Q) :=
    Simulated.drawFrequencyBars
      {| Canvas.width := 800; Canvas.height := 500 |} true magnitudes in
  let idle :=
    {| Simulated.analysisState :=
         {| Simulated._interval := None; Simulated._isPaused := false |};
       Simulated.intervals := [];
       Simulated.nextHandle := 1;
       Simulated.fftHistory := [];
       Simulated.screen := [] |} in
  let running :=
    Simulated.fire (fun x => x) draw 1
      (Simulated.start idle) [1; 2; 1] in
  let paused := Simulated.togglePause running in
  Simulated.fftHistory running = [[1; 2; 1]] /\
  Simulated.fireAll (fun x => x) draw 1 paused [[5; 5; 5]; [7; 7; 7]]
  = paused /\
  Simulated.fftHistory
    (Simulated.fireAll (fun x => x) draw 1 paused [[5; 5; 5]; [7; 7; 7]])
  = [[1; 2; 1]].
Proof.
  intros draw idle running paused.
  assert (Hint : Simulated._interval
                   (Simulated.analysisState running) = Some 1%nat)
    by reflexivity.
  assert (Hin : In 1%nat (Simulated.intervals running))
    by (left; reflexivity).
  assert (Hrun : Simulated._isPaused
                   (Simulated.analysisState running) = false)
    by reflexivity.
  destruct (paused_ticks_are_skipped _ _ _ (fun x => x) draw running 1%nat
              Hint Hin Hrun) as (_ & Hticks & _).
  destruct (Hticks [[5; 5; 5]; [7; 7; 7]]) as (Hsame & Hhist & _).
  split; [reflexivity|]. split; [exact Hsame | exact Hhist].
Defined.

(** ** The line renderer on a single bin *)

Section SingleBin.
Import Canvas PeakTracker.

(** C10.  For a frame of one bin the line renderer divides the width
    by [dataLength - 1 = 0]: the point spacing is not finite, the draw
    is not skipped, and the one point of the path is issued with a
    non-finite x coordinate.  Only the empty frame is skipped, and with
    two or more bins the spacing is the finite quotient. *)
Theorem single_bin_line_spacing
  (cv : canvas) (v : Q) (history : list (list Q)) (opts : Options)
  (st : SpectrumLine.State)
  (Hwf : length (SpectrumLine.peakHoldFrames st)
         = length (SpectrumLine.peakValues st)) :
  let props := {| fftData := [v]; fftHistory := history; options := opts |} in
  let empty := {| fftData := []; fftHistory := history; options := opts |} in
  Num.ofNat (length (fftData props)) - 1 == 0 /\
  SpectrumLine.pointSpacing cv (length (fftData props)) = None /\
  (exists rest,
     SpectrumLine.screen (SpectrumLine.draw cv props st)
     = beginPath
       :: moveTo None (height cv - v / SpectrumLine.maxValue [v] * height cv)
       :: rest) /\
  SpectrumLine.draw cv empty st = st /\
  (forall n : nat,
     SpectrumLine.pointSpacing cv (S (S n))
     = Some (width cv / (Num.ofNat (S (S n)) - 1))).
Proof.
  intros props empty.
  split; [reflexivity|]. split; [reflexivity|]. split; [|split].
  - rewrite (line_draw_unfold cv props st v []) by reflexivity. cbv zeta.
    unfold initPeaks. cbn [fftData props length].
    destruct (Nat.eqb_spec (length (SpectrumLine.peakValues st)) 1) as [E|_].
    + destruct (SpectrumLine.peakValues st) as [|p [|? ?]]; try discriminate E.
      destruct (SpectrumLine.peakHoldFrames st) as [|h [|? ?]];
        try discriminate Hwf.
      cbn [SpectrumLine.line]. destruct (track _ _ p h) as [p' h'].
      cbn [SpectrumLine.screen app SpectrumLine.pathTo Num.scale option_map].
      now eexists.
    + cbn [repeat SpectrumLine.line].
      destruct (track _ _ 0 0%nat) as [p' h'].
      cbn [SpectrumLine.screen app SpectrumLine.pathTo Num.scale option_map].
      now eexists.
  - reflexivity.
  - intro n. unfold SpectrumLine.pointSpacing. apply div_defined.
    unfold Num.ofNat, Qeq, Qminus, Qplus, Qopp, inject_Z.
    cbn [Qnum Qden]. lia.
Qed.

Lemma single_bin_line_spacing_witness :
  let cv := {| width := 800; height := 500 |} in
  let props :=
    {| fftData := [7]; fftHistory := [];
       options := {| logScale := true; showPeaks := false |} |} in
  length (SpectrumLine.peakHoldFrames SpectrumLine.initial)
  = length (SpectrumLine.peakValues SpectrumLine.initial) /\
  SpectrumLine.pointSpacing cv 1 = None /\
  SpectrumLine.pointSpacing cv 3 = Some (width cv / (Num.ofNat 3 - 1)) /\
  exists rest,
    SpectrumLine.screen (SpectrumLine.draw cv props SpectrumLine.initial)
    = beginPath
      :: moveTo None (height cv - 7 / SpectrumLine.maxValue [7] * height cv)
      :: rest.
Proof.
  intros cv props.
  destruct (single_bin_line_spacing cv 7 []
              {| logScale := true; showPeaks := false |}
              SpectrumLine.initial eq_refl) as (_ & Hs & Hdraw & _ & Hn).
  split; [reflexivity|]. split; [exact Hs|].
  split; [exact (Hn 1%nat) | exact Hdraw].
Defined.

End SingleBin.

(** * Further properties of the code *)

(** ** Spectrogram.vue: the scrolling image *)

Section SpectrogramImage.
Import Spectrogram.

Lemma shiftRow_length (row : list pixel) : length (shiftRow row) = length row.
Proof.
  destruct row as [|p rest]; [reflexivity|].
  unfold shiftRow. rewrite length_app. simpl. lia.
Qed.

Lemma removelast_len {A : Type} (l : list A) :
  length (removelast l) = pred (length l).
Proof.
  rewrite removelast_firstn_len, length_firstn. lia.
Qed.

Lemma setRight_length (row : list pixel) (px : pixel) :
  length (setRight row px) = length row.
Proof.
  destruct row as [|p rest]; [reflexivity|].
  unfold setRight. rewrite length_app, removelast_len. simpl. lia.
Qed.

Lemma paintRow_length height bins mx data y (row : list pixel) :
  length (paintRow height bins mx data y row) = length row.
Proof.
  unfold paintRow. destruct (_ && _); [apply setRight_length | reflexivity].
Qed.

Lemma paintRows_lengths height bins mx data (rows : ImageData) :
  forall y, map (@length pixel) (paintRows height bins mx data y rows)
            = map (@length pixel) rows.
Proof.
  induction rows as [|row rows IH]; intro y; simpl; [reflexivity|].
  now rewrite paintRow_length, IH.
Qed.

Lemma draw_row_lengths (props : Props) (st : State) :
  map (@length pixel) (imageData (draw props st))
  = map (@length pixel) (imageData st).
Proof.
  unfold draw. destruct (fftHistory props) as [|frame0 rest]; [reflexivity|].
  cbn [imageData]. rewrite paintRows_lengths, map_map.
  apply map_ext. intro row. apply shiftRow_length.
Qed.

(** X1.  A draw never changes the dimensions of the image: it has the
    same rows, each as wide as before, whatever the properties are. *)
Theorem spectrogram_keeps_dimensions (props : Props) (st : State) :
  map (@length pixel) (imageData (draw props st))
  = map (@length pixel) (imageData st)
  /\ length (imageData (draw props st)) = length (imageData st).
Proof.
  pose proof (draw_row_lengths props st) as H. split; [exact H|].
  apply (f_equal (@length nat)) in H. now rewrite !length_map in H.
Qed.

Lemma shiftRow_nth (row : list pixel) (x : nat) (p : pixel) :
  nth_error row (S x) = Some p -> nth_error (shiftRow row) x = Some p.
Proof.
  destruct row as [|q rest]; [discriminate|]. cbn [nth_error shiftRow].
  intro H. rewrite nth_error_app1; [exact H|].
  apply nth_error_Some. congruence.
Qed.

Lemma setRight_nth (row : list pixel) (px : pixel) (x : nat) :
  (S x < length row)%nat ->
  nth_error (setRight row px) x = nth_error row x.
Proof.
  intro Hx. destruct row as [|p rest]; [reflexivity|].
  unfold setRight.
  rewrite nth_error_app1 by (rewrite removelast_len; lia).
  rewrite removelast_firstn_len, nth_error_firstn.
  destruct (Nat.ltb_spec x (pred (length (p :: rest)))); [reflexivity|lia].
Qed.

Lemma setRight_last (row : list pixel) (px : pixel) (x : nat) :
  length row = S x -> nth_error (setRight row px) x = Some px.
Proof.
  intro Hx. destruct row as [|p rest]; [discriminate|].
  unfold setRight.
  rewrite nth_error_app2 by (rewrite removelast_len, Hx; simpl; lia).
  rewrite removelast_len, Hx. simpl. now rewrite Nat.sub_diag.
Qed.

(** X2.  A draw scrolls the image by one column: the pixel at column
    [x] of a row is the pixel that was at column [x + 1]. *)
Theorem spectrogram_scrolls_left
  (props : Props) (st : State) (y x : nat) (row : list pixel) (p : pixel) :
  fftHistory props <> [] ->
  nth_error (imageData st) y = Some row ->
  nth_error row (S x) = Some p ->
  exists row',
    nth_error (imageData (draw props st)) y = Some row'
    /\ nth_error row' x = Some p.
Proof.
  intros Hne Hrow Hp. unfold draw.
  destruct (fftHistory props) as [|frame0 rest]; [congruence|].
  cbn [imageData]. eexists. split.
  - apply paintRows_nth. rewrite nth_error_map, Hrow. reflexivity.
  - assert (Hlen : (S x < length row)%nat)
      by (apply nth_error_Some; congruence).
    unfold paintRow. destruct (_ && _).
    + rewrite setRight_nth by (rewrite shiftRow_length; exact Hlen).
      now apply shiftRow_nth.
    + now apply shiftRow_nth.
Qed.

Lemma spectrogram_scrolls_left_witness :
  let props :=
    {| fftData := [0; 5]; fftHistory := [[200; 10]; [0; 5]];
       options := {| logScale := false; showPeaks := false |} |} in
  let black := (0, 0, 0, 0)%Z in
  let red := (255, 0, 0, 255)%Z in
  let st := {| imageData := [[black; red]; [black; black]];
               screen := [[black; red]; [black; black]] |} in
  fftHistory props <> [] /\
  exists row',
    nth_error (imageData (draw props st)) 0 = Some row'
    /\ nth_error row' 0 = Some red.
Proof.
  intros props black red st.
  assert (Hne : fftHistory props <> []) by discriminate.
  split; [exact Hne|].
  exact (spectrogram_scrolls_left props st 0%nat 0%nat [black; red] red
           Hne eq_refl eq_refl).
Defined.

Lemma ofNat_nonneg (n : nat) : 0 <= Num.ofNat n.
Proof.
  unfold Num.ofNat. rewrite <- (Zle_Qle 0). lia.
Qed.

Lemma ofNat_le (n m : nat) : (n <= m)%nat -> Num.ofNat n <= Num.ofNat m.
Proof.
  intro H. unfold Num.ofNat. rewrite <- Zle_Qle. lia.
Qed.

Lemma ofNat_lt (n m : nat) : (n < m)%nat -> Num.ofNat n < Num.ofNat m.
Proof.
  intro H. unfold Num.ofNat. rewrite <- Zlt_Qlt. lia.
Qed.

Lemma ofNat_succ (n : nat) : Num.ofNat (S n) == Num.ofNat n + 1.
Proof.
  unfold Num.ofNat. rewrite Nat2Z.inj_succ, <- Z.add_1_r, inject_Z_plus.
  reflexivity.
Qed.

(** The value whose floor is the bin of row [y]. *)
Lemma bin_value_bounds (height bins y : nat) :
  (y < height)%nat ->
  0 <= (Num.ofNat height - Num.ofNat y - 1)
       * (Num.ofNat bins / Num.ofNat height)
  /\ ((0 < bins)%nat ->
      (Num.ofNat height - Num.ofNat y - 1)
      * (Num.ofNat bins / Num.ofNat height) < Num.ofNat bins).
Proof.
  intro Hy.
  pose proof (ofNat_le (S y) height Hy) as Hk. rewrite ofNat_succ in Hk.
  pose proof (ofNat_nonneg y) as Hk0.
  pose proof (ofNat_nonneg bins) as Hb0.
  assert (Hh : 0 < Num.ofNat height) by Lqa.lra.
  set (H := Num.ofNat height) in *. set (K := Num.ofNat y) in *.
  set (B := Num.ofNat bins) in *.
  assert (Hq : 0 <= B / H).
  { apply Qle_shift_div_l; [exact Hh | Lqa.lra]. }
  split.
  - apply Qmult_le_0_compat; [Lqa.lra | exact Hq].
  - intro Hb. assert (HB : 0 < B) by (apply (ofNat_lt 0 bins Hb)).
    apply (Qmult_lt_r _ _ H Hh).
    assert (E : (H - K - 1) * (B / H) * H == (H - K - 1) * B)
      by (field; Lqa.lra).
    rewrite E. Lqa.nra.
Qed.

Lemma binOf_in_range (height bins y : nat) :
  (y < height)%nat -> (0 < bins)%nat ->
  (0 <= binOf height bins y < Z.of_nat bins)%Z.
Proof.
  intros Hy Hb. destruct (bin_value_bounds height bins y Hy) as [Hlo Hhi].
  specialize (Hhi Hb). unfold binOf. split.
  - rewrite <- (Qfloor_Z 0). apply Qfloor_resp_le, Hlo.
  - rewrite Zlt_Qlt.
    eapply Qle_lt_trans; [apply Qfloor_le | exact Hhi].
Qed.

(** X3.  The bin shown in a row.  For every row of the image the bin
    index is within the bins in use, so the range check in [draw] can
    only fail when there are no bins; the bottom row shows bin 0 and
    the bin never grows from a row to the row below it. *)
Theorem spectrogram_bin_in_range (height bins y : nat) :
  (y < height)%nat ->
  ((0 < bins)%nat ->
   (0 <= binOf height bins y < Z.of_nat bins)%Z) /\
  binOf height bins (height - 1) = 0%Z /\
  (forall y', (y <= y')%nat -> (y' < height)%nat ->
     (binOf height bins y' <= binOf height bins y)%Z).
Proof.
  intro Hy. split; [|split].
  - intro Hb. now apply binOf_in_range.
  - unfold binOf.
    assert (E : (Num.ofNat height - Num.ofNat (height - 1) - 1)
                * (Num.ofNat bins / Num.ofNat height) == 0).
    { replace height with (S (height - 1)) at 1 by lia.
      rewrite ofNat_succ. ring. }
    rewrite E. reflexivity.
  - intros y' Hle Hy'. unfold binOf. apply Qfloor_resp_le.
    pose proof (ofNat_le y y' Hle) as Hk.
    pose proof (ofNat_le (S y') height Hy') as Hk'. rewrite ofNat_succ in Hk'.
    pose proof (ofNat_nonneg y) as Hk0.
    pose proof (ofNat_nonneg bins) as Hb0.
    assert (Hq : 0 <= Num.ofNat bins / Num.ofNat height)
      by (apply Qle_shift_div_l; Lqa.lra).
    apply Qmult_le_compat_r; [Lqa.lra | exact Hq].
Qed.

Lemma spectrogram_bin_in_range_witness :
  (3 < 5)%nat /\ (0 < 4)%nat /\
  (0 <= binOf 5 4 3 < 4)%Z /\ binOf 5 4 4 = 0%Z.
Proof.
  assert (Hy : (3 < 5)%nat) by lia.
  assert (Hb : (0 < 4)%nat) by lia.
  destruct (spectrogram_bin_in_range 5 4 3 Hy) as [Hr [Hb0 _]].
  split; [exact Hy|]. split; [exact Hb|].
  split; [exact (Hr Hb) | exact Hb0].
Defined.

Lemma paintRows_no_bins height mx data (rows : ImageData) :
  forall y, paintRows height 0 mx data y rows = rows.
Proof.
  induction rows as [|row rows IH]; intro y; [reflexivity|].
  cbn [paintRows]. rewrite IH. f_equal.
  unfold paintRow.
  assert (E : binOf height 0 y = 0%Z).
  { unfold binOf.
    assert (Ez : (Num.ofNat height - Num.ofNat y - 1)
                 * (Num.ofNat 0 / Num.ofNat height) == 0).
    { change (Num.ofNat 0) with 0. unfold Qdiv. ring. }
    rewrite Ez. reflexivity. }
  rewrite E. reflexivity.
Qed.

(** X4.  What is painted depends on the oldest frame of the history.
    If it has at least one bin, every row with a pixel gets its last
    pixel painted, opaque, from a bin of the current frame that is
    below both the image height and the oldest frame's length.  If it
    is empty, nothing is painted at all: the image is only shifted,
    whatever the current frame holds. *)
Theorem spectrogram_right_column
  (props : Props) (st : State) (frame0 : list Q) (rest : list (list Q)) :
  fftHistory props = frame0 :: rest ->
  (frame0 <> [] ->
   forall y row x,
     nth_error (imageData st) y = Some row -> length row = S x ->
     exists row' bin,
       nth_error (imageData (draw props st)) y = Some row'
       /\ (bin < length (imageData st))%nat
       /\ (bin < length frame0)%nat
       /\ nth_error row' x
          = Some (binPixel (maxValue (fftHistory props)) (fftData props) bin)
       /\ snd (binPixel (maxValue (fftHistory props)) (fftData props) bin)
          = 255%Z) /\
  (frame0 = [] -> imageData (draw props st) = map shiftRow (imageData st)).
Proof.
  intro Eh. split.
  - intros Hne y row x Hrow Hlen.
    assert (Hy : (y < length (imageData st))%nat)
      by (apply nth_error_Some; congruence).
    assert (Hbins : (0 < Nat.min (length (imageData st)) (length frame0))%nat).
    { destruct frame0; [congruence|]. simpl. lia. }
    destruct (binOf_in_range (length (imageData st))
                (Nat.min (length (imageData st)) (length frame0)) y Hy Hbins)
      as [Hlo Hhi].
    unfold draw. rewrite Eh. cbn [imageData].
    eexists. exists (Z.to_nat (binOf (length (imageData st))
                        (Nat.min (length (imageData st)) (length frame0)) y)).
    split; [|split; [|split; [|split]]].
    + rewrite (paintRows_nth _ _ _ _ _ 0%nat y (shiftRow row))
        by (rewrite nth_error_map, Hrow; reflexivity).
      reflexivity.
    + lia.
    + lia.
    + unfold paintRow. cbn [Nat.add].
      apply Z.leb_le in Hlo. apply Z.ltb_lt in Hhi. rewrite Hlo, Hhi.
      cbn [andb]. apply setRight_last. now rewrite shiftRow_length.
    + reflexivity.
  - intros ->. unfold draw. rewrite Eh. cbn [imageData length].
    rewrite Nat.min_0_r. apply paintRows_no_bins.
Qed.

Lemma spectrogram_right_column_witness :
  let props :=
    {| fftData := [0; 5]; fftHistory := [[200; 10]; [0; 5]];
       options := {| logScale := false; showPeaks := false |} |} in
  let black := (0, 0, 0, 0)%Z in
  let st := {| imageData := [[black; black]; [black; black]];
               screen := [[black; black]; [black; black]] |} in
  fftHistory props = [200; 10] :: [[0; 5]] /\
  [200; 10] <> [] /\
  exists row' bin,
    nth_error (imageData (draw props st)) 1 = Some row'
    /\ (bin < 2)%nat
    /\ nth_error row' 1
       = Some (binPixel (maxValue (fftHistory props)) (fftData props) bin).
Proof.
  intros props black st.
  assert (Hne : [200; 10] <> (@nil Q)) by discriminate.
  destruct (proj1 (spectrogram_right_column props st [200; 10] [[0; 5]]
                     eq_refl) Hne 1%nat [black; black] 1%nat eq_refl eq_refl)
    as (row' & bin & Hrow & Hb & _ & Hpx & _).
  split; [reflexivity|]. split; [exact Hne|].
  exists row', bin. auto.
Defined.

Lemma floor_between (a : Q) (lo hi : Z) :
  inject_Z lo <= a -> a <= inject_Z hi -> (lo <= Qfloor a <= hi)%Z.
Proof.
  intros Hlo Hhi. split.
  - rewrite <- (Qfloor_Z lo). now apply Qfloor_resp_le.
  - rewrite <- (Qfloor_Z hi). now apply Qfloor_resp_le.
Qed.

(** X5.  Every colour of the spectrogram is a valid pixel: whatever
    number [valueToColor] is given, each channel is between 0 and
    255. *)
Theorem valueToColor_channels_in_range (value : Q) :
  (0 <= r (valueToColor value) <= 255)%Z /\
  (0 <= g (valueToColor value) <= 255)%Z /\
  (0 <= b (valueToColor value) <= 255)%Z.
Proof.
  destruct (valueToColor_table value) as (T1 & T2 & T3). cbv zeta in *.
  assert (Hlo : 0 <= Qmin 255 (Qmax 0 value))
    by (apply Q.min_glb; [discriminate | apply Q.le_max_l]).
  assert (Hhi : Qmin 255 (Qmax 0 value) <= 255) by apply Q.le_min_l.
  set (v := Qmin 255 (Qmax 0 value)) in *.
  destruct (Qlt_le_dec v 85) as [A|A].
  - rewrite (T1 A). cbn [r g b].
    pose proof (floor_between (v * 3) 0 255) as F.
    cbn [inject_Z] in F. 
    assert (0 <= Qfloor (v * 3) <= 255)%Z
      by (apply F; unfold inject_Z; Lqa.lra).
    lia.
  - destruct (Qlt_le_dec v 170) as [B|B].
    + rewrite (T2 A B). cbn [r g b].
      assert (0 <= Qfloor ((v - 85) * 3) <= 255)%Z
        by (apply floor_between; unfold inject_Z; Lqa.lra).
      lia.
    + rewrite (T3 B). cbn [r g b].
      assert (0 <= Qfloor ((v - 170) * 3) <= 255)%Z
        by (apply floor_between; unfold inject_Z; Lqa.lra).
      lia.
Qed.

Lemma last_repeat (px : pixel) (n : nat) : last (repeat px n) px = px.
Proof.
  induction n as [|n IH]; [reflexivity|].
  cbn [repeat last]. destruct (repeat px n) eqn:E; [reflexivity|].
  exact IH.
Qed.

Lemma shiftRow_repeat (px : pixel) (n : nat) :
  shiftRow (repeat px n) = repeat px n.
Proof.
  destruct n as [|n]; [reflexivity|].
  unfold shiftRow. cbn [repeat].
  change (px :: repeat px n) with (repeat px (S n)) at 1.
  rewrite last_repeat.
  change (repeat px n ++ repeat px 1 = repeat px (1 + n)).
  rewrite <- repeat_app. f_equal. lia.
Qed.

Lemma removelast_repeat (px : pixel) (n : nat) :
  removelast (repeat px (S n)) = repeat px n.
Proof.
  rewrite removelast_firstn_len, repeat_length. cbn [pred].
  change (S n) with (1 + n)%nat. rewrite Nat.add_comm, repeat_app.
  rewrite firstn_app, repeat_length, Nat.sub_diag, firstn_O, app_nil_r.
  rewrite firstn_all2 by (rewrite repeat_length; lia). reflexivity.
Qed.

Lemma blank_row_split (width : nat) :
  repeat (0, 0, 0, 0)%Z (S width)
  = repeat (0, 0, 0, 0)%Z width ++ [(0, 0, 0, 0)%Z].
Proof.
  change (S width) with (1 + width)%nat.
  rewrite Nat.add_comm, repeat_app. reflexivity.
Qed.

Lemma paintRows_blank h bins mx data (width count : nat) :
  forall y,
    Forall (fun row => exists px, row = repeat (0, 0, 0, 0)%Z width ++ [px])
      (paintRows h bins mx data y
         (repeat (repeat (0, 0, 0, 0)%Z (S width)) count)).
Proof.
  induction count as [|count IH]; intro y; [constructor|].
  cbn [repeat paintRows]. constructor; [|apply IH].
  unfold paintRow. destruct (_ && _).
  - unfold setRight.
    change ((0, 0, 0, 0)%Z :: repeat (0, 0, 0, 0)%Z width)
      with (repeat (0, 0, 0, 0)%Z (S width)).
    rewrite removelast_repeat. now eexists.
  - eexists. apply blank_row_split.
Qed.

(** X6.  Resizing discards the picture.  After [resizeCanvas] the
    image has the new height and width, and in every row all pixels
    but the last are transparent black: the columns accumulated before
    are gone, only the column of the current frame is drawn. *)
Theorem spectrogram_resize_discards_picture
  (width height : nat) (props : Props) (st : State) :
  let st' := SpectrogramResize.resizeCanvas (S width) height props st in
  length (imageData st') = height /\
  Forall (fun row =>
            exists px, row = repeat (0, 0, 0, 0)%Z width ++ [px])
         (imageData st').
Proof.
  intro st'. subst st'.
  unfold SpectrogramResize.resizeCanvas, SpectrogramResize.createImageData.
  split.
  - pose proof (draw_row_lengths props
                  {| imageData := repeat (repeat (0, 0, 0, 0)%Z (S width)) height;
                     screen := repeat (repeat (0, 0, 0, 0)%Z (S width)) height |})
      as Hd.
    apply (f_equal (@length nat)) in Hd. rewrite !length_map in Hd.
    rewrite Hd. cbn [imageData]. apply repeat_length.
  - unfold draw. destruct (fftHistory props) as [|frame0 rest];
      cbn [imageData].
    + apply Forall_forall. intros row Hin. apply repeat_spec in Hin.
      subst row. eexists. apply blank_row_split.
    + rewrite map_repeat, shiftRow_repeat. apply paintRows_blank.
Qed.

End SpectrogramImage.

(** ** The bar renderers: geometry *)

Section BarGeometry.
Import Canvas HeatMap PeakTracker Geometry.

Lemma bars_barHeights cv sp n bw bs abw mx (data : list Q) :
  forall i peaks holds ps hs cmds,
    length peaks = length data -> length holds = length data ->
    SpectrumBars.bars cv sp n bw bs abw mx i data peaks holds = (ps, hs, cmds) ->
    barHeights cmds = map (fun v => v / mx * height cv) data.
Proof.
  induction data as [|v data IH]; intros i [|p peaks] [|h holds] ps hs cmds;
    try discriminate.
  - intros _ _ [= _ _ <-]. reflexivity.
  - intros [= Hp] [= Hh]. rewrite bars_cons.
    destruct (track sp _ p h) as [p' h'].
    destruct (SpectrumBars.bars cv sp n bw bs abw mx (S i) data peaks holds)
      as [[ps' hs'] cmds'] eqn:E.
    intro Heq. apply (f_equal snd) in Heq. cbn [snd] in Heq. subst cmds.
    rewrite barHeights_app, barHeights_drawBar. cbn [app map]. f_equal.
    exact (IH _ _ _ _ _ _ Hp Hh E).
Qed.

Lemma draw_barHeights cv props st :
  fftData props <> [] ->
  length (SpectrumBars.peakHoldFrames st)
  = length (SpectrumBars.peakValues st) ->
  barHeights (SpectrumBars.screen (SpectrumBars.draw cv props st))
  = map (fun v => v / SpectrumBars.maxValue (fftData props) * height cv)
      (fftData props).
Proof.
  intros Hne Hwf.
  destruct (fftData props) as [|v data] eqn:E; [congruence|].
  rewrite (bars_draw_unfold cv props st v data E). cbv zeta. rewrite E.
  pose proof (initPeaks_length (length (v :: data))
                (SpectrumBars.peakValues st)
                (SpectrumBars.peakHoldFrames st)) as Hlen.
  pose proof (initPeaks_wf (length (v :: data)) _ _ Hwf) as Hw.
  destruct (initPeaks _ (SpectrumBars.peakValues st) _) as [peaks holds].
  cbn [fst snd] in Hlen, Hw.
  match goal with
  | |- context [SpectrumBars.bars ?c ?s ?k ?a ?b ?d ?m ?i ?l peaks holds] =>
      destruct (SpectrumBars.bars c s k a b d m i l peaks holds)
        as [[ps hs] cmds] eqn:Hb
  end.
  cbn [SpectrumBars.screen].
  eapply bars_barHeights; [| |exact Hb]; congruence.
Qed.

Lemma scaled_in_range (v mx h : Q) :
  0 <= v -> v <= mx -> 0 < mx -> 0 <= h ->
  0 <= v / mx * h /\ v / mx * h <= h.
Proof.
  intros Hv Hle Hmx Hh.
  assert (H0 : 0 <= v / mx) by (apply Qle_shift_div_l; Lqa.lra).
  assert (H1 : v / mx <= 1) by (apply Qle_shift_div_r; Lqa.lra).
  split; Lqa.nra.
Qed.

Lemma scaled_full (mx h : Q) : 0 < mx -> mx / mx * h == h.
Proof. intro H. field. Lqa.lra. Qed.

(** X7.  The bars of SpectrumBars.vue, for a state whose two peak
    arrays have equal length.  There is one bar per bin, of height
    [value / maxValue * height].  For non-negative magnitudes no bar is
    taller than the canvas, and as soon as some magnitude reaches 1 the
    tallest bar fills the full height, however small the signal. *)
Theorem vue_bars_fit_canvas (cv : canvas) (props : Props)
  (st : SpectrumBars.State) :
  fftData props <> [] ->
  length (SpectrumBars.peakHoldFrames st)
  = length (SpectrumBars.peakValues st) ->
  let bars := barHeights (SpectrumBars.screen (SpectrumBars.draw cv props st)) in
  bars = map (fun v => v / SpectrumBars.maxValue (fftData props) * height cv)
           (fftData props) /\
  (0 <= height cv -> Forall (fun v => 0 <= v) (fftData props) ->
   Forall (fun h => 0 <= h /\ h <= height cv) bars) /\
  (Exists (fun v => 1 <= v) (fftData props) ->
   Exists (fun h => h == height cv) bars).
Proof.
  intros Hne Hwf bars. subst bars. rewrite (draw_barHeights cv props st Hne Hwf).
  pose proof (maxWith_floor 1 (fftData props)) as Hfloor.
  fold (SpectrumBars.maxValue (fftData props)) in Hfloor.
  split; [reflexivity|]. split.
  - intros Hh Hpos. apply Forall_map, Forall_forall. intros v Hin.
    apply scaled_in_range; try Lqa.lra.
    + exact (proj1 (Forall_forall _ _) Hpos v Hin).
    + apply maxWith_upper, Hin.
  - intro Hex. apply Exists_map, Exists_exists.
    destruct (maxWith_attained 1 (fftData props)) as [E|Hin].
    + apply Exists_exists in Hex. destruct Hex as (v & Hin & Hv).
      exists v. split; [exact Hin|].
      pose proof (maxWith_upper 1 (fftData props) v Hin) as Hup.
      unfold SpectrumBars.maxValue. rewrite E in *.
      assert (Ev : v == 1) by Lqa.lra. rewrite Ev. field.
    + exists (SpectrumBars.maxValue (fftData props)). split; [exact Hin|].
      apply scaled_full. Lqa.lra.
Qed.

Lemma vue_bars_fit_canvas_witness :
  let cv := {| width := 800; height := 500 |} in
  let props :=
    {| fftData := [3; 12; 6]; fftHistory := [];
       options := {| logScale := false; showPeaks := true |} |} in
  fftData props <> [] /\
  Forall (fun h => 0 <= h /\ h <= 500)
    (barHeights
       (SpectrumBars.screen (SpectrumBars.draw cv props SpectrumBars.initial)))
  /\ Exists (fun h => h == 500)
       (barHeights
          (SpectrumBars.screen
             (SpectrumBars.draw cv props SpectrumBars.initial))).
Proof.
  intros cv props.
  assert (Hne : fftData props <> []) by discriminate.
  destruct (vue_bars_fit_canvas cv props SpectrumBars.initial Hne eq_refl)
    as (_ & Hfit & Hfull).
  split; [exact Hne|]. split.
  - apply Hfit; [discriminate|].
    repeat constructor; discriminate.
  - apply Hfull. constructor. discriminate.
Defined.

Lemma map_nth_seq {A : Type} (d : A) (l pre : list A) :
  map (fun i => nth i (pre ++ l) d) (seq (length pre) (length l)) = l.
Proof.
  revert pre. induction l as [|x l IH]; intro pre; [reflexivity|].
  cbn [length seq map]. f_equal.
  - rewrite app_nth2, Nat.sub_diag by lia. reflexivity.
  - specialize (IH (pre ++ [x])). rewrite <- app_assoc in IH.
    rewrite length_app in IH. cbn [length app] in IH.
    rewrite Nat.add_1_r in IH. exact IH.
Qed.

Lemma entry_barHeights minimum cv sp (magnitudes : list Q) :
  barHeights (Entry.drawFrequencyBars minimum cv sp magnitudes)
  = map (fun v => v / Entry.barsMax minimum magnitudes * height cv) magnitudes.
Proof.
  unfold Entry.drawFrequencyBars.
  assert (H : forall ixs,
             barHeights (flat_map (Entry.frequencyBar minimum cv sp magnitudes) ixs)
             = map (fun i => nth i magnitudes 0
                             / Entry.barsMax minimum magnitudes * height cv) ixs).
  { induction ixs as [|i ixs IH]; [reflexivity|].
    cbn [flat_map map].
    now rewrite barHeights_app, barHeights_frequencyBar, IH. }
  rewrite H.
  rewrite <- (map_map (fun i => nth i magnitudes 0)
                (fun v => v / Entry.barsMax minimum magnitudes * height cv)).
  f_equal. apply (map_nth_seq 0 magnitudes []).
Qed.

Lemma barsMax_upper minimum (magnitudes : list Q) (v : Q) :
  In v magnitudes -> v <= Entry.barsMax minimum magnitudes.
Proof.
  intro Hin. unfold Entry.barsMax.
  eapply Qle_trans; [apply (maxLoop_upper 0 magnitudes v Hin)|].
  apply Q.le_max_l.
Qed.

(** X8.  The bars of [drawFrequencyBars] in both entry points (floor 1
    and floor 0.1).  There is one bar per magnitude; for non-negative
    magnitudes no bar is taller than the canvas; and the tallest bar
    fills the full height as soon as some magnitude reaches the
    floor. *)
Theorem entry_bars_fit_canvas (minimum : Q) (cv : canvas) (sp : bool)
  (magnitudes : list Q) :
  0 < minimum ->
  let bars := barHeights (Entry.drawFrequencyBars minimum cv sp magnitudes) in
  length bars = length magnitudes /\
  (0 <= height cv -> Forall (fun v => 0 <= v) magnitudes ->
   Forall (fun h => 0 <= h /\ h <= height cv) bars) /\
  (Exists (fun v => minimum <= v) magnitudes ->
   Exists (fun h => h == height cv) bars).
Proof.
  intros Hmin bars. subst bars. rewrite entry_barHeights.
  assert (Hfloor : minimum <= Entry.barsMax minimum magnitudes)
    by apply Q.le_max_r.
  split; [apply length_map|]. split.
  - intros Hh Hpos. apply Forall_map, Forall_forall. intros v Hin.
    apply scaled_in_range; try Lqa.lra.
    + exact (proj1 (Forall_forall _ _) Hpos v Hin).
    + apply barsMax_upper, Hin.
  - intro Hex. apply Exists_map, Exists_exists.
    unfold Entry.barsMax in *.
    destruct (Qmax_cases (Num.maxLoop 0 magnitudes) minimum) as [E|E].
    + destruct (maxLoop_attained 0 magnitudes) as [E0|Hin].
      * exfalso. rewrite E, E0 in Hfloor. Lqa.lra.
      * exists (Num.maxLoop 0 magnitudes). split; [exact Hin|].
        rewrite E. apply scaled_full. rewrite E in Hfloor. Lqa.lra.
    + apply Exists_exists in Hex. destruct Hex as (v & Hin & Hv).
      exists v. split; [exact Hin|].
      pose proof (maxLoop_upper 0 magnitudes v Hin) as Hup.
      pose proof (Q.le_max_l (Num.maxLoop 0 magnitudes) minimum) as Hl.
      rewrite E in *.
      assert (Ev : v == minimum) by Lqa.lra. rewrite Ev.
      apply scaled_full, Hmin.
Qed.

Lemma entry_bars_fit_canvas_witness :
  let cv := {| width := 800; height := 500 |} in
  0 < 0.1 /\
  Forall (fun h => 0 <= h /\ h <= 500)
    (barHeights (Simulated.drawFrequencyBars cv true [0.5; 2; 1])) /\
  Exists (fun h => h == 500)
    (barHeights (MainTs.drawFrequencyBars cv true [3; 12; 6])).
Proof.
  intro cv.
  assert (H1 : 0 < 0.1) by reflexivity.
  assert (H2 : 0 < 1) by reflexivity.
  split; [exact H1|]. split.
  - apply (proj1 (proj2 (entry_bars_fit_canvas 0.1 cv true [0.5; 2; 1] H1)));
      [discriminate|].
    repeat constructor; discriminate.
  - apply (proj2 (proj2 (entry_bars_fit_canvas 1 cv true [3; 12; 6] H2))).
    constructor. discriminate.
Defined.

End BarGeometry.

(** ** The peak arrays of the Vue renderers *)

Section PeakInvariants.
Import Canvas PeakTracker Geometry.

Lemma track_on_canvas (sp : bool) (H bh p : Q) (k : nat) :
  0 <= bh -> bh <= H -> 0 <= p -> p <= H -> (k <= PEAK_HOLD_TIME)%nat ->
  (0 <= fst (track sp bh p k) /\ fst (track sp bh p k) <= H)
  /\ (snd (track sp bh p k) <= PEAK_HOLD_TIME)%nat.
Proof.
  intros Hb0 Hb1 Hp0 Hp1 Hk. unfold track, updatePeak.
  destruct sp; [|cbn [fst snd]; auto].
  destruct (Num.ltb p bh); [cbn [fst snd]; auto|].
  destruct k as [|k]; cbn [fst snd].
  - unfold PEAK_FALL_SPEED. repeat split; try Lqa.lra. lia.
  - repeat split; try Lqa.lra. lia.
Qed.

Lemma bars_on_canvas cv sp n bw bs abw mx (data : list Q) :
  0 <= height cv -> 0 < mx ->
  Forall (fun v => 0 <= v /\ v <= mx) data ->
  forall i peaks holds ps hs cmds,
    Forall (fun p => 0 <= p /\ p <= height cv) peaks ->
    Forall (fun k => (k <= PEAK_HOLD_TIME)%nat) holds ->
    SpectrumBars.bars cv sp n bw bs abw mx i data peaks holds = (ps, hs, cmds) ->
    Forall (fun p => 0 <= p /\ p <= height cv) ps
    /\ Forall (fun k => (k <= PEAK_HOLD_TIME)%nat) hs.
Proof.
  intros Hh Hmx Hdata. induction Hdata as [|v data [Hv0 Hv1] _ IH];
    intros i peaks holds ps hs cmds Hp Hk.
  - destruct peaks, holds; intros [= <- <- _]; auto.
  - destruct peaks as [|p peaks]; [intros [= <- <- _]; auto|].
    destruct holds as [|k holds]; [intros [= <- <- _]; auto|].
    rewrite bars_cons.
    destruct (scaled_in_range v mx (height cv) Hv0 Hv1 Hmx Hh) as [Hb0 Hb1].
    inversion Hp as [|? ? [Hp0 Hp1] Hp']; subst.
    inversion Hk as [|? ? Hk0 Hk']; subst.
    pose proof (track_on_canvas sp (height cv) _ p k Hb0 Hb1 Hp0 Hp1 Hk0) as Ht.
    destruct (track sp _ p k) as [p' k']. cbn [fst snd] in Ht.
    destruct (SpectrumBars.bars cv sp n bw bs abw mx (S i) data peaks holds)
      as [[ps' hs'] cmds'] eqn:E.
    intros [= <- <- _].
    destruct (IH _ _ _ _ _ _ Hp' Hk' E) as [IH1 IH2].
    split; constructor; tauto.
Qed.

Lemma line_cons cv sp spacing mx i value data peak peaks hold holds :
  SpectrumLine.line cv sp spacing mx i (value :: data) (peak :: peaks)
    (hold :: holds)
  = let '(peak', hold') := track sp (value / mx * height cv) peak hold in
    let '(ps, hs, cmds) :=
      SpectrumLine.line cv sp spacing mx (S i) data peaks holds in
    (peak' :: ps, hold' :: hs,
     SpectrumLine.pathTo i (Num.scale (Num.ofNat i) spacing)
       (height cv - value / mx * height cv) :: cmds).
Proof. reflexivity. Qed.

Lemma line_on_canvas cv sp spacing mx (data : list Q) :
  0 <= height cv -> 0 < mx ->
  Forall (fun v => 0 <= v /\ v <= mx) data ->
  forall i peaks holds ps hs cmds,
    Forall (fun p => 0 <= p /\ p <= height cv) peaks ->
    Forall (fun k => (k <= PEAK_HOLD_TIME)%nat) holds ->
    SpectrumLine.line cv sp spacing mx i data peaks holds = (ps, hs, cmds) ->
    Forall (fun p => 0 <= p /\ p <= height cv) ps
    /\ Forall (fun k => (k <= PEAK_HOLD_TIME)%nat) hs.
Proof.
  intros Hh Hmx Hdata. induction Hdata as [|v data [Hv0 Hv1] _ IH];
    intros i peaks holds ps hs cmds Hp Hk.
  - destruct peaks, holds; intros [= <- <- _]; auto.
  - destruct peaks as [|p peaks]; [intros [= <- <- _]; auto|].
    destruct holds as [|k holds]; [intros [= <- <- _]; auto|].
    rewrite line_cons.
    destruct (scaled_in_range v mx (height cv) Hv0 Hv1 Hmx Hh) as [Hb0 Hb1].
    inversion Hp as [|? ? [Hp0 Hp1] Hp']; subst.
    inversion Hk as [|? ? Hk0 Hk']; subst.
    pose proof (track_on_canvas sp (height cv) _ p k Hb0 Hb1 Hp0 Hp1 Hk0) as Ht.
    destruct (track sp _ p k) as [p' k']. cbn [fst snd] in Ht.
    destruct (SpectrumLine.line cv sp spacing mx (S i) data peaks holds)
      as [[ps' hs'] cmds'] eqn:E.
    intros [= <- <- _].
    destruct (IH _ _ _ _ _ _ Hp' Hk' E) as [IH1 IH2].
    split; constructor; tauto.
Qed.

Lemma initPeaks_on_canvas (H : Q) (n : nat) (peaks : list Q) (holds : list nat) :
  0 <= H ->
  Forall (fun p => 0 <= p /\ p <= H) peaks ->
  Forall (fun k => (k <= PEAK_HOLD_TIME)%nat) holds ->
  Forall (fun p => 0 <= p /\ p <= H) (fst (initPeaks n peaks holds))
  /\ Forall (fun k => (k <= PEAK_HOLD_TIME)%nat) (snd (initPeaks n peaks holds)).
Proof.
  intros HH Hp Hk. unfold initPeaks.
  destruct (Nat.eqb _ _); cbn [fst snd]; [auto|].
  split; apply Forall_forall; intros x Hin; apply repeat_spec in Hin; subst.
  - split; Lqa.lra.
  - lia.
Qed.

Lemma data_within_max (data : list Q) :
  Forall (fun v => 0 <= v) data ->
  Forall (fun v => 0 <= v /\ v <= Num.maxWith 1 data) data.
Proof.
  intro Hpos. apply Forall_forall. intros v Hin. split.
  - exact (proj1 (Forall_forall _ _) Hpos v Hin).
  - apply maxWith_upper, Hin.
Qed.

Lemma bars_draw_on_canvas cv props st :
  0 <= height cv ->
  Forall (fun v => 0 <= v) (fftData props) ->
  peaksOnCanvas (height cv) (SpectrumBars.peakValues st)
    (SpectrumBars.peakHoldFrames st) ->
  peaksOnCanvas (height cv)
    (SpectrumBars.peakValues (SpectrumBars.draw cv props st))
    (SpectrumBars.peakHoldFrames (SpectrumBars.draw cv props st)).
Proof.
  intros Hh Hdata (Hwf & Hp & Hk).
  split; [now apply bars_draw_wf|].
  destruct (fftData props) as [|v data] eqn:E.
  - unfold SpectrumBars.draw. rewrite E. auto.
  - rewrite (bars_draw_unfold cv props st v data E). cbv zeta. rewrite E.
    pose proof (initPeaks_on_canvas (height cv) (length (v :: data)) _ _
                  Hh Hp Hk) as [Hp' Hk'].
    destruct (initPeaks _ (SpectrumBars.peakValues st) _) as [peaks holds].
    cbn [fst snd] in Hp', Hk'.
    match goal with
    | |- context [SpectrumBars.bars ?c ?s ?k ?a ?b ?d ?m ?i ?l peaks holds] =>
        destruct (SpectrumBars.bars c s k a b d m i l peaks holds)
          as [[ps hs] cmds] eqn:Hb
    end.
    cbn [SpectrumBars.peakValues SpectrumBars.peakHoldFrames].
    eapply bars_on_canvas; [exact Hh| |apply data_within_max, Hdata| | |exact Hb];
      try assumption.
    pose proof (maxWith_floor 1 (v :: data)). unfold SpectrumBars.maxValue.
    Lqa.lra.
Qed.

Lemma line_draw_on_canvas cv props st :
  0 <= height cv ->
  Forall (fun v => 0 <= v) (fftData props) ->
  peaksOnCanvas (height cv) (SpectrumLine.peakValues st)
    (SpectrumLine.peakHoldFrames st) ->
  peaksOnCanvas (height cv)
    (SpectrumLine.peakValues (SpectrumLine.draw cv props st))
    (SpectrumLine.peakHoldFrames (SpectrumLine.draw cv props st)).
Proof.
  intros Hh Hdata (Hwf & Hp & Hk).
  split; [now apply line_draw_wf|].
  destruct (fftData props) as [|v data] eqn:E.
  - unfold SpectrumLine.draw. rewrite E. auto.
  - rewrite (line_draw_unfold cv props st v data E). cbv zeta. rewrite E.
    pose proof (initPeaks_on_canvas (height cv) (length (v :: data)) _ _
                  Hh Hp Hk) as [Hp' Hk'].
    destruct (initPeaks _ (SpectrumLine.peakValues st) _) as [peaks holds].
    cbn [fst snd] in Hp', Hk'.
    match goal with
    | |- context [SpectrumLine.line ?c ?s ?k ?m ?i ?l peaks holds] =>
        destruct (SpectrumLine.line c s k m i l peaks holds)
          as [[ps hs] cmds] eqn:Hb
    end.
    cbn [SpectrumLine.peakValues SpectrumLine.peakHoldFrames].
    eapply line_on_canvas; [exact Hh| |apply data_within_max, Hdata| | |exact Hb];
      try assumption.
    pose proof (maxWith_floor 1 (v :: data)). unfold SpectrumLine.maxValue.
    Lqa.lra.
Qed.

(** X9.  An invariant of the two Vue renderers with peak hold.  Start
    from the freshly mounted component and draw any run of frames of
    non-negative magnitudes on a canvas that keeps its size: whatever
    the frames, their bin counts and the peak option are, the two peak
    arrays stay in step, every held peak is a height between 0 and the
    canvas height (so its marker is on the canvas), and no hold counter
    exceeds [PEAK_HOLD_TIME]. *)
Theorem peaks_stay_on_canvas (cv : canvas) (frames : list Props) :
  0 <= height cv ->
  Forall (fun props => Forall (fun v => 0 <= v) (fftData props)) frames ->
  let stB :=
    SpectrumBars.drawAll SpectrumBars.initial (map (pair cv) frames) in
  let stL :=
    SpectrumLine.drawAll SpectrumLine.initial (map (pair cv) frames) in
  peaksOnCanvas (height cv) (SpectrumBars.peakValues stB)
    (SpectrumBars.peakHoldFrames stB)
  /\ peaksOnCanvas (height cv) (SpectrumLine.peakValues stL)
       (SpectrumLine.peakHoldFrames stL).
Proof.
  intros Hh Hframes. cbv zeta. split.
  - assert (H0 : peaksOnCanvas (height cv)
                   (SpectrumBars.peakValues SpectrumBars.initial)
                   (SpectrumBars.peakHoldFrames SpectrumBars.initial))
      by (repeat split; constructor).
    revert H0. generalize SpectrumBars.initial as st.
    induction Hframes as [|props frames Hprops _ IH]; intros st Hst;
      [exact Hst|].
    cbn [map SpectrumBars.drawAll fold_left fst snd].
    apply IH. now apply bars_draw_on_canvas.
  - assert (H0 : peaksOnCanvas (height cv)
                   (SpectrumLine.peakValues SpectrumLine.initial)
                   (SpectrumLine.peakHoldFrames SpectrumLine.initial))
      by (repeat split; constructor).
    revert H0. generalize SpectrumLine.initial as st.
    induction Hframes as [|props frames Hprops _ IH]; intros st Hst;
      [exact Hst|].
    cbn [map SpectrumLine.drawAll fold_left fst snd].
    apply IH. now apply line_draw_on_canvas.
Qed.

Lemma peaks_stay_on_canvas_witness :
  let cv := {| width := 800; height := 500 |} in
  let frame data show :=
    {| fftData := data; fftHistory := [];
       options := {| logScale := false; showPeaks := show |} |} in
  let frames := [frame [3; 12; 6] true; frame [1; 0] true; frame [] false] in
  0 <= height cv /\
  peaksOnCanvas 500
    (SpectrumBars.peakValues
       (SpectrumBars.drawAll SpectrumBars.initial (map (pair cv) frames)))
    (SpectrumBars.peakHoldFrames
       (SpectrumBars.drawAll SpectrumBars.initial (map (pair cv) frames))).
Proof.
  intros cv frame frames.
  assert (Hh : 0 <= height cv) by discriminate.
  split; [exact Hh|].
  apply (peaks_stay_on_canvas cv frames Hh).
  repeat constructor; discriminate.
Defined.

(** X10.  A frame whose bin count differs from the length of the peak
    arrays makes both renderers forget every held peak: the draw is the
    draw of the freshly mounted component.  After any draw of a
    non-empty frame the peak array has one entry per bin. *)
Theorem bin_count_change_resets_peaks (cv : canvas) (props : Props)
  (stB : SpectrumBars.State) (stL : SpectrumLine.State) :
  fftData props <> [] ->
  (length (SpectrumBars.peakValues stB) <> length (fftData props) ->
   SpectrumBars.draw cv props stB
   = SpectrumBars.draw cv props SpectrumBars.initial) /\
  (length (SpectrumLine.peakValues stL) <> length (fftData props) ->
   SpectrumLine.draw cv props stL
   = SpectrumLine.draw cv props SpectrumLine.initial) /\
  length (SpectrumBars.peakValues (SpectrumBars.draw cv props stB))
  = length (fftData props) /\
  length (SpectrumLine.peakValues (SpectrumLine.draw cv props stL))
  = length (fftData props).
Proof.
  intro Hne. destruct (fftData props) as [|v data] eqn:E; [congruence|].
  assert (Hreset : forall peaks holds,
             length peaks <> length (v :: data) ->
             initPeaks (length (v :: data)) peaks holds
             = initPeaks (length (v :: data)) [] []).
  { intros peaks holds Hlen. unfold initPeaks.
    destruct (Nat.eqb_spec (length peaks) (length (v :: data))); [contradiction|].
    reflexivity. }
  repeat split.
  - intro Hlen.
    rewrite !(bars_draw_unfold cv props _ v data E). cbv zeta. rewrite E.
    now rewrite (Hreset _ _ Hlen).
  - intro Hlen.
    rewrite !(line_draw_unfold cv props _ v data E). cbv zeta. rewrite E.
    now rewrite (Hreset _ _ Hlen).
  - rewrite (bars_draw_unfold cv props _ v data E). cbv zeta. rewrite E.
    pose proof (initPeaks_length (length (v :: data))
                  (SpectrumBars.peakValues stB)
                  (SpectrumBars.peakHoldFrames stB)) as Hlen.
    destruct (initPeaks _ (SpectrumBars.peakValues stB) _) as [peaks holds].
    cbn [fst] in Hlen.
    match goal with
    | |- context [SpectrumBars.bars ?c ?s ?k ?a ?b ?d ?m ?i ?l peaks holds] =>
        destruct (SpectrumBars.bars c s k a b d m i l peaks holds)
          as [[ps hs] cmds] eqn:Hb
    end.
    cbn [SpectrumBars.peakValues].
    now rewrite (bars_length _ _ _ _ _ _ _ _ _ _ _ _ _ _ Hb).
  - rewrite (line_draw_unfold cv props _ v data E). cbv zeta. rewrite E.
    pose proof (initPeaks_length (length (v :: data))
                  (SpectrumLine.peakValues stL)
                  (SpectrumLine.peakHoldFrames stL)) as Hlen.
    destruct (initPeaks _ (SpectrumLine.peakValues stL) _) as [peaks holds].
    cbn [fst] in Hlen.
    match goal with
    | |- context [SpectrumLine.line ?c ?s ?k ?m ?i ?l peaks holds] =>
        destruct (SpectrumLine.line c s k m i l peaks holds)
          as [[ps hs] cmds] eqn:Hb
    end.
    cbn [SpectrumLine.peakValues].
    now rewrite (line_length _ _ _ _ _ _ _ _ _ _ _ Hb).
Qed.

Lemma bin_count_change_resets_peaks_witness :
  let cv := {| width := 800; height := 500 |} in
  let props :=
    {| fftData := [3; 12; 6]; fftHistory := [];
       options := {| logScale := false; showPeaks := true |} |} in
  let stB :=
    {| SpectrumBars.peakValues := [400; 130];
       SpectrumBars.peakHoldFrames := [7; 0]%nat;
       SpectrumBars.screen := [] |} in
  fftData props <> [] /\
  SpectrumBars.draw cv props stB
  = SpectrumBars.draw cv props SpectrumBars.initial /\
  length (SpectrumBars.peakValues (SpectrumBars.draw cv props stB)) = 3%nat.
Proof.
  intros cv props stB.
  assert (Hne : fftData props <> []) by discriminate.
  destruct (bin_count_change_resets_peaks cv props stB SpectrumLine.initial Hne)
    as (Hreset & _ & Hlen & _).
  split; [exact Hne|]. split; [|exact Hlen].
  apply Hreset. discriminate.
Defined.

End PeakInvariants.

(** ** SpectrumLine.vue: the vertices of the curve *)

Section LineGeometry.
Import Canvas PeakTracker Geometry.

Lemma firstPath_pathTo i x y rest :
  firstPath (SpectrumLine.pathTo i x y :: rest) = (x, y) :: firstPath rest.
Proof. destruct i; reflexivity. Qed.

Lemma line_points cv sp spacing mx (data : list Q) :
  forall i peaks holds ps hs cmds s w rest,
    length peaks = length data -> length holds = length data ->
    SpectrumLine.line cv sp spacing mx i data peaks holds = (ps, hs, cmds) ->
    firstPath (cmds ++ stroke s w :: rest)
    = map (fun kv => (Num.scale (Num.ofNat (fst kv)) spacing,
                      height cv - snd kv / mx * height cv))
        (combine (seq i (length data)) data).
Proof.
  induction data as [|v data IH];
    intros i [|p peaks] [|h holds] ps hs cmds s w rest; try discriminate.
  - intros _ _ [= _ _ <-]. reflexivity.
  - intros [= Hp] [= Hh]. rewrite line_cons.
    destruct (track sp _ p h) as [p' h'].
    destruct (SpectrumLine.line cv sp spacing mx (S i) data peaks holds)
      as [[ps' hs'] cmds'] eqn:E.
    intros [= _ _ <-].
    rewrite <- app_comm_cons, firstPath_pathTo.
    cbn [length seq combine map fst snd]. f_equal.
    exact (IH _ _ _ _ _ _ s w rest Hp Hh E).
Qed.

Lemma nth_error_combine_seq {A : Type} (l : list A) :
  forall i k v,
    nth_error l k = Some v ->
    nth_error (combine (seq i (length l)) l) k = Some ((i + k)%nat, v).
Proof.
  induction l as [|x l IH]; intros i [|k] v; try discriminate.
  - intros [= ->]. cbn. now rewrite Nat.add_0_r.
  - intro H. cbn [length seq combine nth_error].
    rewrite (IH (S i) k v H). do 2 f_equal. lia.
Qed.

(** X11.  The curve of SpectrumLine.vue for a frame of two or more
    bins, in a state whose peak arrays have equal length.  The path has
    one vertex per bin; vertex [i] is at [x = i * width / (n - 1)], so
    the first vertex is on the left edge and the last one on the right
    edge; and for non-negative magnitudes every vertex is on the
    canvas. *)
Theorem vue_line_spans_canvas (cv : canvas) (props : Props)
  (st : SpectrumLine.State) :
  length (SpectrumLine.peakHoldFrames st)
  = length (SpectrumLine.peakValues st) ->
  (2 <= length (fftData props))%nat ->
  let n := length (fftData props) in
  let pts := firstPath (SpectrumLine.screen (SpectrumLine.draw cv props st)) in
  length pts = n /\
  forall i v,
    nth_error (fftData props) i = Some v ->
    exists x y,
      nth_error pts i = Some (Some x, y)
      /\ x * (Num.ofNat n - 1) == Num.ofNat i * width cv
      /\ y == height cv - v / SpectrumLine.maxValue (fftData props) * height cv
      /\ (i = 0%nat -> x == 0)
      /\ (i = (n - 1)%nat -> x == width cv)
      /\ (0 <= width cv -> 0 <= height cv -> 0 <= v ->
          0 <= x /\ x <= width cv /\ 0 <= y /\ y <= height cv).
Proof.
  intros Hwf Hn n pts. subst n pts.
  destruct (fftData props) as [|v0 data] eqn:E; [cbn in Hn; lia|].
  rewrite (line_draw_unfold cv props st v0 data E). cbv zeta. rewrite E.
  pose proof (initPeaks_length (length (v0 :: data))
                (SpectrumLine.peakValues st)
                (SpectrumLine.peakHoldFrames st)) as Hlen.
  pose proof (initPeaks_wf (length (v0 :: data)) _ _ Hwf) as Hw.
  destruct (initPeaks _ (SpectrumLine.peakValues st) _) as [peaks holds].
  cbn [fst snd] in Hlen, Hw.
  match goal with
  | |- context [SpectrumLine.line ?c ?s ?k ?m ?i ?l peaks holds] =>
      destruct (SpectrumLine.line c s k m i l peaks holds)
        as [[ps hs] cmds] eqn:Hb
  end.
  cbn [SpectrumLine.screen firstPath].
  change ([stroke (Solid (Hsl 180 100 50)) 2] ++ ?l)
    with (stroke (Solid (Hsl 180 100 50)) 2 :: l).
  rewrite (line_points _ _ _ _ _ _ _ _ _ _ _ _ _ _ Hlen
             (eq_trans Hw Hlen) Hb).
  split.
  - rewrite length_map, length_combine, length_seq. apply Nat.min_id.
  - intros i v Hv.
    assert (Hi : (i < length (v0 :: data))%nat)
      by (apply nth_error_Some; congruence).
    rewrite nth_error_map, (nth_error_combine_seq (v0 :: data) 0 i v Hv).
    destruct (length (v0 :: data)) as [|[|m]] eqn:El; try lia.
    assert (Hd : ~ Num.ofNat (S (S m)) - 1 == 0).
    { unfold Num.ofNat, Qeq, Qminus, Qplus, Qopp, inject_Z.
      cbn [Qnum Qden]. lia. }
    unfold SpectrumLine.pointSpacing. rewrite (div_defined _ _ Hd).
    cbn [option_map fst snd Num.scale Nat.add].
    eexists. eexists. split; [reflexivity|].
    assert (Hx : Num.ofNat i * (width cv / (Num.ofNat (S (S m)) - 1))
                 * (Num.ofNat (S (S m)) - 1) == Num.ofNat i * width cv)
      by (field; exact Hd).
    assert (Hm : Num.ofNat (S (S m)) - 1 == Num.ofNat (S m)).
    { unfold Num.ofNat. rewrite (Nat2Z.inj_succ (S m)). unfold Z.succ.
      rewrite inject_Z_plus. change (inject_Z 1) with 1. ring. }
    assert (Hm0 : 0 < Num.ofNat (S m)).
    { unfold Num.ofNat. change 0 with (inject_Z 0). rewrite <- Zlt_Qlt. lia. }
    split; [exact Hx|]. split; [reflexivity|].
    split; [|split].
    + intros ->. change (Num.ofNat 0) with 0. ring.
    + intros ->. cbn [Nat.sub]. rewrite Hm. field. Lqa.lra.
    + intros Hw0 Hh0 Hv0.
      assert (Hi0 : 0 <= Num.ofNat i).
      { unfold Num.ofNat. change 0 with (inject_Z 0). rewrite <- Zle_Qle. lia. }
      assert (Hi1 : Num.ofNat i <= Num.ofNat (S m)).
      { unfold Num.ofNat. rewrite <- Zle_Qle. lia. }
      pose proof (maxWith_floor 1 (v0 :: data)) as Hfloor.
      pose proof (maxWith_upper 1 (v0 :: data) v (nth_error_In _ _ Hv)) as Hup.
      destruct (scaled_in_range v (SpectrumLine.maxValue (v0 :: data))
                  (height cv) Hv0 Hup ltac:(unfold SpectrumLine.maxValue; Lqa.lra)
                  Hh0) as [Hy0 Hy1].
      rewrite Hm in *.
      set (q := width cv / Num.ofNat (S m)) in *.
      assert (Hq : q * Num.ofNat (S m) == width cv)
        by (unfold q; field; Lqa.lra).
      assert (Hq0 : 0 <= q).
      { unfold q. apply Qle_shift_div_l; [exact Hm0|]. Lqa.lra. }
      repeat split; try Lqa.lra; Lqa.nra.
Qed.

Lemma vue_line_spans_canvas_witness :
  let cv := {| width := 800; height := 500 |} in
  let props :=
    {| fftData := [3; 12; 6]; fftHistory := [];
       options := {| logScale := false; showPeaks := true |} |} in
  let pts :=
    firstPath
      (SpectrumLine.screen (SpectrumLine.draw cv props SpectrumLine.initial)) in
  (2 <= length (fftData props))%nat /\
  length pts = 3%nat /\
  exists x y, nth_error pts 2 = Some (Some x, y) /\ x == 800 /\ 0 <= y.
Proof.
  intros cv props pts.
  assert (Hn : (2 <= length (fftData props))%nat) by (cbn; lia).
  destruct (vue_line_spans_canvas cv props SpectrumLine.initial eq_refl Hn)
    as [Hlen Hpts].
  destruct (Hpts 2%nat 6 eq_refl) as (x & y & Hnth & _ & _ & _ & Hlast & Hin).
  split; [exact Hn|]. split; [exact Hlen|].
  exists x, y. split; [exact Hnth|]. split; [exact (Hlast eq_refl)|].
  apply Hin; discriminate.
Defined.

End LineGeometry.

(** ** The entry points: peak markers of the bars *)

Section EntryMarkers.
Import Canvas HeatMap Geometry.

Lemma getColor_not_white (magnitude max : Q) : getColor magnitude max <> White.
Proof.
  unfold getColor. destruct (heat_is_rgb (ratioOf magnitude max))
    as (r & g & b & ->). discriminate.
Qed.

Lemma frequencyBar_markers minimum cv sp magnitudes i :
  markers (Entry.frequencyBar minimum cv sp magnitudes i)
  = if sp && (0 <? i)%nat && (i <? length magnitudes - 1)%nat
       && Num.ltb (nth (i - 1) magnitudes 0) (nth i magnitudes 0)
       && Num.ltb (nth (i + 1) magnitudes 0) (nth i magnitudes 0)
    then
      let barWidth := width cv / Num.ofNat (length magnitudes) in
      let barHeight :=
        nth i magnitudes 0 / Entry.barsMax minimum magnitudes * height cv in
      [fillRect (Num.ofNat i * barWidth + barWidth / 2 - 1)
         (height cv - barHeight - 4) 2 4 (Solid White)]
    else [].
Proof.
  unfold Entry.frequencyBar, markers. cbv zeta. cbn [filter].
  pose proof (getColor_not_white (nth i magnitudes 0)
                (Entry.barsMax minimum magnitudes)) as Hc.
  destruct (getColor _ _); try congruence;
    destruct (_ && _); reflexivity.
Qed.

(** X12.  The white peak markers of [drawFrequencyBars] (both entry
    points).  A bar carries a marker only when the option is checked,
    the bar is neither the first nor the last one and its magnitude is
    strictly above both neighbours; the marker is the 2 by 4 rectangle
    standing on the top edge of the bar; and the next bar never carries
    one, so two neighbouring bars are never both marked. *)
Theorem entry_peak_markers (minimum : Q) (cv : canvas) (sp : bool)
  (magnitudes : list Q) (i : nat) :
  markers (Entry.frequencyBar minimum cv sp magnitudes i) <> [] ->
  let barWidth := width cv / Num.ofNat (length magnitudes) in
  let barHeight :=
    nth i magnitudes 0 / Entry.barsMax minimum magnitudes * height cv in
  sp = true /\
  (0 < i)%nat /\ (i < length magnitudes - 1)%nat /\
  nth (i - 1) magnitudes 0 < nth i magnitudes 0 /\
  nth (i + 1) magnitudes 0 < nth i magnitudes 0 /\
  markers (Entry.frequencyBar minimum cv sp magnitudes i)
  = [fillRect (Num.ofNat i * barWidth + barWidth / 2 - 1)
       (height cv - barHeight - 4) 2 4 (Solid White)] /\
  markers (Entry.frequencyBar minimum cv sp magnitudes (S i)) = [].
Proof.
  intros Hm. cbv zeta. rewrite frequencyBar_markers in *.
  destruct sp; [|contradiction]. cbn [andb] in *.
  destruct (Nat.ltb_spec 0 i) as [Hi0|]; [|contradiction]. cbn [andb] in *.
  destruct (Nat.ltb_spec i (length magnitudes - 1)) as [Hi1|]; [|contradiction].
  cbn [andb] in *.
  destruct (Num.ltb (nth (i - 1) magnitudes 0) (nth i magnitudes 0)) eqn:Hl;
    [|contradiction].
  destruct (Num.ltb (nth (i + 1) magnitudes 0) (nth i magnitudes 0)) eqn:Hr;
    [|contradiction].
  cbn [andb] in *. apply ltb_lt in Hl, Hr.
  repeat split; try assumption.
  rewrite frequencyBar_markers.
  replace (S i - 1)%nat with i by lia.
  replace (i + 1)%nat with (S i) in Hr by lia.
  destruct (Num.ltb (nth i magnitudes 0) (nth (S i) magnitudes 0)) eqn:Hn.
  - apply ltb_lt in Hn. exfalso. Lqa.lra.
  - now rewrite !andb_false_r.
Qed.

Lemma entry_peak_markers_witness :
  let cv := {| width := 800; height := 500 |} in
  markers (Entry.frequencyBar 1 cv true [3; 12; 6; 8; 2] 1) <> [] /\
  markers (MainTs.drawFrequencyBars cv true [3; 12; 6; 8; 2])
  = [fillRect (1 * (800 / 5) + 800 / 5 / 2 - 1)
       (500 - 12 / Entry.barsMax 1 [3; 12; 6; 8; 2] * 500 - 4) 2 4
       (Solid White);
     fillRect (3 * (800 / 5) + 800 / 5 / 2 - 1)
       (500 - 8 / Entry.barsMax 1 [3; 12; 6; 8; 2] * 500 - 4) 2 4
       (Solid White)] /\
  markers (Entry.frequencyBar 1 cv true [3; 12; 6; 8; 2] 2) = [].
Proof.
  intro cv.
  assert (Hm : markers (Entry.frequencyBar 1 cv true [3; 12; 6; 8; 2] 1) <> [])
    by (rewrite frequencyBar_markers; discriminate).
  destruct (entry_peak_markers 1 cv true [3; 12; 6; 8; 2] 1 Hm)
    as (_ & _ & _ & _ & _ & _ & Hnext).
  split; [exact Hm|]. split; [|exact Hnext].
  unfold MainTs.drawFrequencyBars, Entry.drawFrequencyBars.
  cbn [length seq flat_map]. unfold markers.
  rewrite !filter_app. fold (markers (Entry.frequencyBar 1 cv true [3; 12; 6; 8; 2] 0)).
  reflexivity.
Defined.

End EntryMarkers.

(** ** The entry points: the spectrogram *)

Section EntrySpectrogram.
Import Canvas HeatMap Geometry.

Lemma slice_inside (W H : Q) (count h i : nat) :
  0 <= W -> 0 <= H ->
  (count <= History.MAX_HISTORY)%nat -> (h < count)%nat -> (i < 256)%nat ->
  let barWidth := W / Num.ofNat History.MAX_HISTORY in
  let barHeight := H / 256 in
  let x := W - (Num.ofNat count - Num.ofNat h) * barWidth in
  let y := H - (Num.ofNat i + 1) * barHeight in
  0 <= x /\ x + barWidth <= W /\ 0 <= y /\ y + barHeight <= H.
Proof.
  intros HW HH Hc Hh Hi. cbv zeta.
  assert (Hb : W / Num.ofNat History.MAX_HISTORY == W * (1 # 200))
    by (change (Num.ofNat History.MAX_HISTORY) with 200; field).
  assert (Hb' : H / 256 == H * (1 # 256)) by field.
  rewrite Hb, Hb'.
  assert (Hd : 1 <= Num.ofNat count - Num.ofNat h
               /\ Num.ofNat count - Num.ofNat h <= 200).
  { unfold Num.ofNat, Qle, Qminus, Qplus, Qopp, inject_Z. cbn [Qnum Qden].
    unfold History.MAX_HISTORY in Hc. lia. }
  assert (Hi' : 0 <= Num.ofNat i /\ Num.ofNat i + 1 <= 256).
  { unfold Num.ofNat, Qle, Qplus, inject_Z. cbn [Qnum Qden]. lia. }
  destruct Hd as [Hd1 Hd2]. destruct Hi' as [Hi1 Hi2].
  repeat split; Lqa.nra.
Qed.

(** X13.  [drawSpectrogram] of main.ts and of the simulated-source
    entry point stays on the canvas: with a history of at most
    [MAX_HISTORY] frames of at most 256 magnitudes each, as
    [processAudioData] and [processFFTData] build it, every rectangle
    lies within the canvas, and there is one rectangle per stored
    magnitude. *)
Theorem entry_spectrogram_inside_canvas (cv : canvas)
  (fftHistory : list (list Q)) :
  0 <= width cv -> 0 <= height cv ->
  (length fftHistory <= History.MAX_HISTORY)%nat ->
  Forall (fun frame => (length frame <= 256)%nat) fftHistory ->
  Forall (inside cv) (MainTs.drawSpectrogram cv fftHistory) /\
  Forall (fun c =>
            0 <= SimulatedSpectrogram.x c
            /\ SimulatedSpectrogram.x c + SimulatedSpectrogram.w c <= width cv
            /\ 0 <= SimulatedSpectrogram.y c
            /\ SimulatedSpectrogram.y c + SimulatedSpectrogram.h c <= height cv)
    (SimulatedSpectrogram.drawSpectrogram cv fftHistory) /\
  length (MainTs.drawSpectrogram cv fftHistory)
  = length (concat fftHistory) /\
  length (SimulatedSpectrogram.drawSpectrogram cv fftHistory)
  = length (concat fftHistory).
Proof.
  intros HW HH Hc Hf.
  assert (Hlen : forall h, (length (nth h fftHistory []) <= 256)%nat).
  { intro h. destruct (Nat.lt_ge_cases h (length fftHistory)) as [Hh|Hh].
    - exact (proj1 (Forall_forall _ _) Hf _ (nth_In _ _ Hh)).
    - rewrite nth_overflow by exact Hh. cbn. lia. }
  assert (Hcount : forall (B : Type) (f : nat -> nat -> B) (l : list (list Q)) k,
             length (flat_map (fun h => map (f h)
                                  (seq 0 (length (nth (h - k) l []))))
                       (seq k (length l)))
             = length (concat l)).
  { intros B f l. induction l as [|fr l IH]; intro k; [reflexivity|].
    cbn [length seq flat_map concat]. rewrite !length_app, length_map, length_seq.
    rewrite Nat.sub_diag. cbn [nth]. f_equal.
    rewrite <- (IH (S k)). f_equal. apply flat_map_ext_on.
    intros h Hin. apply in_seq in Hin.
    replace (h - k)%nat with (S (h - S k)) by lia. reflexivity. }
  repeat split.
  - apply Forall_forall. intros c Hin.
    unfold MainTs.drawSpectrogram in Hin. cbv zeta in Hin.
    apply in_flat_map in Hin. destruct Hin as (h & Hh & Hin).
    apply in_map_iff in Hin. destruct Hin as (i & <- & Hi).
    apply in_seq in Hh, Hi. specialize (Hlen h). cbn [inside].
    apply slice_inside; try assumption; lia.
  - apply Forall_forall. intros c Hin.
    unfold SimulatedSpectrogram.drawSpectrogram in Hin. cbv zeta in Hin.
    apply in_flat_map in Hin. destruct Hin as (h & Hh & Hin).
    apply in_map_iff in Hin. destruct Hin as (i & <- & Hi).
    apply in_seq in Hh, Hi. specialize (Hlen h).
    cbn [SimulatedSpectrogram.x SimulatedSpectrogram.y SimulatedSpectrogram.w
           SimulatedSpectrogram.h].
    apply slice_inside; try assumption; lia.
  - unfold MainTs.drawSpectrogram. cbv zeta.
    rewrite <- (Hcount _ (fun h i =>
      fillRect
        (width cv - (Num.ofNat (length fftHistory) - Num.ofNat h)
                    * (width cv / Num.ofNat History.MAX_HISTORY))
        (height cv - (Num.ofNat i + 1) * (height cv / 256))
        (width cv / Num.ofNat History.MAX_HISTORY) (height cv / 256)
        (Solid (getColor (nth i (nth h fftHistory []) 0)
                  (MainTs.spectrogramMax fftHistory)))) fftHistory 0%nat).
    f_equal. apply flat_map_ext_on. intros h _. now rewrite Nat.sub_0_r.
  - unfold SimulatedSpectrogram.drawSpectrogram. cbv zeta.
    rewrite <- (Hcount _ (fun h i =>
      {| SimulatedSpectrogram.fillStyle :=
           SimulatedSpectrogram.getColor (nth i (nth h fftHistory []) 0)
             (SimulatedSpectrogram.spectrogramMax fftHistory);
         SimulatedSpectrogram.x :=
           width cv - (Num.ofNat (length fftHistory) - Num.ofNat h)
                      * (width cv / Num.ofNat History.MAX_HISTORY);
         SimulatedSpectrogram.y :=
           height cv - (Num.ofNat i + 1) * (height cv / 256);
         SimulatedSpectrogram.w := width cv / Num.ofNat History.MAX_HISTORY;
         SimulatedSpectrogram.h := height cv / 256 |}) fftHistory 0%nat).
    f_equal. apply flat_map_ext_on. intros h _. now rewrite Nat.sub_0_r.
Qed.

Lemma entry_spectrogram_inside_canvas_witness :
  let cv := {| width := 800; height := 500 |} in
  let fftHistory := [[3; 12; 6]; [1; 0]] in
  0 <= width cv /\ 0 <= height cv /\
  Forall (inside cv) (MainTs.drawSpectrogram cv fftHistory) /\
  length (MainTs.drawSpectrogram cv fftHistory) = 5%nat.
Proof.
  intros cv fftHistory.
  assert (HW : 0 <= width cv) by discriminate.
  assert (HH : 0 <= height cv) by discriminate.
  assert (Hc : (length fftHistory <= History.MAX_HISTORY)%nat)
    by (unfold History.MAX_HISTORY; cbn; lia).
  assert (Hf : Forall (fun frame : list Q => (length frame <= 256)%nat)
                 fftHistory)
    by (repeat constructor; cbn; lia).
  destruct (entry_spectrogram_inside_canvas cv fftHistory HW HH Hc Hf)
    as (Hin & _ & Hlen & _).
  split; [exact HW|]. split; [exact HH|]. split; [exact Hin | exact Hlen].
Defined.

End EntrySpectrogram.

(** ** The simulated-source entry point: a spectrogram of silence *)

Section SilentSpectrogram.
Import Canvas HeatMap Geometry.

Lemma maxLoop_silent (init : Q) (row : list Q) :
  init == 0 -> Forall (fun v => v == 0) row -> Num.maxLoop init row == 0.
Proof.
  intros Hi Hrow. revert init Hi.
  induction Hrow as [|v row Hv _ IH]; intros init Hi; [exact Hi|].
  cbn [Num.maxLoop fold_left]. apply IH.
  destruct (Qmax_cases init v) as [-> | ->]; assumption.
Qed.

Lemma rows_fold_silent (fftHistory : list (list Q)) (init : Q) :
  init == 0 -> Forall (Forall (fun v => v == 0)) fftHistory ->
  fold_left (fun m row => Num.maxLoop m row) fftHistory init == 0.
Proof.
  intros Hi Hh. revert init Hi.
  induction Hh as [|row rows Hrow _ IH]; intros init Hi; [exact Hi|].
  cbn [fold_left]. apply IH. now apply maxLoop_silent.
Qed.

Lemma nth_silent (row : list Q) (i : nat) :
  Forall (fun v => v == 0) row -> nth i row 0 == 0.
Proof.
  intro H. destruct (Nat.lt_ge_cases i (length row)) as [Hi|Hi].
  - exact (proj1 (Forall_forall _ _) H _ (nth_In _ _ Hi)).
  - now rewrite nth_overflow.
Qed.

Lemma nth_frame_silent (fftHistory : list (list Q)) (h : nat) :
  Forall (Forall (fun v => v == 0)) fftHistory ->
  Forall (fun v => v == 0) (nth h fftHistory []).
Proof.
  intro H. destruct (Nat.lt_ge_cases h (length fftHistory)) as [Hh|Hh].
  - exact (proj1 (Forall_forall _ _) H _ (nth_In _ _ Hh)).
  - rewrite nth_overflow by exact Hh. constructor.
Qed.

Lemma getColor_silent (v : Q) : v == 0 -> getColor v 1 = Rgb 0 0 255.
Proof.
  intro Hv. unfold getColor, heat.
  assert (Hr : ratioOf v 1 == 0).
  { unfold ratioOf. rewrite Hv. reflexivity. }
  assert (Hn : Qnum (ratioOf v 1) = 0%Z).
  { unfold Qeq in Hr. cbn [Qnum Qden] in Hr. lia. }
  unfold Double.ofQ. rewrite Hn. vm_compute. reflexivity.
Qed.

(** X14.  A history in which every magnitude is zero.  The simulated
    entry point does not floor its maximum: each colour is computed
    from [0 / 0] and is not a colour, for every rectangle.  main.ts,
    whose maximum is floored to 1, paints the same history in the blue
    of the lowest level.  As soon as the simulated history holds one
    positive magnitude its maximum is positive, and every colour it
    computes is the heat-map colour of the magnitude. *)
Theorem simulated_spectrogram_of_silence (cv : canvas)
  (fftHistory : list (list Q)) :
  (Forall (Forall (fun v => v == 0)) fftHistory ->
   Forall (fun c => SimulatedSpectrogram.fillStyle c = None)
     (SimulatedSpectrogram.drawSpectrogram cv fftHistory)
   /\ Forall (fun c => exists x y w h,
                  c = fillRect x y w h (Solid (Rgb 0 0 255)))
        (MainTs.drawSpectrogram cv fftHistory)) /\
  (Exists (Exists (fun v => 0 < v)) fftHistory ->
   0 < SimulatedSpectrogram.spectrogramMax fftHistory /\
   forall v,
     SimulatedSpectrogram.getColor v
       (SimulatedSpectrogram.spectrogramMax fftHistory)
     = Some (getColor v (SimulatedSpectrogram.spectrogramMax fftHistory))).
Proof.
  split.
  - intro Hs.
    pose proof (rows_fold_silent fftHistory 0 (Qeq_refl 0) Hs) as Hmax.
    split.
    + apply Forall_forall. intros c Hin.
      unfold SimulatedSpectrogram.drawSpectrogram in Hin. cbv zeta in Hin.
      apply in_flat_map in Hin. destruct Hin as (h & _ & Hin).
      apply in_map_iff in Hin. destruct Hin as (i & <- & _).
      cbn [SimulatedSpectrogram.fillStyle].
      unfold SimulatedSpectrogram.getColor, SimulatedSpectrogram.ratio,
        SimulatedSpectrogram.spectrogramMax.
      rewrite (proj2 (Qeq_bool_iff _ _) Hmax).
      pose proof (nth_silent _ i (nth_frame_silent fftHistory h Hs)) as Hv.
      apply Qeq_alt in Hv. now rewrite Hv.
    + apply Forall_forall. intros c Hin.
      unfold MainTs.drawSpectrogram in Hin. cbv zeta in Hin.
      apply in_flat_map in Hin. destruct Hin as (h & _ & Hin).
      apply in_map_iff in Hin. destruct Hin as (i & <- & _).
      do 4 eexists. do 2 f_equal.
      assert (E : MainTs.spectrogramMax fftHistory = 1).
      { unfold MainTs.spectrogramMax.
        destruct (Qmax_cases
                    (fold_left (fun m row => Num.maxLoop m row) fftHistory 0) 1)
          as [E|E]; [|exact E].
        pose proof (Q.le_max_r
                      (fold_left (fun m row => Num.maxLoop m row) fftHistory 0)
                      1) as Hle.
        rewrite E, Hmax in Hle. exfalso. revert Hle. vm_compute.
        intro F. now apply F. }
      rewrite E. apply getColor_silent.
      apply nth_silent, nth_frame_silent, Hs.
  - intro Hex.
    assert (Hpos : 0 < SimulatedSpectrogram.spectrogramMax fftHistory).
    { apply Exists_exists in Hex. destruct Hex as (frame & Hf & Hex).
      apply Exists_exists in Hex. destruct Hex as (v & Hv & Hv0).
      eapply Qlt_le_trans; [exact Hv0|].
      unfold SimulatedSpectrogram.spectrogramMax.
      eapply rows_fold_upper; eassumption. }
    split; [exact Hpos|]. intro v.
    unfold SimulatedSpectrogram.getColor, SimulatedSpectrogram.ratio.
    destruct (Qeq_bool _ 0) eqn:E; [|reflexivity].
    apply Qeq_bool_iff in E. rewrite E in Hpos. discriminate Hpos.
Qed.

Lemma simulated_spectrogram_of_silence_witness :
  let cv := {| width := 800; height := 500 |} in
  Forall (Forall (fun v => v == 0)) [[0; 0]; [0]] /\
  Forall (fun c => SimulatedSpectrogram.fillStyle c = None)
    (SimulatedSpectrogram.drawSpectrogram cv [[0; 0]; [0]]) /\
  Exists (Exists (fun v => 0 < v)) [[0; 0]; [0; 3]] /\
  SimulatedSpectrogram.getColor 0
    (SimulatedSpectrogram.spectrogramMax [[0; 0]; [0; 3]])
  = Some (Rgb 0 0 255).
Proof.
  intro cv.
  assert (Hs : Forall (Forall (fun v => v == 0)) [[0; 0]; [0]])
    by (repeat constructor).
  assert (Hex : Exists (Exists (fun v => 0 < v)) [[0; 0]; [0; 3]]).
  { apply Exists_cons_tl, Exists_cons_hd, Exists_cons_tl, Exists_cons_hd.
    reflexivity. }
  split; [exact Hs|].
  split;
    [exact (proj1 (proj1 (simulated_spectrogram_of_silence cv [[0; 0]; [0]])
                     Hs))|].
  split; [exact Hex|].
  rewrite (proj2 (proj2 (simulated_spectrogram_of_silence cv [[0; 0]; [0; 3]])
                    Hex) 0).
  reflexivity.
Defined.

End SilentSpectrogram.

(** ** The simulated-source entry point: the page as a whole *)

Section SimulatedPage.
Import Simulated SimulatedEvents.

Variables FFTOutput Frame Screen : Type.
Variable magnitudesOf : FFTOutput -> Frame.
Variable drawVisualization : list Frame -> Frame -> Screen.
Variables cleared blank : Screen.

Lemma remove_only (h : nat) : remove Nat.eq_dec h [h] = [].
Proof. cbn. destruct (Nat.eq_dec h h); [reflexivity|contradiction]. Qed.

Lemma step_keeps_page_invariant (p : Page Frame Screen) (e : event FFTOutput) :
  (intervals p
   = match _interval (analysisState p) with Some h => [h] | None => [] end
   /\ (forall h, _interval (analysisState p) = Some h -> (h < nextHandle p)%nat)
   /\ (_interval (analysisState p) = None ->
       _isPaused (analysisState p) = false)
   /\ (length (fftHistory p) <= History.MAX_HISTORY)%nat) ->
  let p' := step magnitudesOf drawVisualization cleared p e in
  intervals p'
  = match _interval (analysisState p') with Some h => [h] | None => [] end
  /\ (forall h, _interval (analysisState p') = Some h -> (h < nextHandle p')%nat)
  /\ (_interval (analysisState p') = None ->
      _isPaused (analysisState p') = false)
  /\ (length (fftHistory p') <= History.MAX_HISTORY)%nat.
Proof.
  intros (Hi & Hh & Hp & Hl). destruct e as [[|]| |h out|]; cbn [step].
  - unfold startAnalysis, isRunning. cbn [negb].
    destruct (_interval (analysisState p)) as [h|] eqn:E.
    + unfold togglePause. cbn. rewrite E. repeat split; auto; discriminate.
    + unfold start, isRunning. cbn. rewrite E. cbn. rewrite Hi.
      repeat split; try discriminate; try lia.
      intros h [= <-]. lia.
  - unfold startAnalysis. cbn [negb]. auto.
  - unfold stop. cbn. repeat split; try discriminate; auto.
    destruct (_interval (analysisState p)) as [h|]; rewrite Hi; [|reflexivity].
    apply remove_only.
  - unfold fire, onInterval.
    destruct (existsb _ _); [|auto].
    destruct (negb _); [|auto].
    unfold processFFTData. cbn. repeat split; auto.
    apply record_bounded. exact Hl.
  - unfold onControlChange. destruct (rev (fftHistory p)); cbn; auto.
Qed.

(** X15.  An invariant of the simulated-source page.  Whatever
    sequence of button clicks, timer firings, control changes and
    unloads happens after the page has loaded: the window holds at most
    one interval, which is the one [analysisState] remembers, so no
    timer is ever leaked; the page is paused only while it is running;
    and the history never holds more than [MAX_HISTORY] frames. *)
Theorem simulated_page_invariant (trace : list (event FFTOutput)) :
  let p := run magnitudesOf drawVisualization cleared (loaded blank) trace in
  intervals p
  = match _interval (analysisState p) with Some h => [h] | None => [] end
  /\ (forall h, _interval (analysisState p) = Some h -> (h < nextHandle p)%nat)
  /\ (_interval (analysisState p) = None -> _isPaused (analysisState p) = false)
  /\ (length (fftHistory p) <= History.MAX_HISTORY)%nat.
Proof.
  cbv zeta. induction trace as [|e trace IH] using rev_ind.
  - cbn. repeat split; try discriminate; auto. lia.
  - unfold run. rewrite fold_left_app. cbn [fold_left].
    apply step_keeps_page_invariant. exact IH.
Qed.

(** X16.  The button never stops the simulated analysis.  Once an
    interval is running, no sequence of clicks, firings and control
    changes clears or replaces it: the same handle stays scheduled, and
    the page is paused exactly when the number of clicks with a valid
    URL since then is odd, starting from its pause state. *)
Theorem simulated_clicks_only_pause (p : Page Frame Screen) (h : nat)
  (trace : list (event FFTOutput)) :
  _interval (analysisState p) = Some h ->
  Forall (fun e => e <> BeforeUnload) trace ->
  let p' := run magnitudesOf drawVisualization cleared p trace in
  let clicks :=
    length (filter (fun e => match e with Click true => true | _ => false end)
              trace) in
  _interval (analysisState p') = Some h
  /\ intervals p' = intervals p
  /\ nextHandle p' = nextHandle p
  /\ _isPaused (analysisState p')
     = xorb (_isPaused (analysisState p)) (Nat.odd clicks).
Proof.
  intros Hrun Htrace. cbv zeta. revert p Hrun.
  induction Htrace as [|e trace He _ IH]; intros p Hrun.
  - cbn. repeat split; auto. now rewrite xorb_false_r.
  - unfold run. cbn [fold_left]. fold (run magnitudesOf drawVisualization cleared
                                          (step magnitudesOf drawVisualization
                                             cleared p e) trace).
    assert (Hstep :
             let q := step magnitudesOf drawVisualization cleared p e in
             _interval (analysisState q) = Some h
             /\ intervals q = intervals p
             /\ nextHandle q = nextHandle p
             /\ _isPaused (analysisState q)
                = xorb (_isPaused (analysisState p))
                    (match e with Click true => true | _ => false end)).
    { destruct e as [[|]| |h' out|]; cbn [step]; try contradiction.
      - unfold startAnalysis, isRunning. cbn [negb]. rewrite Hrun.
        unfold togglePause. cbn. repeat split; auto;
          try now destruct (_isPaused (analysisState p)).
      - unfold startAnalysis. cbn [negb].
        repeat split; auto; try now rewrite xorb_false_r.
      - unfold fire, onInterval.
        destruct (existsb _ _);
          [|repeat split; auto; now rewrite xorb_false_r].
        destruct (negb _);
          [|repeat split; auto; now rewrite xorb_false_r].
        unfold processFFTData. cbn. repeat split; auto;
          try now rewrite xorb_false_r.
      - unfold onControlChange. destruct (rev (fftHistory p)); cbn;
          repeat split; auto; now rewrite xorb_false_r. }
    cbv zeta in Hstep. destruct Hstep as (H1 & H2 & H3 & H4).
    destruct (IH _ H1) as (I1 & I2 & I3 & I4).
    repeat split; try congruence.
    rewrite I4, H4. cbn [filter].
    destruct e as [[|]| |h' out|]; cbn [length];
      rewrite ?xorb_false_r; try reflexivity.
    rewrite Nat.odd_succ, <- Nat.negb_odd.
    destruct (_isPaused (analysisState p)), (Nat.odd _); reflexivity.
Qed.

End SimulatedPage.

Lemma simulated_clicks_only_pause_witness :
  let magnitudesOf := fun n : nat => [n] in
  let draw := fun (history : list (list nat)) (frame : list nat) => frame in
  let p := SimulatedEvents.run magnitudesOf draw [] (SimulatedEvents.loaded [])
             [SimulatedEvents.Click true] in
  let trace :=
    [SimulatedEvents.Fire 1 7%nat; SimulatedEvents.Click true;
     SimulatedEvents.Fire 1 8%nat; SimulatedEvents.ControlChange;
     SimulatedEvents.Click true; SimulatedEvents.Click false;
     SimulatedEvents.Click true; SimulatedEvents.Fire 1 9%nat] in
  Simulated._interval (Simulated.analysisState p) = Some 1%nat /\
  Forall (fun e => e <> SimulatedEvents.BeforeUnload) trace /\
  Simulated._isPaused
    (Simulated.analysisState (SimulatedEvents.run magnitudesOf draw [] p trace))
  = true /\
  Simulated.intervals (SimulatedEvents.run magnitudesOf draw [] p trace)
  = [1%nat].
Proof.
  intros magnitudesOf draw p trace.
  assert (Hrun : Simulated._interval (Simulated.analysisState p) = Some 1%nat)
    by reflexivity.
  assert (Htrace : Forall (fun e => e <> SimulatedEvents.BeforeUnload) trace)
    by (repeat constructor; discriminate).
  destruct (simulated_clicks_only_pause nat (list nat) (list nat) magnitudesOf
              draw [] p 1%nat trace Hrun Htrace) as (_ & Hi & _ & Hp).
  split; [exact Hrun|]. split; [exact Htrace|]. split.
  - rewrite Hp. reflexivity.
  - rewrite Hi. reflexivity.
Defined.

(** ** Magnitudes: range and order *)

Section MagnitudeRange.
Import Magnitude.
Local Open Scope R_scope.

Lemma byteValue_le_255 (b : byte) : byteValue b <= 255.
Proof.
  unfold byteValue. apply IZR_le.
  pose proof (Byte.to_N_bounded b) as H. lia.
Qed.

Lemma byteValue_zero (b : byte) : byteValue b = 0 <-> b = x00.
Proof.
  unfold byteValue. split.
  - intro H. apply eq_IZR in H.
    assert (E : Byte.to_N b = Byte.to_N x00) by (cbn; lia).
    apply (f_equal Byte.of_N) in E. rewrite !Byte.of_to_N in E.
    now injection E.
  - intros ->. reflexivity.
Qed.

Lemma ln_monotone (x y : R) : 0 < x -> x <= y -> ln x <= ln y.
Proof.
  intros Hx [Hlt| ->]; [|apply Rle_refl].
  left. now apply ln_increasing.
Qed.

Lemma log10_monotone (x y : R) : 0 < x -> x <= y -> log10 x <= log10 y.
Proof.
  intros Hx Hle. unfold log10, Rdiv.
  apply Rmult_le_compat_r; [|now apply ln_monotone].
  left. apply Rinv_0_lt_compat, ln10_pos.
Qed.

Lemma log10_1000 : log10 1000 = 3.
Proof.
  unfold log10. replace 1000 with (10 * (10 * 10)) by Lra.lra.
  rewrite !ln_mult by Lra.lra.
  pose proof ln10_pos. field. Lra.lra.
Qed.

Lemma log10_pos (x : R) : 1 < x -> 0 < log10 x.
Proof.
  intro Hx. unfold log10, Rdiv. apply Rmult_lt_0_compat.
  - rewrite <- ln_1. apply ln_increasing; Lra.lra.
  - apply Rinv_0_lt_compat, ln10_pos.
Qed.

Lemma log10_nonpos (x : R) : 0 < x -> x <= 1 -> log10 x <= 0.
Proof.
  intros H0 H1. pose proof (log10_monotone x 1 H0 H1) as H.
  unfold log10 in H at 2. rewrite ln_1 in H. unfold Rdiv in H.
  now rewrite Rmult_0_l in H.
Qed.

Lemma log_magnitude_bounds (b : byte) :
  0 < byteValue b -> 0 < log10 (byteValue b + 1) * 50 <= 150.
Proof.
  intro Hb. pose proof (byteValue_le_255 b) as Hle. split.
  - apply Rmult_lt_0_compat; [apply log10_pos|]; Lra.lra.
  - pose proof (log10_monotone (byteValue b + 1) 1000) as Hm.
    rewrite log10_1000 in Hm. specialize (Hm ltac:(Lra.lra) ltac:(Lra.lra)).
    Lra.lra.
Qed.

Lemma audioMagnitude_le_255 logScale frequencyData i :
  audioMagnitude logScale frequencyData i <= 255.
Proof.
  unfold audioMagnitude.
  pose proof (byteValue_le_255 (nth i frequencyData x00)) as Hle.
  destruct logScale; cbn [andb]; [|exact Hle].
  destruct (Rlt_dec 0 (byteValue (nth i frequencyData x00))) as [Hi|Hi];
    [|exact Hle].
  destruct (log_magnitude_bounds _ Hi). Lra.lra.
Qed.

(** X17.  The byte path of [processAudioData] (AudioAnalyzer.vue and
    main.ts).  A magnitude is never above 255, and never above 150 with
    the logarithmic scale; it is zero exactly for a zero byte, with or
    without the scale; and the scale keeps the order of the bytes: a
    louder bin never gets the smaller magnitude. *)
Theorem audio_magnitude_range (logScale : bool) (frequencyData : list byte)
  (i j : nat) :
  let m := audioMagnitude logScale frequencyData in
  m i <= 255 /\
  (logScale = true -> m i <= 150) /\
  (m i = 0 <-> nth i frequencyData x00 = x00) /\
  (byteValue (nth i frequencyData x00) <= byteValue (nth j frequencyData x00) ->
   m i <= m j).
Proof.
  cbv zeta.
  pose proof log_magnitude_bounds as Hlog.
  unfold audioMagnitude.
  pose proof (byteValue_nonneg (nth i frequencyData x00)) as Hi0.
  pose proof (byteValue_nonneg (nth j frequencyData x00)) as Hj0.
  pose proof (byteValue_le_255 (nth i frequencyData x00)) as Hi1.
  destruct logScale; cbn [andb].
  - destruct (Rlt_dec 0 (byteValue (nth i frequencyData x00))) as [Hi|Hi].
    + destruct (Hlog _ Hi) as [Hp Hu].
      split; [Lra.lra|]. split; [intros _; exact Hu|]. split.
      * split; [Lra.lra|]. intro E. apply byteValue_zero in E. Lra.lra.
      * intro Hle.
        destruct (Rlt_dec 0 (byteValue (nth j frequencyData x00))); [|Lra.lra].
        apply Rmult_le_compat_r; [Lra.lra|].
        apply log10_monotone; Lra.lra.
    + assert (E : byteValue (nth i frequencyData x00) = 0) by Lra.lra.
      split; [Lra.lra|]. split; [intros _; Lra.lra|]. split.
      * split; intro; [now apply byteValue_zero | exact E].
      * intros _. rewrite E.
        destruct (Rlt_dec 0 (byteValue (nth j frequencyData x00))) as [Hj|Hj];
          [|exact Hj0].
        destruct (Hlog _ Hj). Lra.lra.
  - split; [exact Hi1|]. split; [discriminate|]. split.
    + apply byteValue_zero.
    + auto.
Qed.

(** X18.  The complex path of [processFFTData] for a bin that is
    read inside the array.  Without the logarithmic scale the magnitude
    is the modulus.  With it, every bin whose modulus is at most 1 is
    reported as 0, exactly like silence, and a bin with a larger
    modulus is [10 * log10] of it, which is positive. *)
Theorem fft_log_scale_squashes_small_bins (fftOutput : list R) (i : nat)
  (real imag : R) :
  nth_error fftOutput (i * 2) = Some real ->
  nth_error fftOutput (i * 2 + 1) = Some imag ->
  let modulus := sqrt (real * real + imag * imag) in
  fftMagnitude false fftOutput i = Some modulus /\
  (modulus <= 1 -> fftMagnitude true fftOutput i = Some 0) /\
  (1 < modulus ->
   fftMagnitude true fftOutput i = Some (log10 modulus * 10)
   /\ 0 < log10 modulus * 10).
Proof.
  intros Hr Hi. cbv zeta. unfold fftMagnitude. rewrite Hr, Hi. cbn [andb].
  pose proof (sqrt_pos (real * real + imag * imag)) as Hpos.
  split; [|split].
  - now rewrite Rmax_right.
  - intro Hle.
    destruct (Rlt_dec 0 (sqrt (real * real + imag * imag))) as [H0|H0].
    + rewrite Rmax_left; [reflexivity|].
      pose proof (log10_nonpos _ H0 Hle). Lra.lra.
    + rewrite Rmax_left; [reflexivity | Lra.lra].
  - intro Hlt.
    destruct (Rlt_dec 0 (sqrt (real * real + imag * imag))) as [H0|H0];
      [|Lra.lra].
    pose proof (log10_pos _ Hlt) as Hl.
    split; [|Lra.lra]. rewrite Rmax_right; [reflexivity | Lra.lra].
Qed.

Lemma fft_log_scale_squashes_small_bins_witness :
  nth_error [0; 0; 3; 4] (1 * 2) = Some 3 /\
  nth_error [0; 0; 3; 4] (1 * 2 + 1) = Some 4 /\
  fftMagnitude false [0; 0; 3; 4] 1 = Some (sqrt (3 * 3 + 4 * 4)) /\
  nth_error [(1 / 2); 0] (0 * 2) = Some (1 / 2) /\
  fftMagnitude true [(1 / 2); 0] 0 = Some 0.
Proof.
  destruct (fft_log_scale_squashes_small_bins [0; 0; 3; 4] 1 3 4
              eq_refl eq_refl) as (Hlin & _ & _).
  destruct (fft_log_scale_squashes_small_bins [(1 / 2); 0] 0 (1 / 2) 0
              eq_refl eq_refl) as (_ & Hsmall & _).
  split; [reflexivity|]. split; [reflexivity|]. split; [exact Hlin|].
  split; [reflexivity|]. apply Hsmall.
  replace (1 / 2 * (1 / 2) + 0 * 0) with ((1 / 2) * (1 / 2)) by Lra.lra.
  rewrite sqrt_square; Lra.lra.
Defined.

End MagnitudeRange.

(** ** AudioAnalyzer.vue: the analysis loop *)

Section AnalyzerLoop.
Import Analyzer.
Local Open Scope R_scope.

Lemma Forall_record {A : Type} (P : A -> Prop) (cap : nat) (h : list A) (x : A) :
  Forall P h -> P x -> Forall P (History.record cap h x).
Proof.
  intros Hh Hx. unfold History.record, History.push, History.shift.
  assert (Hall : Forall P (h ++ [x]))
    by (apply Forall_app; split; [exact Hh | now constructor]).
  destruct (_ <? _)%nat; [|exact Hall].
  destruct (h ++ [x]); [constructor|]. now inversion Hall.
Qed.

Lemma last_record {A : Type} (cap : nat) (h : list A) (x d : A) :
  (1 <= cap)%nat -> last (History.record cap h x) d = x.
Proof.
  intro Hcap. unfold History.record, History.push, History.shift.
  destruct (Nat.ltb_spec cap (length (h ++ [x]))) as [Hlt|_];
    [|apply last_last].
  destruct h as [|y h]; [cbn in Hlt; lia|].
  cbn [app tl]. apply last_last.
Qed.

Lemma processAudioData_frame (logScale : bool) (frequencyData : list byte) :
  (length (Magnitude.processAudioData logScale frequencyData) <= 256)%nat
  /\ Forall (fun m => 0 <= m <= 255)
       (Magnitude.processAudioData logScale frequencyData).
Proof.
  unfold Magnitude.processAudioData. rewrite length_map, length_seq.
  split; [apply Nat.le_min_l|].
  apply Forall_map, Forall_forall. intros i _. split.
  - apply audioMagnitude_nonneg.
  - apply audioMagnitude_le_255.
Qed.

Lemma processAudioData_data (frequencyData : list byte) (st : State) :
  dataInRange st -> dataInRange (processAudioData frequencyData st).
Proof.
  intros (Hlen & Hall & Hlast). unfold processAudioData.
  destruct (negb (analyserNode st)); [now repeat split|].
  cbv zeta. unfold dataInRange. cbn [fftHistory fftData].
  split; [now apply record_bounded|]. split.
  - apply Forall_record; [exact Hall|]. apply processAudioData_frame.
  - symmetry. apply last_record. unfold History.MAX_HISTORY. lia.
Qed.

Lemma loop_data (frequencyData : list byte) (st : State) :
  dataInRange st -> dataInRange (loop frequencyData st).
Proof.
  intro H. unfold loop. destruct (negb (isAnalyzing st)); [exact H|].
  apply (processAudioData_data frequencyData) in H.
  exact H.
Qed.

Lemma processAudioData_control (frequencyData : list byte) (st : State) :
  isAnalyzing (processAudioData frequencyData st) = isAnalyzing st
  /\ analyserNode (processAudioData frequencyData st) = analyserNode st
  /\ scheduled (processAudioData frequencyData st) = scheduled st
  /\ nextFrame (processAudioData frequencyData st) = nextFrame st
  /\ isLoading (processAudioData frequencyData st) = isLoading st.
Proof.
  unfold processAudioData. destruct (negb (analyserNode st)); now repeat split.
Qed.

Lemma loop_pending (frequencyData : list byte) (st : State) :
  isAnalyzing st = true -> analyserNode st = true -> scheduled st = [] ->
  oneFramePending (loop frequencyData st)
  /\ isLoading (loop frequencyData st) = isLoading st.
Proof.
  intros Ha Hn Hs. unfold loop. rewrite Ha. cbn [negb].
  destruct (processAudioData_control frequencyData st)
    as (Ea & En & Es & Ef & El).
  unfold oneFramePending.
  cbn [isAnalyzing analyserNode animationFrame scheduled nextFrame isLoading].
  rewrite Ea, En, Es, Hs, Ha, Hn, El. split; [|reflexivity]. split.
  - intros _. split; [reflexivity|]. eexists. repeat split. lia.
  - discriminate.
Qed.

Lemma stopAnalysis_pending (st : State) :
  oneFramePending st ->
  oneFramePending (stopAnalysis st) /\ isAnalyzing (stopAnalysis st) = false.
Proof.
  intros [Hon Hoff]. unfold stopAnalysis.
  destruct (isAnalyzing st) eqn:Ea; cbn [negb].
  - destruct (Hon eq_refl) as (_ & h & Hf & Hs & _).
    unfold oneFramePending. cbn. rewrite Hf, Hs, remove_only.
    repeat split; discriminate.
  - split; [|exact Ea]. split; [congruence|]. intros _. now apply Hoff.
Qed.

Lemma step_keeps_analyzer_invariant (st : State) (e : event) :
  oneFramePending st /\ dataInRange st /\ isLoading st = false ->
  oneFramePending (step st e) /\ dataInRange (step st e)
  /\ isLoading (step st e) = false.
Proof.
  intros (Hp & Hd & Hl). pose proof Hp as [Hon Hoff].
  destruct e as [granted fd|h fd|b|]; cbn [step].
  - unfold toggleAnalysis. destruct (isAnalyzing st) eqn:Ea.
    + destruct (stopAnalysis_pending st Hp) as [Hp' _].
      split; [exact Hp'|]. unfold stopAnalysis. rewrite Ea. cbn [negb].
      split; [exact Hd | exact Hl].
    + destruct (Hoff eq_refl) as [Hf Hs]. destruct granted.
      * unfold startAnalysis. cbn [isAnalyzing]. rewrite ?Ea.
        match goal with
        | |- oneFramePending (loop fd ?s) /\ _ =>
            destruct (loop_pending fd s eq_refl eq_refl Hs) as [H1 H2];
            pose proof (loop_data fd s) as H3
        end.
        split; [exact H1|]. split; [|rewrite H2; reflexivity].
        apply H3. unfold dataInRange. cbn. repeat split; try constructor. lia.
      * split; [|split; [|reflexivity]].
        -- unfold oneFramePending. cbn. rewrite ?Ea. split; [discriminate|].
           intros _. now split.
        -- unfold dataInRange. cbn. repeat split; try constructor. lia.
  - unfold onAnimationFrame.
    destruct (existsb (Nat.eqb h) (scheduled st)) eqn:Ex;
      [|exact (conj Hp (conj Hd Hl))].
    destruct (isAnalyzing st) eqn:Ea.
    + destruct (Hon eq_refl) as (Hn & h0 & Hf & Hs & Hlt).
      rewrite Hs in Ex. cbn in Ex. rewrite orb_false_r in Ex.
      apply Nat.eqb_eq in Ex. subst h0.
      match goal with
      | |- oneFramePending (loop fd ?s) /\ _ =>
          assert (Hs' : scheduled s = [])
            by (cbn [scheduled]; rewrite Hs; apply remove_only);
          destruct (loop_pending fd s eq_refl Hn Hs') as [H1 H2];
          pose proof (loop_data fd s Hd) as H3
      end.
      split; [exact H1|]. split; [exact H3|]. rewrite H2. exact Hl.
    + destruct (Hoff eq_refl) as [_ Hs]. rewrite Hs in Ex. discriminate Ex.
  - exact (conj Hp (conj Hd Hl)).
  - unfold onUnmounted. cbv zeta.
    destruct (stopAnalysis_pending st Hp) as [[Hon' Hoff'] Ha'].
    destruct (Hoff' Ha') as [Hf' Hs'].
    split; [|split].
    + unfold oneFramePending. cbn. rewrite Ha'. split; [discriminate|].
      intros _. now split.
    + unfold stopAnalysis. destruct (negb (isAnalyzing st)); exact Hd.
    + unfold stopAnalysis. destruct (negb (isAnalyzing st)); exact Hl.
Qed.

Lemma analyzer_invariant (trace : list event) :
  oneFramePending (run mounted trace) /\ dataInRange (run mounted trace)
  /\ isLoading (run mounted trace) = false.
Proof.
  induction trace as [|e trace IH] using rev_ind.
  - cbn. split; [|split; [|reflexivity]].
    + split; [discriminate|]. intros _. now split.
    + unfold dataInRange. cbn. repeat split; try constructor. lia.
  - unfold run. rewrite fold_left_app. cbn [fold_left].
    apply step_keeps_analyzer_invariant. exact IH.
Qed.

(** X19.  The animation loop of AudioAnalyzer.vue.  Whatever sequence
    of button clicks (with the microphone granted or refused),
    animation frames, option changes and unmounts happens after
    [setup]: while the analysis runs exactly one frame callback is
    pending, the one [animationFrame] remembers, and the analyser node
    exists; when it does not run no callback is pending, so a frame
    that fires after a stop changes nothing. *)
Theorem analyzer_one_frame_pending (trace : list event) :
  let st := run mounted trace in
  oneFramePending st /\
  (isAnalyzing st = false ->
   forall h frequencyData, onAnimationFrame h frequencyData st = st).
Proof.
  cbv zeta. destruct (analyzer_invariant trace) as ([Hon Hoff] & _ & Hl).
  split; [now split|].
  intros Ha h fd. destruct (Hoff Ha) as [_ Hs].
  unfold onAnimationFrame. now rewrite Hs.
Qed.

(** X20.  The data AudioAnalyzer.vue hands to the visualisers, after
    any sequence of events: the history holds at most [MAX_HISTORY]
    frames, every frame has at most 256 magnitudes, each between 0 and
    255, and [fftData] is the newest frame of the history (both are
    empty after a reset). *)
Theorem analyzer_data_in_range (trace : list event) :
  let st := run mounted trace in
  (length (fftHistory st) <= History.MAX_HISTORY)%nat /\
  Forall (fun frame => (length frame <= 256)%nat
                       /\ Forall (fun m => 0 <= m <= 255) frame)
    (fftHistory st) /\
  fftData st = last (fftHistory st) [].
Proof.
  cbv zeta. exact (proj1 (proj2 (analyzer_invariant trace))).
Qed.

End AnalyzerLoop.

(** ** The entry points: the line graph *)

Section EntryLine.
Import Canvas EntryLineGraph.

Lemma graphMax_upper minimum (magnitudes : list Q) (v : Q) :
  In v magnitudes -> v <= graphMax minimum magnitudes.
Proof.
  intro Hin. unfold graphMax.
  eapply Qle_trans; [apply (maxLoop_upper 0 magnitudes v Hin)|].
  apply Q.le_max_l.
Qed.

Lemma point_on_canvas minimum cv (magnitudes : list Q) (i : nat) :
  0 < minimum -> 0 <= width cv -> 0 <= height cv ->
  Forall (fun v => 0 <= v) magnitudes ->
  (i < length magnitudes)%nat ->
  (0 <= pointX cv magnitudes i /\ pointX cv magnitudes i <= width cv)
  /\ (0 <= pointY minimum cv magnitudes i
      /\ pointY minimum cv magnitudes i <= height cv).
Proof.
  intros Hmin HW HH Hpos Hi. split.
  - unfold pointX.
    assert (Hn : 0 < Num.ofNat (length magnitudes))
      by (apply (ofNat_lt 0); lia).
    apply scaled_in_range; try assumption.
    + apply ofNat_nonneg.
    + apply ofNat_le. lia.
  - unfold pointY.
    pose proof (nth_In magnitudes 0 Hi) as Hin.
    assert (Hfloor : minimum <= graphMax minimum magnitudes)
      by apply Q.le_max_r.
    assert (Hv0 : 0 <= nth i magnitudes 0)
      by exact (proj1 (Forall_forall _ _) Hpos _ Hin).
    assert (Hv1 : nth i magnitudes 0 <= graphMax minimum magnitudes)
      by now apply graphMax_upper.
    assert (Hmx : 0 < graphMax minimum magnitudes) by Lqa.lra.
    destruct (scaled_in_range _ _ _ Hv0 Hv1 Hmx HH) as [H0 H1].
    split; Lqa.lra.
Qed.

(** X21.  [drawLineGraph] of the two entry points (floor 1 and floor
    0.1).  For a non-empty frame of non-negative magnitudes every
    vertex of the two paths and every marker centre lies on the canvas.
    Vertex [i] is at [x = i * width / n]: unlike the curve of
    SpectrumLine.vue the line stops one step short of the right edge.
    For the empty frame the stroked path starts at a point whose y
    coordinate is not a number. *)
Theorem entry_line_graph_on_canvas (minimum : Q) (cv : canvas) (sp : bool)
  (magnitudes : list Q) :
  0 < minimum -> 0 <= width cv -> 0 <= height cv ->
  Forall (fun v => 0 <= v) magnitudes ->
  (magnitudes <> [] ->
   Forall (onCanvas cv) (drawLineGraph minimum cv sp magnitudes)) /\
  (forall i, (i < length magnitudes)%nat ->
     pointX cv magnitudes i * Num.ofNat (length magnitudes)
     == Num.ofNat i * width cv
     /\ (0 < width cv -> pointX cv magnitudes i < width cv)) /\
  In (MoveTo 0 None) (drawLineGraph minimum cv sp []).
Proof.
  intros Hmin HW HH Hpos. split; [|split].
  - intro Hne. unfold drawLineGraph. cbv zeta.
    assert (Hpt : forall i, (i < length magnitudes)%nat ->
              onCanvas cv (LineTo (pointX cv magnitudes i)
                             (pointY minimum cv magnitudes i))).
    { intros i Hi. cbn [onCanvas].
      destruct (point_on_canvas minimum cv magnitudes i Hmin HW HH Hpos Hi)
        as [[? ?] [? ?]]. tauto. }
    assert (Hlen : (0 < length magnitudes)%nat)
      by (destruct magnitudes; [congruence | cbn; lia]).
    apply Forall_app; split;
      [|apply Forall_app; split;
        [|apply Forall_app; split;
          [|apply Forall_app; split; [|apply Forall_app; split]]]].
    + repeat (apply Forall_cons || apply Forall_nil); cbn [onCanvas];
        [exact I | repeat split; Lqa.lra].
    + apply Forall_map, Forall_forall. intros i Hi. apply in_seq in Hi.
      apply Hpt. lia.
    + destruct magnitudes as [|m0 rest]; [congruence|].
      destruct (point_on_canvas minimum cv (m0 :: rest) 0 Hmin HW HH Hpos Hlen)
        as [_ [? ?]].
      repeat (apply Forall_cons || apply Forall_nil); cbn [onCanvas];
        try exact I; repeat split; Lqa.lra.
    + apply Forall_map, Forall_forall. intros i Hi. apply in_seq in Hi.
      apply Hpt. lia.
    + repeat (apply Forall_cons || apply Forall_nil). exact I.
    + destruct sp; [|constructor].
      apply Forall_forall. intros c Hin.
      apply in_flat_map in Hin. destruct Hin as (i & Hi & Hin).
      apply in_seq in Hi. unfold marker in Hin.
      destruct (_ && _); [|contradiction].
      assert (Hi' : (i < length magnitudes)%nat) by lia.
      specialize (Hpt i Hi'). cbn [onCanvas] in Hpt.
      destruct Hin as [<- | [<- | [<- | []]]]; cbn [onCanvas]; auto.
  - intros i Hi.
    assert (Hn : 0 < Num.ofNat (length magnitudes))
      by (apply (ofNat_lt 0); lia).
    assert (Hx : pointX cv magnitudes i * Num.ofNat (length magnitudes)
                 == Num.ofNat i * width cv)
      by (unfold pointX; field; Lqa.lra).
    split; [exact Hx|]. intro Hw.
    assert (Hlt : Num.ofNat i < Num.ofNat (length magnitudes))
      by now apply ofNat_lt.
    Lqa.nra.
  - unfold drawLineGraph. cbn. auto 10.
Qed.

Lemma entry_line_graph_on_canvas_witness :
  let cv := {| width := 800; height := 500 |} in
  0 < 1 /\ 0 <= width cv /\ 0 <= height cv /\
  Forall (fun v => 0 <= v) [3; 12; 6; 8] /\
  Forall (onCanvas cv) (drawLineGraph 1 cv true [3; 12; 6; 8]) /\
  pointX cv [3; 12; 6; 8] 3 < 800.
Proof.
  intro cv.
  assert (Hmin : 0 < 1) by reflexivity.
  assert (HW : 0 <= width cv) by discriminate.
  assert (HH : 0 <= height cv) by discriminate.
  assert (Hpos : Forall (fun v => 0 <= v) [3; 12; 6; 8])
    by (repeat constructor; discriminate).
  destruct (entry_line_graph_on_canvas 1 cv true [3; 12; 6; 8]
              Hmin HW HH Hpos) as (Hon & Hx & _).
  split; [exact Hmin|]. split; [exact HW|]. split; [exact HH|].
  split; [exact Hpos|]. split.
  - apply Hon. discriminate.
  - apply (Hx 3%nat); [cbn; lia | reflexivity].
Defined.

End EntryLine.
